(** * The project indexer of claude-task-viewer

    A shallow embedding of the indexing and grouping code of the task viewer
    (the Go file declaring [ProjectIndexer]): [loadProject], [ListProjects],
    [extractProjectInfo], [HasTasks], [GetTaskCount], [ListActiveTaskLists],
    [buildSessionProjectMap], [findProjectByJSONL], [ListProjectSummaries],
    [computeBaseRepos] and [ListProjectGroups], followed by the properties
    the specification states about them.

    Conventions.
    - A Go [string] is a sequence of bytes: Rocq's [string].
    - A Go [int] is a 64-bit two's complement integer: a [Z] whose additions
      wrap around ([int_add]). [len] of a slice is the length of a list, as
      a [Z]; the length of a string is a [nat].
    - A [time.Time] is an instant together with a zone offset; [After]
      compares instants only.
    - The file system is an explicit value [FileSystem]: every [os] call of
      the source reads it, none writes it. One operation of the indexer
      sees one state of the file system.
    - [sort.Slice], [filepath.Join] and the order in which a map is ranged
      over are parameters, the methods of the class [GoLib]: the order of
      elements that compare equal and the order of a map are left open by
      Go, and the cleaning rules of [filepath.Join] play no part here. The
      laws of the class are what the documentation of Go promises.
    - Paths follow the Unix rules ([filepath.Separator] is the slash). *)

From Stdlib Require Import ZArith String Ascii List Bool Sorted Permutation Lia.
From stdpp Require Import gmap strings list fin_maps sorting.

(** ** Machine integers *)

Definition MaxInt : Z := (2 ^ 63 - 1)%Z.

(** Two's complement reduction of an unbounded integer to 64 bits. *)
Definition int_wrap (z : Z) : Z := ((z + 2 ^ 63) mod 2 ^ 64 - 2 ^ 63)%Z.

(** Go's [a + b] on [int]. *)
Definition int_add (a b : Z) : Z := int_wrap (a + b).

(** [len(x)] as an [int]. *)
Definition len {A} (l : list A) : Z := Z.of_nat (length l).

(** A list that a Go slice can hold: its length is an [int]. *)
Definition fits {A} (l : list A) : Prop := (len l <= MaxInt)%Z.

Definition fitsb {A} (l : list A) : bool := (len l <=? MaxInt)%Z.

(** ** Errors *)

Inductive errno := ENOENT | ENOTDIR | EACCES | EIO.

(** The error values the indexer can see: the sentinel [os.ErrNotExist], a
    [*fs.PathError] of a failed [os] call, and a decoding error of
    [json.Unmarshal]. *)
Inductive error :=
| ErrNotExist
| PathError (e : errno)
| UnmarshalError.

(** [errors.Is(err, os.ErrNotExist)]. *)
Definition IsNotExist (e : error) : bool :=
  match e with
  | ErrNotExist | PathError ENOENT => true
  | _ => false
  end.

Inductive result (A : Type) :=
| Ok (a : A)
| Err (e : error).
Arguments Ok {A} a.
Arguments Err {A} e.

(** ** Time *)

Module Time.
Record t := mk { unixNano : Z; offset : Z }.

(** [t.After(u)]: the instant of [t] is later than the instant of [u]. *)
Definition After (a b : t) : bool := (unixNano b <? unixNano a)%Z.
End Time.

(** ** Strings and paths *)

Definition slash : ascii := "/"%char.
Definition dash : ascii := "-"%char.

(** [strings.HasPrefix(s, prefix)]. *)
Definition strings_HasPrefix (s pre : string) : bool := String.prefix pre s.

(** [strings.HasSuffix(s, suffix)]:
    [len(s) >= len(suffix) && s[len(s)-len(suffix):] == suffix]. *)
Definition strings_HasSuffix (s suffix : string) : bool :=
  (String.length suffix <=? String.length s)%nat &&
  String.eqb
    (substring (String.length s - String.length suffix) (String.length suffix) s)
    suffix.

(** [strings.Split(s, sep)] for a separator [sep] of one byte: the pieces of
    [s] between the occurrences of [sep], one more than there are
    occurrences. *)
Fixpoint strings_Split (s : string) (sep : ascii) : list string :=
  match s with
  | EmptyString => [EmptyString]
  | String c r =>
      if Ascii.eqb c sep then EmptyString :: strings_Split r sep
      else match strings_Split r sep with
           | piece :: pieces => String c piece :: pieces
           | [] => [String c EmptyString]
           end
  end.

(** The first loop of [filepath.Base]: strip the trailing separators. *)
Fixpoint stripTrailingSlashes (path : string) : string :=
  match path with
  | EmptyString => EmptyString
  | String c r =>
      match stripTrailingSlashes r with
      | EmptyString => if Ascii.eqb c slash then EmptyString else String c EmptyString
      | r' => String c r'
      end
  end.

Fixpoint hasSlash (path : string) : bool :=
  match path with
  | EmptyString => false
  | String c r => Ascii.eqb c slash || hasSlash r
  end.

(** The second loop of [filepath.Base]: [path[i+1:]] for the last index [i]
    that holds a separator, the whole of [path] when there is none. *)
Fixpoint lastElement (path : string) : string :=
  match path with
  | EmptyString => EmptyString
  | String c r =>
      if hasSlash r then lastElement r
      else if Ascii.eqb c slash then r
      else path
  end.

(** [filepath.Base(path)] (the volume name is empty on Unix). *)
Definition filepath_Base (path : string) : string :=
  if String.eqb path "" then "."
  else
    let path := stripTrailingSlashes path in
    let path := lastElement path in
    if String.eqb path "" then "/" else path.

(** ** The Go library, as far as the indexer relies on it *)

(** What the documentation of [sort] asks of a [less] function: it is
    irreflexive and transitive, and so is "neither is less". *)
Record StrictWeakOrder {A} (less : A -> A -> bool) : Prop := {
  swo_irrefl : forall x, less x x = false;
  swo_trans : forall x y z, less x y = true -> less y z = true -> less x z = true;
  swo_incomp : forall x y z, less x y = false -> less y z = false -> less x z = false
}.

(** [SortedBy less l]: no element of [l] is [less] than an earlier one. *)
Definition SortedBy {A} (less : A -> A -> bool) : list A -> Prop :=
  StronglySorted (fun x y => less y x = false).

Class GoLib := {
  (** [sort.Slice(x, less)]: the slice afterwards. The sort is not stable
      and the order of equal elements is not specified. *)
  sort_Slice : forall {A : Type}, (A -> A -> bool) -> list A -> list A;
  sort_Slice_perm : forall A (less : A -> A -> bool) l,
    Permutation l (sort_Slice less l);
  sort_Slice_sorted : forall A (less : A -> A -> bool) l,
    StrictWeakOrder less -> SortedBy less (sort_Slice less l);
  (** [filepath.Join(elem...)]. *)
  filepath_Join : list string -> string;
  (** The order in which a [for ... range m] visits a map. *)
  map_range : forall {V : Type}, gmap string V -> list (string * V);
  map_range_perm : forall V (m : gmap string V),
    Permutation (map_range m) (map_to_list m)
}.

(** *** Two libraries

    An insertion sort that moves an element to the left while it is [less]
    than its left neighbour (the loop [sort.Slice] runs on short slices),
    and one that moves it on until the left neighbour is [less] than it,
    which puts elements that compare equal in the reverse order. *)

Fixpoint insertLeft {A} (less : A -> A -> bool) (x : A) (revPrefix : list A) : list A :=
  match revPrefix with
  | [] => [x]
  | y :: rest => if less x y then y :: insertLeft less x rest else x :: revPrefix
  end.

Definition insertionSort {A} (less : A -> A -> bool) (l : list A) : list A :=
  rev (fold_left (fun sortedRev x => insertLeft less x sortedRev) l []).

Fixpoint insertLeftPast {A} (less : A -> A -> bool) (x : A) (revPrefix : list A)
  : list A :=
  match revPrefix with
  | [] => [x]
  | y :: rest => if less y x then x :: revPrefix else y :: insertLeftPast less x rest
  end.

Definition insertionSortPast {A} (less : A -> A -> bool) (l : list A) : list A :=
  rev (fold_left (fun sortedRev x => insertLeftPast less x sortedRev) l []).

(** The elements joined by slashes; a stand-in for [filepath.Join] on names
    that need no cleaning. *)
Definition joinSlash (elems : list string) : string :=
  fold_right (fun e acc => if String.eqb acc "" then e else e +:+ "/" +:+ acc) ""
    (List.filter (fun e => negb (String.eqb e "")) elems).

(** ** The data model *)

Module SessionEntry.
Record t := mk {
  SessionID : string;
  FullPath : string;
  FileMtime : Z;
  FirstPrompt : string;
  Summary : string;
  MessageCount : Z;
  Created : Time.t;
  Modified : Time.t;
  GitBranch : string;
  ProjectPath : string;
  IsSidechain : bool
}.

(** The zero value of the struct. *)
Definition zero : t :=
  mk "" "" 0 "" "" 0 (Time.mk 0 0) (Time.mk 0 0) "" "" false.
End SessionEntry.

Module sessionsIndex.
Record t := mk { Version : Z; Entries : list SessionEntry.t }.
End sessionsIndex.

Module Project.
Record t := mk {
  Path : string;
  Name : string;
  Shortname : string;
  Org : string;
  DirName : string;
  Sessions : list SessionEntry.t;
  SessionCount : Z;
  LastModified : Time.t
}.
End Project.

Module ProjectIndexer.
Record t := mk { projectsDir : string; tasksDir : string }.
End ProjectIndexer.

Module ActiveTaskList.
Record t := mk {
  SessionID : string;
  TaskCount : Z;
  TaskDir : string;
  ProjectName : string;
  ProjectPath : string;
  Summary : string;
  FirstPrompt : string
}.
End ActiveTaskList.

Module projectInfo.
Record t := mk {
  name : string;
  path : string;
  summary : string;
  firstPrompt : string
}.

Definition zero : t := mk "" "" "" "".
End projectInfo.

Module ProjectSummary.
Record t := mk {
  Name : string;
  Path : string;
  DirName : string;
  Shortname : string;
  Org : string;
  BaseRepo : string;
  SessionCount : Z;
  LastModified : Time.t;
  LastBranch : string;
  LastSummary : string
}.

(** The assignment [s.BaseRepo = base]. *)
Definition setBaseRepo (s : t) (base : string) : t :=
  mk (Name s) (Path s) (DirName s) (Shortname s) (Org s) base
     (SessionCount s) (LastModified s) (LastBranch s) (LastSummary s).
End ProjectSummary.

Module ProjectGroup.
Record t := mk {
  BaseRepo : string;
  Org : string;
  Projects : list ProjectSummary.t;
  TotalSessions : Z;
  LastModified : Time.t
}.
End ProjectGroup.

(** ** The file system *)

Module DirEntry.
Record t := mk { Name : string; IsDir : bool }.
End DirEntry.

(** The indexer does one thing with the bytes of a file: it hands them to
    [json.Unmarshal] with a [sessionsIndex] to fill. A file is therefore kept
    as the outcome of that call. *)
Definition FileData : Type := result sessionsIndex.t.

(** [json.Unmarshal(data, &idx)]. *)
Definition json_Unmarshal (data : FileData) : result sessionsIndex.t := data.

(** What the [os] calls answer, path by path. The three laws say that the
    answers are Go values read from a directory tree: a listing and a decoded
    array are slices, and a directory holds a name once. *)
Record FileSystem := {
  os_ReadDir : string -> result (list DirEntry.t);
  os_ReadFile : string -> result FileData;
  os_Stat : string -> result unit;
  ReadDir_fits : forall name entries,
    os_ReadDir name = Ok entries -> fits entries;
  ReadDir_NoDup : forall name entries,
    os_ReadDir name = Ok entries -> NoDup (map DirEntry.Name entries);
  ReadFile_fits : forall name idx,
    os_ReadFile name = Ok (Ok idx) -> fits (sessionsIndex.Entries idx)
}.

(** ** Loading projects *)

Section Indexer.
Context `{GoLib}.
Variable fs : FileSystem.
Variable pi : ProjectIndexer.t.

(** The [less] of the sort in [loadProject]. *)
Definition lessModified (a b : SessionEntry.t) : bool :=
  Time.After (SessionEntry.Modified a) (SessionEntry.Modified b).

(** The [less] of the sort in [ListProjects]. *)
Definition lessProject (a b : Project.t) : bool :=
  Time.After (Project.LastModified a) (Project.LastModified b).

(** The loop of [extractProjectInfo] over [parts]; [i+1 < len(parts)] holds
    exactly when a part follows. *)
Fixpoint orgOfParts (parts : list string) : string :=
  match parts with
  | [] => ""
  | part :: rest =>
      match rest with
      | next :: _ => if String.eqb part "github.com" then next else orgOfParts rest
      | [] => ""
      end
  end.

Definition extractProjectInfo (path : string) : string * string * string :=
  let name := filepath_Base path in
  if String.eqb name "" || String.eqb name "." then ("", "", "")
  else
    let shortname := name in
    let parts := strings_Split path slash in
    let org := orgOfParts parts in
    (name, shortname, org).

Definition indexPathOf (dirName : string) : string :=
  filepath_Join [ProjectIndexer.projectsDir pi; dirName; "sessions-index.json"].

Definition loadProject (dirName : string) : result Project.t :=
  let indexPath := indexPathOf dirName in
  match os_ReadFile fs indexPath with
  | Err err => Err err
  | Ok data =>
      match json_Unmarshal data with
      | Err err => Err err
      | Ok idx =>
          if (len (sessionsIndex.Entries idx) =? 0)%Z then Err ErrNotExist
          else
            let entries := sort_Slice lessModified (sessionsIndex.Entries idx) in
            (* entries[0] is in range: see [loadProject_first_in_range]. *)
            let first := nth 0 entries SessionEntry.zero in
            let projectPath := SessionEntry.ProjectPath first in
            let '(name, shortname, org) := extractProjectInfo projectPath in
            let name := if String.eqb name "" then dirName else name in
            let lastModified := SessionEntry.Modified first in
            Ok (Project.mk projectPath name shortname org dirName entries
                  (len entries) lastModified)
      end
  end.

(** The body of the loop of [ListProjects]. *)
Definition appendProject (projects : list Project.t) (entry : DirEntry.t)
  : list Project.t :=
  if negb (DirEntry.IsDir entry) then projects
  else match loadProject (DirEntry.Name entry) with
       | Err _ => projects
       | Ok project => projects ++ [project]
       end.

Definition ListProjects : result (list Project.t) :=
  match os_ReadDir fs (ProjectIndexer.projectsDir pi) with
  | Err err => Err err
  | Ok entries =>
      let projects := fold_left appendProject entries [] in
      Ok (sort_Slice lessProject projects)
  end.

Definition GetProject (dirName : string) : result Project.t :=
  loadProject dirName.

(** ** Live tasks *)

Definition taskDirOf (sessionID : string) : string :=
  filepath_Join [ProjectIndexer.tasksDir pi; sessionID].

Definition isTaskFile (e : DirEntry.t) : bool :=
  strings_HasSuffix (DirEntry.Name e) ".json".

(** The loop of [HasTasks]: it returns at the first task file. *)
Fixpoint anyTaskFile (entries : list DirEntry.t) : bool :=
  match entries with
  | [] => false
  | e :: rest => if isTaskFile e then true else anyTaskFile rest
  end.

Definition HasTasks (sessionID : string) : bool :=
  let taskDir := taskDirOf sessionID in
  match os_ReadDir fs taskDir with
  | Err _ => false
  | Ok entries => anyTaskFile entries
  end.

(** The body of the loop of [GetTaskCount]: [count++] on a task file. *)
Definition countTaskFile (count : Z) (e : DirEntry.t) : Z :=
  if isTaskFile e then int_add count 1 else count.

Definition GetTaskCount (sessionID : string) : Z :=
  let taskDir := taskDirOf sessionID in
  match os_ReadDir fs taskDir with
  | Err _ => 0%Z
  | Ok entries => fold_left countTaskFile entries 0%Z
  end.

(** The backwards loop of [extractProjectName] over [parts], given here
    last part first. *)
Fixpoint lastNonEmpty (revParts : list string) : option string :=
  match revParts with
  | [] => None
  | part :: rest => if String.eqb part "" then lastNonEmpty rest else Some part
  end.

Definition extractProjectName (dirName : string) : string :=
  let parts := strings_Split dirName dash in
  match lastNonEmpty (rev parts) with
  | Some part => part
  | None => dirName
  end.

(** The inner loop of [buildSessionProjectMap]: one index entry. *)
Definition recordSession (projectName dirName : string)
    (result : gmap string projectInfo.t) (entry : SessionEntry.t)
  : gmap string projectInfo.t :=
  <[SessionEntry.SessionID entry :=
      projectInfo.mk projectName dirName (SessionEntry.Summary entry)
        (SessionEntry.FirstPrompt entry)]> result.

(** The outer loop of [buildSessionProjectMap]: one project directory. *)
Definition recordProject (result : gmap string projectInfo.t) (dir : DirEntry.t)
  : gmap string projectInfo.t :=
  if negb (DirEntry.IsDir dir) then result
  else match os_ReadFile fs (indexPathOf (DirEntry.Name dir)) with
       | Err _ => result
       | Ok data =>
           match json_Unmarshal data with
           | Err _ => result
           | Ok index =>
               let projectName := extractProjectName (DirEntry.Name dir) in
               fold_left (recordSession projectName (DirEntry.Name dir))
                 (sessionsIndex.Entries index) result
           end
       end.

Definition buildSessionProjectMap : gmap string projectInfo.t :=
  match os_ReadDir fs (ProjectIndexer.projectsDir pi) with
  | Err _ => ∅
  | Ok projectDirs => fold_left recordProject projectDirs ∅
  end.

Definition jsonlPathOf (dirName jsonlName : string) : string :=
  filepath_Join [ProjectIndexer.projectsDir pi; dirName; jsonlName].

(** The loop of [findProjectByJSONL]: the first directory that holds the
    log file. *)
Fixpoint probeJSONL (jsonlName : string) (projectDirs : list DirEntry.t)
  : projectInfo.t * bool :=
  match projectDirs with
  | [] => (projectInfo.zero, false)
  | dir :: rest =>
      if negb (DirEntry.IsDir dir) then probeJSONL jsonlName rest
      else match os_Stat fs (jsonlPathOf (DirEntry.Name dir) jsonlName) with
           | Ok _ =>
               (projectInfo.mk (extractProjectName (DirEntry.Name dir))
                  (DirEntry.Name dir) "" "", true)
           | Err _ => probeJSONL jsonlName rest
           end
  end.

Definition findProjectByJSONL (sessionID : string) : projectInfo.t * bool :=
  match os_ReadDir fs (ProjectIndexer.projectsDir pi) with
  | Err _ => (projectInfo.zero, false)
  | Ok projectDirs =>
      let jsonlName := sessionID +:+ ".jsonl" in
      probeJSONL jsonlName projectDirs
  end.

(** [active] after the four assignments from [proj]. *)
Definition withProject (active : ActiveTaskList.t) (proj : projectInfo.t)
  : ActiveTaskList.t :=
  ActiveTaskList.mk (ActiveTaskList.SessionID active)
    (ActiveTaskList.TaskCount active) (ActiveTaskList.TaskDir active)
    (projectInfo.name proj) (projectInfo.path proj)
    (projectInfo.summary proj) (projectInfo.firstPrompt proj).

(** The body of the loop of [ListActiveTaskLists]. *)
Definition appendActive (sessionToProject : gmap string projectInfo.t)
    (activeLists : list ActiveTaskList.t) (entry : DirEntry.t)
  : list ActiveTaskList.t :=
  if negb (DirEntry.IsDir entry) then activeLists
  else
    let sessionID := DirEntry.Name entry in
    let taskCount := GetTaskCount sessionID in
    if (0 <? taskCount)%Z then
      let active :=
        ActiveTaskList.mk sessionID taskCount (taskDirOf sessionID) "" "" "" "" in
      let active :=
        match sessionToProject !! sessionID with
        | Some proj => withProject active proj
        | None =>
            match findProjectByJSONL sessionID with
            | (proj, true) => withProject active proj
            | (_, false) => active
            end
        end in
      activeLists ++ [active]
    else activeLists.

Definition ListActiveTaskLists : result (list ActiveTaskList.t) :=
  match os_ReadDir fs (ProjectIndexer.tasksDir pi) with
  | Err err => Err err
  | Ok entries =>
      let sessionToProject := buildSessionProjectMap in
      Ok (fold_left (appendActive sessionToProject) entries [])
  end.

End Indexer.

(** ** Summaries, base repositories and groups *)

Section Grouping.
Context `{GoLib}.

(** The projection of [ListProjectSummaries]; [BaseRepo] is still empty. *)
Definition summaryOf (p : Project.t) : ProjectSummary.t :=
  let summary :=
    ProjectSummary.mk (Project.Name p) (Project.Path p) (Project.DirName p)
      (Project.Shortname p) (Project.Org p) ""
      (Project.SessionCount p) (Project.LastModified p) "" "" in
  match Project.Sessions p with
  | first :: _ =>
      ProjectSummary.mk (ProjectSummary.Name summary) (ProjectSummary.Path summary)
        (ProjectSummary.DirName summary) (ProjectSummary.Shortname summary)
        (ProjectSummary.Org summary) (ProjectSummary.BaseRepo summary)
        (ProjectSummary.SessionCount summary) (ProjectSummary.LastModified summary)
        (SessionEntry.GitBranch first) (SessionEntry.Summary first)
  | [] => summary
  end.

(** The first loop of [computeBaseRepos]:
    [orgRepos[s.Org] = append(orgRepos[s.Org], s.Name)]. *)
Definition collectRepo (orgRepos : gmap string (list string)) (s : ProjectSummary.t)
  : gmap string (list string) :=
  if negb (String.eqb (ProjectSummary.Org s) "") then
    <[ProjectSummary.Org s :=
        default [] (orgRepos !! ProjectSummary.Org s) ++ [ProjectSummary.Name s]]>
      orgRepos
  else orgRepos.

(** The [less] of the sort in [computeBaseRepos]: longer names first. *)
Definition lessLonger (a b : string) : bool :=
  (String.length b <? String.length a)%nat.

(** The inner loop of [computeBaseRepos], entered with [s.BaseRepo = s.Name]:
    the first candidate other than the name itself that, followed by a dash,
    starts the name. *)
Fixpoint findBase (name : string) (repos : list string) : string :=
  match repos with
  | [] => name
  | candidate :: rest =>
      if String.eqb candidate name then findBase name rest
      else if strings_HasPrefix name (candidate +:+ "-") then candidate
      else findBase name rest
  end.

(** The body of the last loop of [computeBaseRepos]. *)
Definition assignBase (orgRepos : gmap string (list string)) (s : ProjectSummary.t)
  : ProjectSummary.t :=
  if String.eqb (ProjectSummary.Org s) "" then
    ProjectSummary.setBaseRepo s (ProjectSummary.Name s)
  else
    let repos := default [] (orgRepos !! ProjectSummary.Org s) in
    ProjectSummary.setBaseRepo s (findBase (ProjectSummary.Name s) repos).

(** [orgRepos] after the first two loops of [computeBaseRepos]. The second
    loop visits the organizations in an order that Go leaves open and sorts
    the names of each: the order of the visits leaves no trace. *)
Definition sortedOrgRepos (summaries : list ProjectSummary.t)
  : gmap string (list string) :=
  let orgRepos := fold_left collectRepo summaries ∅ in
  sort_Slice lessLonger <$> orgRepos.

(** [computeBaseRepos] updates the slice in place: the slice afterwards. *)
Definition computeBaseRepos (summaries : list ProjectSummary.t)
  : list ProjectSummary.t :=
  let orgRepos := sortedOrgRepos summaries in
  map (assignBase orgRepos) summaries.

Definition ListProjectSummaries (fs : FileSystem) (pi : ProjectIndexer.t)
  : result (list ProjectSummary.t) :=
  match ListProjects fs pi with
  | Err err => Err err
  | Ok projects =>
      let summaries := map summaryOf projects in
      Ok (computeBaseRepos summaries)
  end.

Definition groupKey (s : ProjectSummary.t) : string :=
  ProjectSummary.Org s +:+ "/" +:+ ProjectSummary.BaseRepo s.

(** The body of the first loop of [ListProjectGroups]. *)
Definition addToGroup (groupMap : gmap string ProjectGroup.t) (s : ProjectSummary.t)
  : gmap string ProjectGroup.t :=
  let key := groupKey s in
  match groupMap !! key with
  | Some g =>
      <[key :=
          ProjectGroup.mk (ProjectGroup.BaseRepo g) (ProjectGroup.Org g)
            (ProjectGroup.Projects g ++ [s])
            (int_add (ProjectGroup.TotalSessions g) (ProjectSummary.SessionCount s))
            (if Time.After (ProjectSummary.LastModified s) (ProjectGroup.LastModified g)
             then ProjectSummary.LastModified s
             else ProjectGroup.LastModified g)]> groupMap
  | None =>
      <[key :=
          ProjectGroup.mk (ProjectSummary.BaseRepo s) (ProjectSummary.Org s) [s]
            (ProjectSummary.SessionCount s) (ProjectSummary.LastModified s)]> groupMap
  end.

(** The [less] of the sort of the members of a group. *)
Definition lessSummary (a b : ProjectSummary.t) : bool :=
  Time.After (ProjectSummary.LastModified a) (ProjectSummary.LastModified b).

(** The [less] of the sort of the groups. *)
Definition lessGroup (a b : ProjectGroup.t) : bool :=
  Time.After (ProjectGroup.LastModified a) (ProjectGroup.LastModified b).

(** The body of the second loop of [ListProjectGroups]: the group with its
    members sorted. *)
Definition sortMembers (g : ProjectGroup.t) : ProjectGroup.t :=
  ProjectGroup.mk (ProjectGroup.BaseRepo g) (ProjectGroup.Org g)
    (sort_Slice lessSummary (ProjectGroup.Projects g))
    (ProjectGroup.TotalSessions g) (ProjectGroup.LastModified g).

(** [ListProjectGroups] from the summaries on. *)
Definition groupSummaries (summaries : list ProjectSummary.t) : list ProjectGroup.t :=
  let groupMap := fold_left addToGroup summaries ∅ in
  let groups := map (fun kg => sortMembers (snd kg)) (map_range groupMap) in
  sort_Slice lessGroup groups.

Definition ListProjectGroups (fs : FileSystem) (pi : ProjectIndexer.t)
  : result (list ProjectGroup.t) :=
  match ListProjectSummaries fs pi with
  | Err err => Err err
  | Ok summaries => Ok (groupSummaries summaries)
  end.

End Grouping.

(** ** Looking a project up by its path *)

Section ByPath.
Context `{GoLib}.

(** The loop of [GetProjectByPath]: the first project with this path. *)
Fixpoint firstWithPath (path : string) (projects : list Project.t)
  : result Project.t :=
  match projects with
  | [] => Err ErrNotExist
  | p :: rest =>
      if String.eqb (Project.Path p) path then Ok p else firstWithPath path rest
  end.

Definition GetProjectByPath (fs : FileSystem) (pi : ProjectIndexer.t)
    (path : string) : result Project.t :=
  match ListProjects fs pi with
  | Err err => Err err
  | Ok projects => firstWithPath path projects
  end.

End ByPath.

(** ** The handlers

    A handler ends in one call that writes the response: [h.render] with a
    template and its data, [h.renderError] or [http.Error] with a message
    and a status, or the JSON encoder with a value; or it panics, which the
    server of [net/http] recovers from. [Response] records which. What a
    handler reads from the request (path values, query parameters, a header)
    is an argument of its model. A handler sees one state of the file system
    and of the task store. A nil slice and an empty slice are both the empty
    list. *)

Definition StatusNotFound : Z := 404.
Definition StatusInternalServerError : Z := 500.

Inductive Response (D : Type) : Type :=
| render (name : string) (data : D)
| renderError (msg : string) (code : Z)
| http_Error (msg : string) (code : Z)
| json_Encode (data : D)
| panic.
Arguments render {D} name data.
Arguments renderError {D} msg code.
Arguments http_Error {D} msg code.
Arguments json_Encode {D} data.
Arguments panic {D}.

(** [claudeagent.TaskListItem], a type of the agent SDK: the fields the
    handlers read. [Status] is a string type. *)
Module TaskListItem.
Record t := mk {
  ID : string;
  Subject : string;
  Description : string;
  Status : string;
  BlockedBy : list string;
  Blocks : list string
}.
End TaskListItem.

(** [claudeagent.TaskStore], an interface of the agent SDK: the two methods
    the handlers of this file call, without their context argument. A list
    of tasks is a slice. *)
Record TaskStore := {
  taskStore_List : string -> result (list TaskListItem.t);
  taskStore_Get : string -> string -> result TaskListItem.t;
  List_fits : forall listID tasks, taskStore_List listID = Ok tasks -> fits tasks
}.

Module PageData.
Record t := mk {
  Title : string;
  ListID : string;
  TaskID : string;
  Error : string;
  Message : string
}.
End PageData.

Module IndexData.
Record t := mk {
  Page : PageData.t;
  Groups : list ProjectGroup.t;
  ActiveLists : list ActiveTaskList.t;
  TotalTaskCount : Z
}.
End IndexData.

Module SessionViewEntry.
Record t := mk {
  SessionEntry : SessionEntry.t;
  TaskCount : Z;
  HasTasks : bool
}.

Definition zero : t := mk SessionEntry.zero 0 false.
End SessionViewEntry.

Module ProjectViewData.
Record t := mk {
  Page : PageData.t;
  Project : Project.t;
  Sessions : list SessionViewEntry.t;
  SessionsWithTasks : Z
}.
End ProjectViewData.

Module ListViewData.
Record t := mk {
  Page : PageData.t;
  Tasks : list TaskListItem.t;
  Filter : string;
  TotalCount : Z;
  PendingCount : Z;
  InProgressCount : Z;
  CompletedCount : Z
}.
End ListViewData.

Module TaskDetailData.
Record t := mk {
  Page : PageData.t;
  Task : TaskListItem.t;
  Blockers : list TaskListItem.t;
  Blocking : list TaskListItem.t
}.
End TaskDetailData.

Module SessionTasks.
Record t := mk {
  SessionID : string;
  ProjectName : string;
  Summary : string;
  Tasks : list TaskListItem.t
}.
End SessionTasks.

Module AllTasksData.
Record t := mk {
  Page : PageData.t;
  TasksBySession : list SessionTasks.t;
  Filter : string;
  TotalCount : Z;
  PendingCount : Z;
  InProgressCount : Z;
  CompletedCount : Z;
  ActiveCount : Z
}.
End AllTasksData.

Module GraphNode.
Record t := mk {
  ID : string;
  Label : string;
  Status : string;
  IsBlocked : bool;
  Description : string
}.
End GraphNode.

Module GraphEdge.
Record t := mk { Source : string; Target : string }.
End GraphEdge.

Module GraphData.
Record t := mk { Nodes : list GraphNode.t; Edges : list GraphEdge.t }.
End GraphData.

(** The data of [handleTasksPartial]. *)
Module TasksPartialData.
Record t := mk { Tasks : list TaskListItem.t; ListID : string }.
End TasksPartialData.

(** The data of [handleActiveSessionsPartial]. *)
Module ActiveSessionsData.
Record t := mk { ActiveLists : list ActiveTaskList.t; TotalTaskCount : Z }.
End ActiveSessionsData.

(** The data of [handleSessionsPartial]. *)
Module SessionsPartialData.
Record t := mk {
  Sessions : list SessionViewEntry.t;
  HasMore : bool;
  NextOffset : Z;
  ProjectID : string;
  TotalCount : Z
}.
End SessionsPartialData.

Module TaskCountsData.
Record t := mk {
  ListID : string;
  PendingCount : Z;
  InProgressCount : Z;
  CompletedCount : Z;
  TotalCount : Z
}.
End TaskCountsData.

(** Go's [a - b] on [int]. *)
Definition int_sub (a b : Z) : Z := int_wrap (a - b).

(** [l[i]] for an [int] index: nothing when the index is out of range, where
    Go panics. *)
Definition at_index {A} (l : list A) (i : Z) : option A :=
  if (i <? 0)%Z then None else l !! Z.to_nat i.

Section Handlers.
Context `{GoLib}.
Variable fs : FileSystem.
Variable pi : ProjectIndexer.t.
Variable taskStore : TaskStore.

(** [err.Error()]. *)
Variable error_Error : error -> string.

(** The largest capacity for which [make] grants a slice of
    [SessionViewEntry]: beyond it, as for a negative capacity, [make]
    panics. *)
Variable maxCap : Z.

(** [totalTaskCount += al.TaskCount]. *)
Definition addTaskCount (totalTaskCount : Z) (al : ActiveTaskList.t) : Z :=
  int_add totalTaskCount (ActiveTaskList.TaskCount al).

(** [activeLists, _ := h.projectIndexer.ListActiveTaskLists()]. *)
Definition activeListsOrNil : list ActiveTaskList.t :=
  match ListActiveTaskLists fs pi with
  | Ok activeLists => activeLists
  | Err _ => []
  end.

Definition handleIndex : Response IndexData.t :=
  match ListProjectGroups fs pi with
  | Err err =>
      renderError ("Failed to list projects: " +:+ error_Error err)
        StatusInternalServerError
  | Ok groups =>
      let activeLists := activeListsOrNil in
      let totalTaskCount := fold_left addTaskCount activeLists 0%Z in
      render "index.html"
        (IndexData.mk (PageData.mk "Task Viewer" "" "" "" "") groups activeLists
           totalTaskCount)
  end.

Definition handleActiveSessionsPartial : Response ActiveSessionsData.t :=
  let activeLists := activeListsOrNil in
  let totalTaskCount := fold_left addTaskCount activeLists 0%Z in
  render "active_sessions_panel.html"
    (ActiveSessionsData.mk activeLists totalTaskCount).

(** The [switch t.Status] that counts a task. *)
Definition countStatus (counts : Z * Z * Z) (t : TaskListItem.t) : Z * Z * Z :=
  let '(pendingCount, inProgressCount, completedCount) := counts in
  if String.eqb (TaskListItem.Status t) "pending" then
    (int_add pendingCount 1, inProgressCount, completedCount)
  else if String.eqb (TaskListItem.Status t) "in_progress" then
    (pendingCount, int_add inProgressCount 1, completedCount)
  else if String.eqb (TaskListItem.Status t) "completed" then
    (pendingCount, inProgressCount, int_add completedCount 1)
  else counts.

(** The [switch filter] of [handleAllTasks]. *)
Definition includeTask (filter : string) (t : TaskListItem.t) : bool :=
  let status := TaskListItem.Status t in
  if String.eqb filter "all" then true
  else if String.eqb filter "active" then
    String.eqb status "pending" || String.eqb status "in_progress"
  else if String.eqb filter "pending" then String.eqb status "pending"
  else if String.eqb filter "in_progress" then String.eqb status "in_progress"
  else if String.eqb filter "completed" then String.eqb status "completed"
  else String.eqb status "pending" || String.eqb status "in_progress".

(** The body of the first inner loop of [handleAllTasks]. *)
Definition countTask (counts : Z * (Z * Z * Z)) (t : TaskListItem.t)
  : Z * (Z * Z * Z) :=
  (int_add (fst counts) 1, countStatus (snd counts) t).

(** The body of the loop of [handleAllTasks] over the active lists; the
    state is [tasksBySession] and the four counters. *)
Definition addSessionTasks (filter : string)
    (state : list SessionTasks.t * (Z * (Z * Z * Z))) (active : ActiveTaskList.t)
  : list SessionTasks.t * (Z * (Z * Z * Z)) :=
  match taskStore_List taskStore (ActiveTaskList.SessionID active) with
  | Err _ => state
  | Ok tasks =>
      if (len tasks =? 0)%Z then state
      else
        let counts := fold_left countTask tasks (snd state) in
        let filtered := List.filter (includeTask filter) tasks in
        if (0 <? len filtered)%Z then
          let st :=
            SessionTasks.mk (ActiveTaskList.SessionID active)
              (ActiveTaskList.ProjectName active) (ActiveTaskList.Summary active)
              filtered in
          (fst state ++ [st], counts)
        else (fst state, counts)
  end.

(** [filter] is the query parameter of that name and [hxRequest] the header
    [HX-Request]. *)
Definition handleAllTasks (filter hxRequest : string) : Response AllTasksData.t :=
  let filter := if String.eqb filter "" then "active" else filter in
  match ListActiveTaskLists fs pi with
  | Err err =>
      renderError ("Failed to list active sessions: " +:+ error_Error err)
        StatusInternalServerError
  | Ok activeLists =>
      let '(tasksBySession,
            (totalCount, (pendingCount, inProgressCount, completedCount))) :=
        fold_left (addSessionTasks filter) activeLists
          ([], (0, (0, 0, 0)))%Z in
      let activeCount := int_add pendingCount inProgressCount in
      let data :=
        AllTasksData.mk (PageData.mk "All Tasks" "" "" "" "") tasksBySession
          filter totalCount pendingCount inProgressCount completedCount
          activeCount in
      if String.eqb hxRequest "true" then render "all_tasks_content.html" data
      else render "all_tasks.html" data
  end.

(** The body of the loop of [handleProjectView]; the state is [sessions] and
    [sessionsWithTasks], and [i] the index of the session [s]. *)
Definition viewSession
    (state : list SessionViewEntry.t * Z) (i : nat) (s : SessionEntry.t)
  : list SessionViewEntry.t * Z :=
  let taskCount := GetTaskCount fs pi (SessionEntry.SessionID s) in
  let hasTasks := (0 <? taskCount)%Z in
  (<[i := SessionViewEntry.mk s taskCount hasTasks]> (fst state),
   if hasTasks then int_add (snd state) 1 else snd state).

(** [for i, s := range l] with the body [step], from the index [i] on. *)
Fixpoint rangeFrom {A St} (step : St -> nat -> A -> St) (i : nat) (l : list A)
    (state : St) : St :=
  match l with
  | [] => state
  | x :: rest => rangeFrom step (S i) rest (step state i x)
  end.

Definition handleProjectView (dirName : string) : Response ProjectViewData.t :=
  match GetProject fs pi dirName with
  | Err err =>
      renderError ("Project not found: " +:+ error_Error err) StatusNotFound
  | Ok project =>
      let sessions :=
        replicate (length (Project.Sessions project)) SessionViewEntry.zero in
      let '(sessions, sessionsWithTasks) :=
        rangeFrom viewSession 0 (Project.Sessions project) (sessions, 0%Z) in
      render "project.html"
        (ProjectViewData.mk (PageData.mk (Project.Name project) dirName "" "" "")
           project sessions sessionsWithTasks)
  end.

(** The filter of [handleListView] and of [handleTasksPartial]. *)
Definition applyFilter (filter : string) (tasks : list TaskListItem.t)
  : list TaskListItem.t :=
  if negb (String.eqb filter "") then
    List.filter (fun t => String.eqb (TaskListItem.Status t) filter) tasks
  else tasks.

Definition handleListView (listID filter : string) : Response ListViewData.t :=
  match taskStore_List taskStore listID with
  | Err err =>
      renderError ("Failed to load tasks: " +:+ error_Error err)
        StatusInternalServerError
  | Ok tasks =>
      let '(pendingCount, inProgressCount, completedCount) :=
        fold_left countStatus tasks (0, 0, 0)%Z in
      let filtered := applyFilter filter tasks in
      render "tasks.html"
        (ListViewData.mk (PageData.mk ("Tasks - " +:+ listID) listID "" "" "")
           filtered filter (len tasks) pendingCount inProgressCount
           completedCount)
  end.

Definition handleTasksPartial (listID filter : string)
  : Response TasksPartialData.t :=
  match taskStore_List taskStore listID with
  | Err _ => http_Error "Failed to load tasks" StatusInternalServerError
  | Ok tasks =>
      let filtered := applyFilter filter tasks in
      render "tasks_list.html" (TasksPartialData.mk filtered listID)
  end.

Definition handleTaskCountsPartial (listID : string) : Response TaskCountsData.t :=
  match taskStore_List taskStore listID with
  | Err _ => http_Error "Failed to load tasks" StatusInternalServerError
  | Ok tasks =>
      let '(pendingCount, inProgressCount, completedCount) :=
        fold_left countStatus tasks (0, 0, 0)%Z in
      render "task_counts_oob.html"
        (TaskCountsData.mk listID pendingCount inProgressCount completedCount
           (len tasks))
  end.

(** [taskMap[t.ID] = t]. *)
Definition recordTask (taskMap : gmap string TaskListItem.t) (t : TaskListItem.t)
  : gmap string TaskListItem.t :=
  <[TaskListItem.ID t := t]> taskMap.

(** The body of the two last loops of [handleTaskDetail]. *)
Definition appendKnown (taskMap : gmap string TaskListItem.t)
    (found : list TaskListItem.t) (id : string) : list TaskListItem.t :=
  match taskMap !! id with
  | Some t => found ++ [t]
  | None => found
  end.

Definition handleTaskDetail (listID taskID : string) : Response TaskDetailData.t :=
  match taskStore_Get taskStore listID taskID with
  | Err err =>
      renderError ("Task not found: " +:+ error_Error err) StatusNotFound
  | Ok task =>
      let allTasks :=
        match taskStore_List taskStore listID with
        | Ok allTasks => allTasks
        | Err _ => []
        end in
      let taskMap := fold_left recordTask allTasks ∅ in
      let blockers :=
        fold_left (appendKnown taskMap) (TaskListItem.BlockedBy task) [] in
      let blocking :=
        fold_left (appendKnown taskMap) (TaskListItem.Blocks task) [] in
      render "task_detail.html"
        (TaskDetailData.mk
           (PageData.mk (TaskListItem.Subject task) listID taskID "" "")
           task blockers blocking)
  end.

Definition handleGraphView (listID : string) : Response PageData.t :=
  render "graph.html"
    (PageData.mk ("Dependency Graph - " +:+ listID) listID "" "" "").




Definition handleTaskPartial (listID taskID : string) : Response TaskListItem.t :=
  match taskStore_Get taskStore listID taskID with
  | Err _ => http_Error "Task not found" StatusNotFound
  | Ok task => render "task_row.html" task
  end.

(** The loop [for i := start; i < end; i++] of [handleSessionsPartial], which
    runs [count] times, [end - start] when that is positive; nothing when an
    index is out of range. *)
Fixpoint appendSessions (sessions : list SessionEntry.t) (i : Z) (count : nat)
    (page : list SessionViewEntry.t) : option (list SessionViewEntry.t) :=
  match count with
  | O => Some page
  | S count' =>
      match at_index sessions i with
      | None => None
      | Some s =>
          let taskCount := GetTaskCount fs pi (SessionEntry.SessionID s) in
          appendSessions sessions (i + 1) count'
            (page ++ [SessionViewEntry.mk s taskCount (0 <? taskCount)%Z])
      end
  end.

(** [offset] and [limit] are the two variables after the query has been
    scanned: 0 and 10 unless the query gives numbers. *)
Definition handleSessionsPartial (projectID : string) (offset limit : Z)
  : Response SessionsPartialData.t :=
  match GetProject fs pi projectID with
  | Err _ => http_Error "Project not found" StatusNotFound
  | Ok project =>
      let totalSessions := len (Project.Sessions project) in
      let start := offset in
      let start := if (totalSessions <? start)%Z then totalSessions else start in
      let end_ := int_add start limit in
      let end_ := if (totalSessions <? end_)%Z then totalSessions else end_ in
      let capacity := int_sub end_ start in
      if (capacity <? 0)%Z || (maxCap <? capacity)%Z then panic
      else
        match appendSessions (Project.Sessions project) start
                (Z.to_nat (end_ - start)) [] with
        | None => panic
        | Some sessions =>
            render "sessions_partial.html"
              (SessionsPartialData.mk sessions (end_ <? totalSessions)%Z end_
                 projectID totalSessions)
        end
  end.

(** The loop of [handleProjectGroupPartial]: the first group of that base. *)
Fixpoint findGroup (baseRepo : string) (groups : list ProjectGroup.t)
  : option ProjectGroup.t :=
  match groups with
  | [] => None
  | g :: rest =>
      if String.eqb (ProjectGroup.BaseRepo g) baseRepo then Some g
      else findGroup baseRepo rest
  end.

Definition handleProjectGroupPartial (baseRepo : string)
  : Response ProjectGroup.t :=
  match ListProjectGroups fs pi with
  | Err _ => http_Error "Failed to list projects" StatusInternalServerError
  | Ok groups =>
      match findGroup baseRepo groups with
      | None => http_Error "Project group not found" StatusNotFound
      | Some targetGroup => render "project_group_partial.html" targetGroup
      end
  end.

End Handlers.

(** ** Running instances *)

(** [strings.ReplaceAll(s, old, new)] for [old] and [new] of one byte. *)
Fixpoint strings_ReplaceAll (s : string) (old new : ascii) : string :=
  match s with
  | EmptyString => EmptyString
  | String c r =>
      String (if Ascii.eqb c old then new else c) (strings_ReplaceAll r old new)
  end.

(** [strings.Contains(s, substr)]: [substr] starts at some index of [s]. *)
Fixpoint strings_Contains (s substr : string) : bool :=
  strings_HasPrefix s substr ||
  match s with
  | EmptyString => false
  | String _ r => strings_Contains r substr
  end.

(** [strings.TrimPrefix(s, prefix)]. *)
Definition strings_TrimPrefix (s pre : string) : string :=
  if strings_HasPrefix s pre then
    substring (String.length pre) (String.length s - String.length pre) s
  else s.

(** The loop of [getProcessCWD] over the lines that the scanner yields from
    the output of [lsof]; [foundCwd] is the flag of that name. *)
Fixpoint scanCWD (foundCwd : bool) (lines : list string) : string :=
  match lines with
  | [] => ""
  | line :: rest =>
      if String.eqb line "fcwd" then scanCWD true rest
      else if foundCwd && strings_HasPrefix line "n" then
        strings_TrimPrefix line "n"
      else scanCWD foundCwd rest
  end.

Module ClaudeInstance.
Record t := mk {
  PID : Z;
  WorkingDir : string;
  SessionID : string;
  ProjectName : string;
  StartTime : Time.t;
  Uptime : string;
  HasTasks : bool;
  TaskCount : Z
}.
End ClaudeInstance.

(** The indexer of a tracker is a pointer, which may be nil. *)
Module InstanceTracker.
Record t := mk { projectIndexer : option ProjectIndexer.t }.
End InstanceTracker.

(** The loop of [enrichInstance]: the first active list of a known project
    whose name occurs in the working directory. *)
Fixpoint matchActive (workingDir : string) (activeLists : list ActiveTaskList.t)
  : option ActiveTaskList.t :=
  match activeLists with
  | [] => None
  | active :: rest =>
      if negb (String.eqb (ActiveTaskList.ProjectPath active) "") &&
         strings_Contains workingDir (ActiveTaskList.ProjectName active)
      then Some active
      else matchActive workingDir rest
  end.

(** [enrichInstance] updates the instance in place: the instance
    afterwards. *)
Definition enrichInstance `{GoLib} (fs : FileSystem) (it : InstanceTracker.t)
    (instance : ClaudeInstance.t) : ClaudeInstance.t :=
  match InstanceTracker.projectIndexer it with
  | None => instance
  | Some projectIndexer =>
      if String.eqb (ClaudeInstance.WorkingDir instance) "" then instance
      else
        let projectName :=
          extractProjectName
            (strings_ReplaceAll (ClaudeInstance.WorkingDir instance) slash dash) in
        let instance :=
          ClaudeInstance.mk (ClaudeInstance.PID instance)
            (ClaudeInstance.WorkingDir instance) (ClaudeInstance.SessionID instance)
            projectName (ClaudeInstance.StartTime instance)
            (ClaudeInstance.Uptime instance) (ClaudeInstance.HasTasks instance)
            (ClaudeInstance.TaskCount instance) in
        match ListActiveTaskLists fs projectIndexer with
        | Err _ => instance
        | Ok activeLists =>
            match matchActive (ClaudeInstance.WorkingDir instance) activeLists with
            | None => instance
            | Some active =>
                ClaudeInstance.mk (ClaudeInstance.PID instance)
                  (ClaudeInstance.WorkingDir instance)
                  (ActiveTaskList.SessionID active)
                  (ClaudeInstance.ProjectName instance)
                  (ClaudeInstance.StartTime instance)
                  (ClaudeInstance.Uptime instance)
                  (0 <? ActiveTaskList.TaskCount active)%Z
                  (ActiveTaskList.TaskCount active)
            end
        end
  end.

(** ** Template functions and the registry of event streams *)

(** The template functions [truncate] and [truncateID], which have one
    body; nothing when the slice expression [s[:n]] panics. *)
Definition truncate (s : string) (n : Z) : option string :=
  if (Z.of_nat (String.length s) <=? n)%Z then Some s
  else if (n <? 0)%Z then None
  else Some (substring 0 (Z.to_nat n) s +:+ "...").

(** A channel, by its identity. *)
Definition chan : Type := nat.

(** [addSSEClient]: the map [h.sseClients] afterwards. The mutex makes the
    body one step. *)
Definition addSSEClient (sseClients : gmap string (list chan)) (listID : string)
    (ch : chan) : gmap string (list chan) :=
  <[listID := default [] (sseClients !! listID) ++ [ch]]> sseClients.

(** The loop of [removeSSEClient]: [append(clients[:i], clients[i+1:]...)]
    for the first index [i] that holds [ch], if there is one. *)
Fixpoint removeClient (clients : list chan) (ch : chan) : option (list chan) :=
  match clients with
  | [] => None
  | c :: rest =>
      if Nat.eqb c ch then Some rest
      else match removeClient rest ch with
           | Some rest' => Some (c :: rest')
           | None => None
           end
  end.

Definition removeSSEClient (sseClients : gmap string (list chan))
    (listID : string) (ch : chan) : gmap string (list chan) :=
  let clients := default [] (sseClients !! listID) in
  match removeClient clients ch with
  | Some clients' => <[listID := clients']> sseClients
  | None => sseClients
  end.

(** * The vocabulary of the specification *)

(** [NonIncreasing key l]: along [l], the [key] never goes up. *)
Definition NonIncreasing {A} (key : A -> Z) (l : list A) : Prop :=
  forall i j x y, i <= j -> l !! i = Some x -> l !! j = Some y ->
    (key y <= key x)%Z.

(** [RecencyOrdered p]: the sessions of [p] are in non-increasing order of
    [Modified], and [LastModified] is the [Modified] of the first of them,
    which no session exceeds. *)
Definition RecencyOrdered (p : Project.t) : Prop :=
  NonIncreasing (fun s => Time.unixNano (SessionEntry.Modified s))
    (Project.Sessions p) /\
  (exists first, Project.Sessions p !! 0 = Some first /\
     Project.LastModified p = SessionEntry.Modified first) /\
  (forall s, In s (Project.Sessions p) ->
     (Time.unixNano (SessionEntry.Modified s)
      <= Time.unixNano (Project.LastModified p))%Z).

(** The final component of a path, in the words of the specification: the
    last piece between slashes that is not empty, if there is one. *)
Definition finalComponent (path : string) : option string :=
  lastNonEmpty (rev (strings_Split path slash)).

(** [OrgOf parts org]: [org] is the part right after the first part equal to
    [github.com]; it is empty when no part is [github.com], or only the
    last one. *)
Definition OrgOf (parts : list string) (org : string) : Prop :=
  (exists i, parts !! i = Some "github.com" /\
             (forall j, j < i -> parts !! j <> Some "github.com") /\
             parts !! S i = Some org) \/
  ((forall i, parts !! i = Some "github.com" -> parts !! S i = None) /\
   org = "").

Section Vocabulary.
Context `{GoLib}.
Variable fs : FileSystem.
Variable pi : ProjectIndexer.t.

(** The projects [ListProjects] collects before it sorts them. *)
Definition loadedFrom (entry : DirEntry.t) : list Project.t :=
  if negb (DirEntry.IsDir entry) then []
  else match loadProject fs pi (DirEntry.Name entry) with
       | Ok project => [project]
       | Err _ => []
       end.

(** The session's directory under the tasks directory can be read and holds
    a task file. *)
Definition holdsTaskFile (sessionID : string) : Prop :=
  exists listing file,
    os_ReadDir fs (taskDirOf pi sessionID) = Ok listing /\
    In file listing /\ isTaskFile file = true.

(** The session is an entry of the index of some project directory. *)
Definition inSomeIndex (sessionID : string) : Prop :=
  exists projectDirs dir idx entry,
    os_ReadDir fs (ProjectIndexer.projectsDir pi) = Ok projectDirs /\
    In dir projectDirs /\ DirEntry.IsDir dir = true /\
    os_ReadFile fs (indexPathOf pi (DirEntry.Name dir)) = Ok (Ok idx) /\
    In entry (sessionsIndex.Entries idx) /\
    SessionEntry.SessionID entry = sessionID.

(** Some project directory holds the log file of the session. *)
Definition hasLogFile (sessionID : string) : Prop :=
  exists projectDirs dir,
    os_ReadDir fs (ProjectIndexer.projectsDir pi) = Ok projectDirs /\
    In dir projectDirs /\ DirEntry.IsDir dir = true /\
    os_Stat fs (jsonlPathOf pi (DirEntry.Name dir) (sessionID +:+ ".jsonl"))
      = Ok tt.

(** What one directory of the tasks directory adds to the result. *)
Definition activeFrom (sessionToProject : gmap string projectInfo.t)
    (entry : DirEntry.t) : list ActiveTaskList.t :=
  appendActive fs pi sessionToProject [] entry.

(** The directories of the tasks directory that give an entry. *)
Definition isLive (entry : DirEntry.t) : bool :=
  DirEntry.IsDir entry && (0 <? GetTaskCount fs pi (DirEntry.Name entry))%Z.

End Vocabulary.

(** The four fields of project context are blank. *)
Definition blankContext (a : ActiveTaskList.t) : Prop :=
  ActiveTaskList.ProjectName a = "" /\ ActiveTaskList.ProjectPath a = "" /\
  ActiveTaskList.Summary a = "" /\ ActiveTaskList.FirstPrompt a = "".

(** The names of the projects of [org], in the order of the summaries. *)
Definition siblings (org : string) (summaries : list ProjectSummary.t)
  : list string :=
  map ProjectSummary.Name
    (List.filter (fun s => String.eqb (ProjectSummary.Org s) org) summaries).

(** The test of the inner loop of [computeBaseRepos] on a candidate. *)
Definition isBaseOf (name candidate : string) : bool :=
  negb (String.eqb candidate name) &&
  strings_HasPrefix name (candidate +:+ "-").

(** [WorktreeOf name c]: [c] is another name, and [name] is [c], a dash and
    a suffix, which may be empty. *)
Definition WorktreeOf (name c : string) : Prop :=
  c <> name /\ exists suffix, name = c +:+ "-" +:+ suffix.

(** The same with the suffix that the specification asks for: not empty. *)
Definition WorktreeOfStrict (name c : string) : Prop :=
  c <> name /\ exists suffix, suffix <> "" /\ name = c +:+ "-" +:+ suffix.

(** [FirstSuch P l x]: scanning [l] from its head, [x] is the first element
    that satisfies [P]. *)
Definition FirstSuch {A} (P : A -> Prop) (l : list A) (x : A) : Prop :=
  exists before after,
    l = before ++ x :: after /\ P x /\ forall y, In y before -> ~ P y.

(** The base that a scan of [candidates] gives to [name], for a notion
    [Worktree] of what a match is. *)
Definition ScanGives (Worktree : string -> string -> Prop)
    (candidates : list string) (name base : string) : Prop :=
  FirstSuch (Worktree name) candidates base \/
  (base = name /\ forall c, In c candidates -> ~ Worktree name c).

(** A summary as [ListProjectSummaries] builds them: no slash in the
    organization, and a session count that is the length of a slice. *)
Definition wellFormed (s : ProjectSummary.t) : Prop :=
  hasSlash (ProjectSummary.Org s) = false /\
  (0 <= ProjectSummary.SessionCount s <= MaxInt)%Z.

(** The sum of the session counts of the members of a group, in [Z]. *)
Definition sumSessions (members : list ProjectSummary.t) : Z :=
  fold_right (fun s total => (ProjectSummary.SessionCount s + total)%Z) 0%Z
    members.

(** The summaries whose group key is [key], in the order of the summaries. *)
Definition membersOf (key : string) (summaries : list ProjectSummary.t)
  : list ProjectSummary.t :=
  List.filter (fun s => String.eqb (groupKey s) key) summaries.

(** The group that the first loop of [ListProjectGroups] holds under [key]
    once it has met the members [ms]. *)
Record GroupOf (key : string) (ms : list ProjectSummary.t) (g : ProjectGroup.t)
  : Prop := {
  group_projects : ProjectGroup.Projects g = ms;
  group_key : key = ProjectGroup.Org g +:+ "/" +:+ ProjectGroup.BaseRepo g;
  group_org : hasSlash (ProjectGroup.Org g) = false;
  group_total : ProjectGroup.TotalSessions g = int_wrap (sumSessions ms);
  group_last_in : exists s,
    In s ms /\ ProjectGroup.LastModified g = ProjectSummary.LastModified s;
  group_last_max : forall s, In s ms ->
    (Time.unixNano (ProjectSummary.LastModified s)
     <= Time.unixNano (ProjectGroup.LastModified g))%Z
}.

(** What a group must satisfy: its members carry its organization and base,
    its [TotalSessions] is the sum of their session counts in [int]
    arithmetic (the sum itself when that is an [int]), its [LastModified] is
    the latest of theirs, and they come most recent first. *)
Definition GroupInvariant (g : ProjectGroup.t) : Prop :=
  (forall s, In s (ProjectGroup.Projects g) ->
     ProjectSummary.Org s = ProjectGroup.Org g /\
     ProjectSummary.BaseRepo s = ProjectGroup.BaseRepo g) /\
  ProjectGroup.TotalSessions g = int_wrap (sumSessions (ProjectGroup.Projects g)) /\
  ((sumSessions (ProjectGroup.Projects g) <= MaxInt)%Z ->
     ProjectGroup.TotalSessions g = sumSessions (ProjectGroup.Projects g)) /\
  (exists s, In s (ProjectGroup.Projects g) /\
     ProjectGroup.LastModified g = ProjectSummary.LastModified s) /\
  (forall s, In s (ProjectGroup.Projects g) ->
     (Time.unixNano (ProjectSummary.LastModified s)
      <= Time.unixNano (ProjectGroup.LastModified g))%Z) /\
  NonIncreasing (fun s => Time.unixNano (ProjectSummary.LastModified s))
    (ProjectGroup.Projects g).

(** [Grouping summaries groups]: the groups hold every summary once, no two
    groups have the same organization and base, the groups come most recent
    first, and each satisfies [GroupInvariant]. *)
Definition Grouping (summaries : list ProjectSummary.t)
    (groups : list ProjectGroup.t) : Prop :=
  Permutation (flat_map ProjectGroup.Projects groups) summaries /\
  NoDup (map (fun g => (ProjectGroup.Org g, ProjectGroup.BaseRepo g)) groups) /\
  NonIncreasing (fun g => Time.unixNano (ProjectGroup.LastModified g)) groups /\
  forall g, In g groups -> GroupInvariant g.

(** ** The vocabulary of the further properties *)

(** [onlyDashes s]: every byte of [s] is a dash. *)
Fixpoint onlyDashes (s : string) : bool :=
  match s with
  | EmptyString => true
  | String c r => Ascii.eqb c dash && onlyDashes r
  end.

Fixpoint hasDash (s : string) : bool :=
  match s with
  | EmptyString => false
  | String c r => Ascii.eqb c dash || hasDash r
  end.

(** The index of the directory [dir] of the projects directory can be read,
    decodes, and holds [entry] for the session. *)
Definition indexHolds `{GoLib} (fs : FileSystem) (pi : ProjectIndexer.t)
    (dir : DirEntry.t) (sessionID : string) (entry : SessionEntry.t) : Prop :=
  DirEntry.IsDir dir = true /\
  exists idx,
    os_ReadFile fs (indexPathOf pi (DirEntry.Name dir)) = Ok (Ok idx) /\
    In entry (sessionsIndex.Entries idx) /\
    SessionEntry.SessionID entry = sessionID.

(** The directory [dir] of the projects directory holds the log file of the
    session. *)
Definition logFileIn `{GoLib} (fs : FileSystem) (pi : ProjectIndexer.t)
    (dir : DirEntry.t) (sessionID : string) : Prop :=
  DirEntry.IsDir dir = true /\
  os_Stat fs (jsonlPathOf pi (DirEntry.Name dir) (sessionID +:+ ".jsonl")) = Ok tt.

(** What [buildSessionProjectMap] records for an entry of the index of a
    directory. *)
Definition infoOf (dir : DirEntry.t) (entry : SessionEntry.t) : projectInfo.t :=
  projectInfo.mk (extractProjectName (DirEntry.Name dir)) (DirEntry.Name dir)
    (SessionEntry.Summary entry) (SessionEntry.FirstPrompt entry).

(** The four fields of project context of an entry of the active lists. *)
Definition contextOf (a : ActiveTaskList.t) : projectInfo.t :=
  projectInfo.mk (ActiveTaskList.ProjectName a) (ActiveTaskList.ProjectPath a)
    (ActiveTaskList.Summary a) (ActiveTaskList.FirstPrompt a).

(** The sum of the counts of task files over the directories of a listing
    of the tasks directory. *)
Definition sumTaskCounts `{GoLib} (fs : FileSystem) (pi : ProjectIndexer.t)
    (entries : list DirEntry.t) : Z :=
  fold_right
    (fun entry total =>
       if DirEntry.IsDir entry
       then (GetTaskCount fs pi (DirEntry.Name entry) + total)%Z
       else total)
    0%Z entries.

(** What the dashboard shows of the tasks directory: the active lists and
    the total of their counts. *)
Definition activeTotals `{GoLib} (fs : FileSystem) (pi : ProjectIndexer.t)
    (activeLists : list ActiveTaskList.t) (totalTaskCount : Z) : Prop :=
  match os_ReadDir fs (ProjectIndexer.tasksDir pi) with
  | Err _ => activeLists = [] /\ totalTaskCount = 0%Z
  | Ok entries =>
      ListActiveTaskLists fs pi = Ok activeLists /\
      totalTaskCount = int_wrap (sumTaskCounts fs pi entries) /\
      ((sumTaskCounts fs pi entries <= MaxInt)%Z ->
       totalTaskCount = sumTaskCounts fs pi entries /\
       (len activeLists <= totalTaskCount)%Z)
  end.

(** A session with its count of task files, as the views show it. *)
Definition viewEntry `{GoLib} (fs : FileSystem) (pi : ProjectIndexer.t)
    (s : SessionEntry.t) : SessionViewEntry.t :=
  SessionViewEntry.mk s (GetTaskCount fs pi (SessionEntry.SessionID s))
    (0 <? GetTaskCount fs pi (SessionEntry.SessionID s))%Z.

(** The tasks of a status, in the order of the list. *)
Definition withStatus (status : string) (tasks : list TaskListItem.t)
  : list TaskListItem.t :=
  List.filter (fun t => String.eqb (TaskListItem.Status t) status) tasks.

(** The tasks of the active lists that the task store can list, one list
    after the other. *)
Definition loadedTasks (taskStore : TaskStore) (activeLists : list ActiveTaskList.t)
  : list TaskListItem.t :=
  flat_map
    (fun active =>
       match taskStore_List taskStore (ActiveTaskList.SessionID active) with
       | Ok tasks => tasks
       | Err _ => []
       end)
    activeLists.

(** [ShownFrom taskStore filter active st]: [st] shows the tasks of the
    active list that pass the filter, and there is one at least. *)
Definition ShownFrom (taskStore : TaskStore) (filter : string)
    (active : ActiveTaskList.t) (st : SessionTasks.t) : Prop :=
  exists tasks,
    taskStore_List taskStore (ActiveTaskList.SessionID active) = Ok tasks /\
    SessionTasks.SessionID st = ActiveTaskList.SessionID active /\
    SessionTasks.ProjectName st = ActiveTaskList.ProjectName active /\
    SessionTasks.Summary st = ActiveTaskList.Summary active /\
    SessionTasks.Tasks st = List.filter (includeTask filter) tasks /\
    SessionTasks.Tasks st <> [].

(** [LastWithID allTasks t]: [t] is the last task of the list with its
    [ID]. *)
Definition LastWithID (allTasks : list TaskListItem.t) (t : TaskListItem.t)
  : Prop :=
  exists before after,
    allTasks = before ++ t :: after /\
    forall u, In u after -> TaskListItem.ID u <> TaskListItem.ID t.

(** [Resolved allTasks ids found]: [found] holds, for the ids that some task
    of the list carries and in their order, the last task of that id. *)
Definition Resolved (allTasks : list TaskListItem.t) (ids : list string)
    (found : list TaskListItem.t) : Prop :=
  map TaskListItem.ID found
  = List.filter
      (fun id => existsb (String.eqb id) (map TaskListItem.ID allTasks)) ids /\
  forall t, In t found -> LastWithID allTasks t.

(** What an active list adds to the sessions of the view of all tasks. *)
Definition shownSession (taskStore : TaskStore) (filter : string)
    (active : ActiveTaskList.t) : list SessionTasks.t :=
  match taskStore_List taskStore (ActiveTaskList.SessionID active) with
  | Ok tasks =>
      match List.filter (includeTask filter) tasks with
      | [] => []
      | filtered =>
          [SessionTasks.mk (ActiveTaskList.SessionID active)
             (ActiveTaskList.ProjectName active) (ActiveTaskList.Summary active)
             filtered]
      end
  | Err _ => []
  end.

(** The test of the loop of [enrichInstance] on an active list. *)
Definition matchesDir (workingDir : string) (active : ActiveTaskList.t) : Prop :=
  ActiveTaskList.ProjectPath active <> "" /\
  strings_Contains workingDir (ActiveTaskList.ProjectName active) = true.

(** The clients registered for a list. *)
Definition clientsOf (sseClients : gmap string (list chan)) (listID : string)
  : list chan :=
  default [] (sseClients !! listID).

(** ** Sample data

    Summaries and a directory tree, given by tables, to run the code on. *)

(** A summary with a name and an organization, the other fields zero. *)
Definition summaryNamed (name org : string) : ProjectSummary.t :=
  ProjectSummary.mk name "" "" "" org "" 0 (Time.mk 0 0) "" "".

(** The example of the specification and of the comment above
    [computeBaseRepos]: a repository, a second repository whose name extends
    the first, a worktree of the second, and an unrelated one. *)
Definition clientRepos : list ProjectSummary.t :=
  [summaryNamed "repo" "lightninglabs";
   summaryNamed "repo-client" "lightninglabs";
   summaryNamed "repo-client-wt" "lightninglabs";
   summaryNamed "other" "lightninglabs"].

(** Four projects of one organization whose names tie in length two by
    two. *)
Definition tiedRepos : list ProjectSummary.t :=
  [summaryNamed "ab" "lightninglabs"; summaryNamed "cd-y" "lightninglabs";
   summaryNamed "cd" "lightninglabs"; summaryNamed "ab-x" "lightninglabs"].

(** Two projects, the name of the second being the first and a dash. *)
Definition dashRepos : list ProjectSummary.t :=
  [summaryNamed "repo" "lightninglabs"; summaryNamed "repo-" "lightninglabs"].

(** The row of a table for a path, if it has one. *)
Definition lookupPath {A} (table : list (string * A)) (name : string) : option A :=
  match List.find (fun row => String.eqb (fst row) name) table with
  | Some row => Some (snd row)
  | None => None
  end.

(** A listing that satisfies the laws of [FileSystem]. *)
Definition goodListing (entries : list DirEntry.t) : bool :=
  fitsb entries && bool_decide (NoDup (map DirEntry.Name entries)).

(** A file that satisfies the law of [FileSystem]. *)
Definition goodFile (data : FileData) : bool :=
  match data with
  | Ok idx => fitsb (sessionsIndex.Entries idx)
  | Err _ => true
  end.

(** The [os] calls of a file system given by three tables: the directories
    with their listings, the files with their contents, and the paths of the
    other files that exist. A path in no table gives [ENOENT]. *)
Definition tableReadDir (dirs : list (string * list DirEntry.t)) (name : string)
  : result (list DirEntry.t) :=
  match lookupPath dirs name with
  | Some entries => Ok entries
  | None => Err (PathError ENOENT)
  end.

Definition tableReadFile (files : list (string * FileData)) (name : string)
  : result FileData :=
  match lookupPath files name with
  | Some data => Ok data
  | None => Err (PathError ENOENT)
  end.

Definition tableStat (logs : list string) (name : string) : result unit :=
  if existsb (String.eqb name) logs then Ok tt else Err (PathError ENOENT).

(** An indexer over the directory [/c]. *)
Definition sampleIndexer : ProjectIndexer.t :=
  ProjectIndexer.mk "/c/projects" "/c/tasks".

(** A session with an id, the path of its project, and the instant of its
    last change. *)
Definition sessionAt (id path : string) (modified : Z) : SessionEntry.t :=
  SessionEntry.mk id "" 0 "first prompt" "summary" 1 (Time.mk 0 0)
    (Time.mk modified 0) "main" path false.

(** Five directories under the projects directory, of which one has an empty
    index and one has none, and three sessions under the tasks directory, of
    which [s9] is in no index and [s2] has no task file. *)
Definition sampleDirs : list (string * list DirEntry.t) :=
  [("/c/projects",
    [DirEntry.mk "-src-github-com-o-repo" true;
     DirEntry.mk "-src-github-com-o-repo-wt" true;
     DirEntry.mk "-empty" true;
     DirEntry.mk "-stale" true;
     DirEntry.mk "-tmp-scratch" true;
     DirEntry.mk "notes.txt" false]);
   ("/c/tasks",
    [DirEntry.mk "s1" true; DirEntry.mk "s9" true; DirEntry.mk "s2" true;
     DirEntry.mk ".DS_Store" false]);
   ("/c/tasks/s1",
    [DirEntry.mk "1.json" false; DirEntry.mk "2.json" false;
     DirEntry.mk ".lock" false]);
   ("/c/tasks/s9", [DirEntry.mk ".lock" false; DirEntry.mk "1.json" false]);
   ("/c/tasks/s2", [DirEntry.mk ".lock" false])].

Definition sampleFiles : list (string * FileData) :=
  [("/c/projects/-src-github-com-o-repo/sessions-index.json",
    Ok (sessionsIndex.mk 1
          [sessionAt "s1" "/src/github.com/o/repo" 10;
           sessionAt "s2" "/src/github.com/o/repo" 30]));
   ("/c/projects/-src-github-com-o-repo-wt/sessions-index.json",
    Ok (sessionsIndex.mk 1 [sessionAt "s3" "/src/github.com/o/repo-wt" 20]));
   ("/c/projects/-empty/sessions-index.json", Ok (sessionsIndex.mk 1 []));
   ("/c/projects/-tmp-scratch/sessions-index.json",
    Ok (sessionsIndex.mk 1
          [sessionAt "s4" "/tmp/scratch" 25; sessionAt "s5" "/tmp/scratch" 25]))].

(** * Properties *)

(** ** Strings *)

Lemma append_nil (b : string) : "" +:+ b = b.
Proof. reflexivity. Qed.

Lemma append_cons (c : ascii) (a b : string) :
  String c a +:+ b = String c (a +:+ b).
Proof. reflexivity. Qed.

Ltac simpl_append := rewrite ?append_cons, ?append_nil in *; simpl in *.

Lemma length_append (a b : string) :
  String.length (a +:+ b) = String.length a + String.length b.
Proof. induction a as [|c a IH]; simpl_append; [reflexivity | now f_equal]. Qed.

Lemma append_assoc (a b c : string) : (a +:+ b) +:+ c = a +:+ (b +:+ c).
Proof. induction a as [|x a IH]; simpl_append; [reflexivity | now f_equal]. Qed.

(** Two prefixes of equal length of one string are equal. *)
Lemma append_inj_length (a b c d : string) :
  String.length a = String.length c -> a +:+ b = c +:+ d -> a = c.
Proof.
  revert c. induction a as [|x a IH]; intros [|y c] Hlen Heq;
    simpl_append; try discriminate; [reflexivity|].
  injection Heq as -> Heq. f_equal. apply IH; [lia | assumption].
Qed.

Lemma HasPrefix_spec (s pre : string) :
  strings_HasPrefix s pre = true <-> exists suffix, s = pre +:+ suffix.
Proof.
  unfold strings_HasPrefix. revert s.
  induction pre as [|c pre IH]; intros s.
  - destruct s; simpl; split; eauto.
  - destruct s as [|d s]; simpl.
    + split; [discriminate | intros [suffix Hs]; discriminate].
    + destruct (ascii_dec c d) as [->|Hne].
      * rewrite IH. split; intros [suffix Hs]; exists suffix;
          simpl_append; congruence.
      * split; [discriminate | intros [suffix Hs]; simpl_append; congruence].
Qed.

Lemma substring_all (s : string) : substring 0 (String.length s) s = s.
Proof. induction s as [|c s IH]; simpl; [reflexivity | now f_equal]. Qed.

Lemma substring_append_r (a b : string) :
  substring (String.length a) (String.length b) (a +:+ b) = b.
Proof. induction a as [|c a IH]; simpl_append; [apply substring_all | apply IH]. Qed.

Lemma substring_split (s : string) (k : nat) :
  k <= String.length s ->
  s = substring 0 k s +:+ substring k (String.length s - k) s.
Proof.
  revert k. induction s as [|c s IH]; intros [|k] Hk; simpl in *; try lia.
  - reflexivity.
  - rewrite append_nil. now rewrite substring_all.
  - rewrite append_cons. f_equal. apply IH. lia.
Qed.

Lemma HasSuffix_spec (s suffix : string) :
  strings_HasSuffix s suffix = true <-> exists stem, s = stem +:+ suffix.
Proof.
  unfold strings_HasSuffix. rewrite andb_true_iff, Nat.leb_le, String.eqb_eq.
  split.
  - intros [Hlen Hsub].
    exists (substring 0 (String.length s - String.length suffix) s).
    pose proof (substring_split s (String.length s - String.length suffix)) as Hsplit.
    replace (String.length s - (String.length s - String.length suffix))
      with (String.length suffix) in Hsplit by lia.
    rewrite Hsub in Hsplit. apply Hsplit. lia.
  - intros [stem ->]. rewrite length_append. split; [lia|].
    replace (String.length stem + String.length suffix - String.length suffix)
      with (String.length stem) by lia.
    apply substring_append_r.
Qed.

(** ** Machine integers *)

Lemma int_wrap_small (z : Z) :
  (- 2 ^ 63 <= z <= MaxInt)%Z -> int_wrap z = z.
Proof.
  unfold int_wrap, MaxInt. intros Hz.
  rewrite Z.mod_small; lia.
Qed.

Lemma int_wrap_add (a b : Z) : int_wrap (int_wrap a + b) = int_wrap (a + b).
Proof.
  unfold int_wrap.
  replace ((a + 2 ^ 63) mod 2 ^ 64 - 2 ^ 63 + b + 2 ^ 63)%Z
    with ((a + 2 ^ 63) mod 2 ^ 64 + b)%Z by lia.
  rewrite Zplus_mod_idemp_l. do 2 f_equal. lia.
Qed.

Lemma len_nonneg {A} (l : list A) : (0 <= len l)%Z.
Proof. unfold len. lia. Qed.

Lemma len_app {A} (l k : list A) : len (l ++ k) = (len l + len k)%Z.
Proof. unfold len. rewrite length_app. lia. Qed.

Lemma fitsb_fits {A} (l : list A) : fitsb l = true -> fits l.
Proof. unfold fitsb, fits. apply Z.leb_le. Qed.

(** ** Sorting *)

Lemma After_StrictWeakOrder {A} (key : A -> Time.t) :
  StrictWeakOrder (fun a b => Time.After (key a) (key b)).
Proof.
  unfold Time.After. split; intros; rewrite ?Z.ltb_lt, ?Z.ltb_ge in *; lia.
Qed.

Lemma lessLonger_StrictWeakOrder : StrictWeakOrder lessLonger.
Proof.
  unfold lessLonger. split; intros; rewrite ?Nat.ltb_lt, ?Nat.ltb_ge in *; lia.
Qed.

Lemma swo_asym {A} (less : A -> A -> bool) :
  StrictWeakOrder less -> forall x y, less x y = true -> less y x = false.
Proof.
  intros Hswo x y Hxy. destruct (less y x) eqn:Hyx; [|reflexivity].
  rewrite <- (swo_irrefl less Hswo x). symmetry.
  exact (swo_trans less Hswo x y x Hxy Hyx).
Qed.

Lemma rev_sorted {A} (less : A -> A -> bool) (l : list A) :
  StronglySorted (fun a b => less a b = false) l -> SortedBy less (rev l).
Proof.
  unfold SortedBy. induction l as [|a l IH]; intros Hl; simpl; [constructor|].
  apply StronglySorted_inv in Hl as [Hl Ha].
  apply StronglySorted_app_2; [|now apply IH|repeat constructor].
  intros x1 x2 Hx1 Hx2. apply list_elem_of_In in Hx1, Hx2.
  destruct Hx2 as [<-|[]]. apply in_rev in Hx1.
  rewrite Forall_forall in Ha. apply Ha. now apply list_elem_of_In.
Qed.

(** An insertion sort is a permutation, and sorts, as soon as each
    insertion does. *)
Lemma insertion_loop_perm {A} (insert : A -> list A -> list A) (l : list A) :
  (forall x k, Permutation (x :: k) (insert x k)) ->
  Permutation l (rev (fold_left (fun sortedRev x => insert x sortedRev) l [])).
Proof.
  intros Hinsert. rewrite <- Permutation_rev.
  enough (Hgen : forall acc,
    Permutation (acc ++ l)
      (fold_left (fun sortedRev x => insert x sortedRev) l acc))
    by exact (Hgen []).
  induction l as [|x l IH]; intros acc; simpl.
  - now rewrite app_nil_r.
  - rewrite <- IH, <- Hinsert. simpl.
    first [apply Permutation_middle | symmetry; apply Permutation_middle].
Qed.

Lemma insertion_loop_sorted {A} (less : A -> A -> bool)
    (insert : A -> list A -> list A) (l : list A) :
  (forall x k, StronglySorted (fun a b => less a b = false) k ->
               StronglySorted (fun a b => less a b = false) (insert x k)) ->
  SortedBy less (rev (fold_left (fun sortedRev x => insert x sortedRev) l [])).
Proof.
  intros Hinsert. apply rev_sorted.
  enough (Hgen : forall acc,
    StronglySorted (fun a b => less a b = false) acc ->
    StronglySorted (fun a b => less a b = false)
      (fold_left (fun sortedRev x => insert x sortedRev) l acc))
    by (apply Hgen; constructor).
  induction l as [|x l IH]; intros acc Hacc; simpl; [assumption|].
  apply IH. now apply Hinsert.
Qed.

Lemma insertLeft_perm {A} (less : A -> A -> bool) x l :
  Permutation (x :: l) (insertLeft less x l).
Proof.
  induction l as [|y l IH]; simpl; [reflexivity|].
  destruct (less x y); [|reflexivity].
  rewrite perm_swap. now apply perm_skip.
Qed.

Lemma insertLeft_sorted {A} (less : A -> A -> bool) x l :
  StrictWeakOrder less ->
  StronglySorted (fun a b => less a b = false) l ->
  StronglySorted (fun a b => less a b = false) (insertLeft less x l).
Proof.
  intros Hswo. induction l as [|y l IH]; intros Hl; simpl.
  - repeat constructor.
  - apply StronglySorted_inv in Hl as [Hl Hy].
    destruct (less x y) eqn:Hxy.
    + constructor; [now apply IH|].
      rewrite <- insertLeft_perm. constructor; [|assumption].
      now apply swo_asym.
    + constructor; [now constructor|].
      constructor; [assumption|].
      eapply Forall_impl; [exact Hy|].
      intros z Hyz. exact (swo_incomp less Hswo x y z Hxy Hyz).
Qed.

Lemma insertLeftPast_perm {A} (less : A -> A -> bool) x l :
  Permutation (x :: l) (insertLeftPast less x l).
Proof.
  induction l as [|y l IH]; simpl; [reflexivity|].
  destruct (less y x); [reflexivity|].
  rewrite perm_swap. now apply perm_skip.
Qed.

Lemma insertLeftPast_sorted {A} (less : A -> A -> bool) x l :
  StrictWeakOrder less ->
  StronglySorted (fun a b => less a b = false) l ->
  StronglySorted (fun a b => less a b = false) (insertLeftPast less x l).
Proof.
  intros Hswo. induction l as [|y l IH]; intros Hl; simpl.
  - repeat constructor.
  - apply StronglySorted_inv in Hl as [Hl Hy].
    destruct (less y x) eqn:Hyx.
    + constructor; [now constructor|].
      constructor; [now apply swo_asym|].
      eapply Forall_impl; [exact Hy|].
      intros z Hyz. destruct (less x z) eqn:Hxz; [|reflexivity].
      rewrite <- Hyz. symmetry. exact (swo_trans less Hswo y x z Hyx Hxz).
    + constructor; [now apply IH|].
      rewrite <- insertLeftPast_perm. now constructor.
Qed.

(** The reference library: the first insertion sort, joining with slashes,
    and maps visited in the order of [map_to_list]. *)
#[export] Instance refLib : GoLib := {|
  sort_Slice := @insertionSort;
  sort_Slice_perm := fun A less l =>
    insertion_loop_perm (insertLeft less) l (insertLeft_perm less);
  sort_Slice_sorted := fun A less l Hswo =>
    insertion_loop_sorted less (insertLeft less) l
      (fun x k => insertLeft_sorted less x k Hswo);
  filepath_Join := joinSlash;
  map_range := fun V m => map_to_list m;
  map_range_perm := fun V m => Permutation_refl _
|}.

(** Another library: the second insertion sort, and maps visited in the
    opposite order. *)
Definition altLib : GoLib := {|
  sort_Slice := @insertionSortPast;
  sort_Slice_perm := fun A less l =>
    insertion_loop_perm (insertLeftPast less) l (insertLeftPast_perm less);
  sort_Slice_sorted := fun A less l Hswo =>
    insertion_loop_sorted less (insertLeftPast less) l
      (fun x k => insertLeftPast_sorted less x k Hswo);
  filepath_Join := joinSlash;
  map_range := fun V m => rev (map_to_list m);
  map_range_perm := fun V m => Permutation_sym (Permutation_rev _)
|}.

(** The two libraries order names of one length differently. *)
Lemma libraries_differ :
  @sort_Slice refLib _ lessLonger ["ab"; "cd"; "abc"] = ["abc"; "ab"; "cd"] /\
  @sort_Slice altLib _ lessLonger ["ab"; "cd"; "abc"] = ["abc"; "cd"; "ab"].
Proof. split; reflexivity. Qed.

(** ** Counting task files *)

Lemma isTaskFile_spec (e : DirEntry.t) :
  isTaskFile e = true <-> exists stem, DirEntry.Name e = stem +:+ ".json".
Proof. apply HasSuffix_spec. Qed.

(** The counting loop never wraps around: the count stays below the number
    of entries visited, and the entries are a slice. *)
Lemma count_loop (entries : list DirEntry.t) (count : Z) :
  (0 <= count)%Z -> (count + len entries <= MaxInt)%Z ->
  fold_left countTaskFile entries count
  = (count + len (List.filter isTaskFile entries))%Z.
Proof.
  revert count. induction entries as [|e entries IH]; intros count Hlo Hhi.
  - simpl. unfold len. simpl. lia.
  - change (e :: entries) with ([e] ++ entries) in Hhi.
    rewrite len_app in Hhi. unfold len at 1 in Hhi. simpl in Hhi.
    pose proof (len_nonneg entries) as Hent.
    simpl. unfold countTaskFile at 2.
    destruct (isTaskFile e).
    + unfold int_add. rewrite int_wrap_small by (unfold MaxInt in *; lia).
      rewrite IH by lia.
      change (e :: List.filter isTaskFile entries)
        with ([e] ++ List.filter isTaskFile entries).
      rewrite len_app. unfold len at 2. simpl. lia.
    + apply IH; lia.
Qed.

Lemma anyTaskFile_filter (entries : list DirEntry.t) :
  anyTaskFile entries = true <-> (0 < len (List.filter isTaskFile entries))%Z.
Proof.
  induction entries as [|e entries IH]; simpl.
  - unfold len. simpl. split; [discriminate | lia].
  - destruct (isTaskFile e).
    + unfold len. simpl. split; [lia | reflexivity].
    + exact IH.
Qed.

Section TaskFiles.
Context `{GoLib}.
Variable fs : FileSystem.
Variable pi : ProjectIndexer.t.

Lemma GetTaskCount_Ok (sessionID : string) (entries : list DirEntry.t) :
  os_ReadDir fs (taskDirOf pi sessionID) = Ok entries ->
  GetTaskCount fs pi sessionID = len (List.filter isTaskFile entries).
Proof.
  intros Hdir. unfold GetTaskCount. rewrite Hdir.
  rewrite count_loop; [lia | lia |].
  apply (ReadDir_fits fs _ _ Hdir).
Qed.

Lemma GetTaskCount_Err (sessionID : string) (err : error) :
  os_ReadDir fs (taskDirOf pi sessionID) = Err err ->
  GetTaskCount fs pi sessionID = 0%Z.
Proof. intros Hdir. unfold GetTaskCount. now rewrite Hdir. Qed.

(** C9. [GetTaskCount] is the number of entries of the session's directory
    under the tasks directory whose name ends in [.json], and it is 0, with
    no error to report, when that directory cannot be read (because it does
    not exist, or for any other reason). *)
Theorem GetTaskCount_counts_json (sessionID : string) :
  (forall e, isTaskFile e = true <->
             exists stem, DirEntry.Name e = stem +:+ ".json") /\
  match os_ReadDir fs (taskDirOf pi sessionID) with
  | Ok entries =>
      GetTaskCount fs pi sessionID = len (List.filter isTaskFile entries)
  | Err _ => GetTaskCount fs pi sessionID = 0%Z
  end.
Proof.
  split; [exact isTaskFile_spec|].
  destruct (os_ReadDir fs (taskDirOf pi sessionID)) as [entries|err] eqn:Hdir.
  - now apply GetTaskCount_Ok.
  - now apply (GetTaskCount_Err _ err).
Qed.

(** C10. [HasTasks] answers true exactly when [GetTaskCount] is positive,
    whatever the tasks directory holds; in particular both give false and 0
    on a directory that is missing or unreadable, and on one that holds no
    name ending in [.json] (lock files only, say). *)
Theorem HasTasks_iff_GetTaskCount_pos (sessionID : string) :
  (HasTasks fs pi sessionID = true <-> (0 < GetTaskCount fs pi sessionID)%Z) /\
  (forall err, os_ReadDir fs (taskDirOf pi sessionID) = Err err ->
     HasTasks fs pi sessionID = false /\ GetTaskCount fs pi sessionID = 0%Z) /\
  (forall entries, os_ReadDir fs (taskDirOf pi sessionID) = Ok entries ->
     (forall e, In e entries -> isTaskFile e = false) ->
     HasTasks fs pi sessionID = false /\ GetTaskCount fs pi sessionID = 0%Z).
Proof.
  unfold HasTasks.
  destruct (os_ReadDir fs (taskDirOf pi sessionID)) as [entries|err] eqn:Hdir.
  - rewrite (GetTaskCount_Ok _ _ Hdir).
    split; [apply anyTaskFile_filter|]. split; [discriminate|].
    intros entries' [= <-] Hnone.
    assert (Hfilter : List.filter isTaskFile entries = []).
    { clear Hdir. induction entries as [|e entries IH]; [reflexivity|]. simpl.
      rewrite (Hnone e (or_introl eq_refl)).
      apply IH. intros e' He'. apply Hnone. now right. }
    rewrite Hfilter. split; [|reflexivity].
    destruct (anyTaskFile entries) eqn:Hany; [|reflexivity].
    apply anyTaskFile_filter in Hany. rewrite Hfilter in Hany.
    unfold len in Hany. simpl in Hany. lia.
  - rewrite (GetTaskCount_Err _ _ Hdir).
    split; [split; [discriminate | lia]|].
    split; [auto | discriminate].
Qed.

End TaskFiles.

(** ** Order of the results *)

Lemma StronglySorted_lookup {A} (R : A -> A -> Prop) (l : list A) :
  StronglySorted R l ->
  forall i j x y, i < j -> l !! i = Some x -> l !! j = Some y -> R x y.
Proof.
  induction 1 as [|a l Hl IH Ha]; intros i j x y Hij Hi Hj.
  - discriminate.
  - destruct j as [|j]; [lia|]. simpl in Hj.
    destruct i as [|i]; simpl in Hi.
    + injection Hi as <-. rewrite Forall_forall in Ha. apply Ha.
      apply list_elem_of_lookup. eauto.
    + apply (IH i j); [lia | assumption | assumption].
Qed.

Lemma SortedBy_After_NonIncreasing {A} (key : A -> Time.t) (l : list A) :
  SortedBy (fun a b => Time.After (key a) (key b)) l ->
  NonIncreasing (fun a => Time.unixNano (key a)) l.
Proof.
  intros Hsorted i j x y Hij Hi Hj.
  destruct (decide (i = j)) as [->|Hne].
  - rewrite Hi in Hj. injection Hj as ->. lia.
  - pose proof (StronglySorted_lookup _ _ Hsorted i j x y ltac:(lia) Hi Hj) as Hxy.
    simpl in Hxy. unfold Time.After in Hxy. apply Z.ltb_ge in Hxy. exact Hxy.
Qed.

Section Loading.
Context `{GoLib}.
Variable fs : FileSystem.
Variable pi : ProjectIndexer.t.

Lemma sort_Slice_length {A} (less : A -> A -> bool) (l : list A) :
  length (sort_Slice less l) = length l.
Proof. symmetry. apply Permutation_length, sort_Slice_perm. Qed.

Lemma sort_Slice_In {A} (less : A -> A -> bool) (l : list A) (x : A) :
  In x (sort_Slice less l) <-> In x l.
Proof.
  split; apply Permutation_in;
    [symmetry|]; apply sort_Slice_perm.
Qed.

Lemma sort_Slice_After_NonIncreasing {A} (key : A -> Time.t) (l : list A) :
  NonIncreasing (fun a => Time.unixNano (key a))
    (sort_Slice (fun a b => Time.After (key a) (key b)) l).
Proof.
  apply SortedBy_After_NonIncreasing, sort_Slice_sorted, After_StrictWeakOrder.
Qed.

(** What a successful [loadProject] has read and built. *)
Lemma loadProject_Ok (dirName : string) (p : Project.t) :
  loadProject fs pi dirName = Ok p ->
  exists idx,
    os_ReadFile fs (indexPathOf pi dirName) = Ok (Ok idx) /\
    sessionsIndex.Entries idx <> [] /\
    let sessions := sort_Slice lessModified (sessionsIndex.Entries idx) in
    let first := nth 0 sessions SessionEntry.zero in
    let info := extractProjectInfo (SessionEntry.ProjectPath first) in
    p = Project.mk (SessionEntry.ProjectPath first)
          (if String.eqb (fst (fst info)) "" then dirName else fst (fst info))
          (snd (fst info)) (snd info) dirName sessions (len sessions)
          (SessionEntry.Modified first).
Proof.
  unfold loadProject, json_Unmarshal.
  destruct (os_ReadFile fs (indexPathOf pi dirName)) as [[idx|e]|e];
    try discriminate.
  destruct (len (sessionsIndex.Entries idx) =? 0)%Z eqn:Hlen; [discriminate|].
  destruct (extractProjectInfo _) as [[name shortname] org] eqn:Hinfo.
  intros [= <-]. exists idx. split; [reflexivity|]. split.
  - intros Hnil. rewrite Hnil in Hlen. discriminate.
  - simpl. rewrite Hinfo. reflexivity.
Qed.

(** [idx.Entries[0]] is in range in [loadProject]. *)
Lemma loadProject_first_in_range (dirName : string) (p : Project.t) :
  loadProject fs pi dirName = Ok p ->
  exists first, Project.Sessions p !! 0 = Some first /\
    nth 0 (Project.Sessions p) SessionEntry.zero = first /\
    Project.LastModified p = SessionEntry.Modified first /\
    Project.Path p = SessionEntry.ProjectPath first.
Proof.
  intros Hload. apply loadProject_Ok in Hload as (idx & _ & Hne & ->). simpl.
  destruct (sort_Slice lessModified (sessionsIndex.Entries idx))
    as [|first rest] eqn:Hsort.
  - apply (f_equal (@length _)) in Hsort. rewrite sort_Slice_length in Hsort.
    destruct (sessionsIndex.Entries idx); [congruence | discriminate].
  - exists first. auto.
Qed.

Lemma loadProject_empty_index (dirName : string) (idx : sessionsIndex.t) :
  os_ReadFile fs (indexPathOf pi dirName) = Ok (Ok idx) ->
  sessionsIndex.Entries idx = [] ->
  loadProject fs pi dirName = Err ErrNotExist.
Proof.
  intros Hread Hnil. unfold loadProject, json_Unmarshal.
  now rewrite Hread, Hnil.
Qed.

Lemma appendProject_loop (entries : list DirEntry.t) (projects : list Project.t) :
  fold_left (appendProject fs pi) entries projects
  = projects ++ flat_map (loadedFrom fs pi) entries.
Proof.
  revert projects. induction entries as [|e entries IH]; intros projects; simpl.
  - now rewrite app_nil_r.
  - rewrite IH. unfold appendProject, loadedFrom.
    destruct (negb (DirEntry.IsDir e)); [reflexivity|].
    destruct (loadProject fs pi (DirEntry.Name e)); [|reflexivity].
    now rewrite <- app_assoc.
Qed.

Lemma ListProjects_Ok (projects : list Project.t) :
  ListProjects fs pi = Ok projects ->
  exists entries,
    os_ReadDir fs (ProjectIndexer.projectsDir pi) = Ok entries /\
    projects = sort_Slice lessProject (flat_map (loadedFrom fs pi) entries).
Proof.
  unfold ListProjects.
  destruct (os_ReadDir fs (ProjectIndexer.projectsDir pi)) as [entries|e];
    [|discriminate].
  intros [= <-]. exists entries. split; [reflexivity|].
  now rewrite appendProject_loop.
Qed.

(** Every listed project was loaded from a directory of the listing. *)
Lemma ListProjects_In (projects : list Project.t) (p : Project.t) :
  ListProjects fs pi = Ok projects -> In p projects ->
  exists entry entries,
    os_ReadDir fs (ProjectIndexer.projectsDir pi) = Ok entries /\
    In entry entries /\ DirEntry.IsDir entry = true /\
    loadProject fs pi (DirEntry.Name entry) = Ok p.
Proof.
  intros Hlist Hin. apply ListProjects_Ok in Hlist as (entries & Hdir & ->).
  apply sort_Slice_In, in_flat_map in Hin as (entry & Hentry & Hp).
  exists entry, entries. split; [assumption|]. split; [assumption|].
  unfold loadedFrom in Hp.
  destruct (DirEntry.IsDir entry); [|destruct Hp].
  destruct (loadProject fs pi (DirEntry.Name entry)); [|destruct Hp].
  destruct Hp as [<-|[]]. auto.
Qed.

End Loading.

Section Recency.
Context `{GoLib}.
Variable fs : FileSystem.
Variable pi : ProjectIndexer.t.

Lemma loadProject_RecencyOrdered (dirName : string) (p : Project.t) :
  loadProject fs pi dirName = Ok p -> RecencyOrdered p.
Proof.
  intros Hload.
  destruct (loadProject_first_in_range fs pi _ _ Hload)
    as (first & Hfirst & _ & Hlast & _).
  apply loadProject_Ok in Hload as (idx & _ & _ & Hp).
  assert (Hsorted : NonIncreasing
            (fun s => Time.unixNano (SessionEntry.Modified s)) (Project.Sessions p)).
  { rewrite Hp. simpl. apply (sort_Slice_After_NonIncreasing SessionEntry.Modified). }
  split; [exact Hsorted|]. split; [eauto|].
  intros s Hs. apply list_elem_of_In, list_elem_of_lookup in Hs as [j Hj].
  rewrite Hlast.
  exact (Hsorted 0 j first s ltac:(lia) Hfirst Hj).
Qed.

(** C4. A project that [loadProject] returns has its sessions in
    non-increasing order of [Modified] and its [LastModified] equal to the
    greatest [Modified] among them, that of the first session; the list
    that [ListProjects] returns consists of such projects and is in
    non-increasing order of [LastModified]. *)
Theorem projects_and_sessions_most_recent_first :
  (forall dirName p, loadProject fs pi dirName = Ok p -> RecencyOrdered p) /\
  (forall projects, ListProjects fs pi = Ok projects ->
     NonIncreasing (fun p => Time.unixNano (Project.LastModified p)) projects /\
     forall p, In p projects -> RecencyOrdered p).
Proof.
  split; [exact loadProject_RecencyOrdered|].
  intros projects Hlist. split.
  - apply ListProjects_Ok in Hlist as (entries & _ & ->).
    apply (sort_Slice_After_NonIncreasing Project.LastModified).
  - intros p Hp.
    destruct (ListProjects_In fs pi _ _ Hlist Hp) as (entry & _ & _ & _ & _ & Hload).
    exact (loadProject_RecencyOrdered _ _ Hload).
Qed.

(** C8. An index that decodes to no entry makes [loadProject], and so
    [GetProject], fail with [os.ErrNotExist], an error of the same kind as
    the one a missing index file gives; every project that [ListProjects]
    returns has a session; and a directory that fails to load, for either
    reason or another, gives no project to [ListProjects]. *)
Theorem empty_index_is_not_found :
  (forall dirName idx,
     os_ReadFile fs (indexPathOf pi dirName) = Ok (Ok idx) ->
     sessionsIndex.Entries idx = [] ->
     loadProject fs pi dirName = Err ErrNotExist /\
     GetProject fs pi dirName = Err ErrNotExist /\
     IsNotExist ErrNotExist = true) /\
  (forall dirName,
     os_ReadFile fs (indexPathOf pi dirName) = Err (PathError ENOENT) ->
     loadProject fs pi dirName = Err (PathError ENOENT) /\
     GetProject fs pi dirName = Err (PathError ENOENT) /\
     IsNotExist (PathError ENOENT) = true) /\
  (forall projects, ListProjects fs pi = Ok projects ->
     forall p, In p projects ->
       Project.Sessions p <> [] /\ (1 <= Project.SessionCount p)%Z) /\
  (forall projects dirName err, ListProjects fs pi = Ok projects ->
     loadProject fs pi dirName = Err err ->
     forall p, In p projects -> Project.DirName p <> dirName).
Proof.
  split; [|split; [|split]].
  - intros dirName idx Hread Hnil. unfold GetProject.
    rewrite (loadProject_empty_index fs pi _ _ Hread Hnil). auto.
  - intros dirName Hread. unfold GetProject, loadProject. rewrite Hread. auto.
  - intros projects Hlist p Hp.
    destruct (ListProjects_In fs pi _ _ Hlist Hp) as (entry & _ & _ & _ & _ & Hload).
    apply loadProject_Ok in Hload as (idx & _ & Hne & ->). simpl.
    assert (Hlen : length (sort_Slice lessModified (sessionsIndex.Entries idx)) <> 0).
    { rewrite sort_Slice_length.
      destruct (sessionsIndex.Entries idx); [congruence | discriminate]. }
    split.
    + intros Hnil. now rewrite Hnil in Hlen.
    + unfold len. lia.
  - intros projects dirName err Hlist Herr p Hp Hname.
    destruct (ListProjects_In fs pi _ _ Hlist Hp) as (entry & _ & _ & _ & _ & Hload).
    assert (Hdir : Project.DirName p = DirEntry.Name entry).
    { apply loadProject_Ok in Hload as (idx & _ & _ & ->). reflexivity. }
    rewrite <- Hdir, Hname, Herr in Hload. discriminate.
Qed.

End Recency.

(** ** Names from paths *)

Lemma lastNonEmpty_snoc (l : list string) (x : string) :
  lastNonEmpty (l ++ [x]) =
    match lastNonEmpty l with
    | Some y => Some y
    | None => if String.eqb x "" then None else Some x
    end.
Proof.
  induction l as [|y l IH]; simpl; [reflexivity|].
  destruct (String.eqb y ""); [exact IH | reflexivity].
Qed.

Lemma lastNonEmpty_Some (l : list string) (x : string) :
  lastNonEmpty l = Some x -> x <> "" /\ In x l.
Proof.
  induction l as [|y l IH]; simpl; [discriminate|].
  destruct (String.eqb_spec y "") as [->|Hne].
  - intros Hx. destruct (IH Hx). auto.
  - intros [= <-]. auto.
Qed.

Lemma lastNonEmpty_None (l : list string) :
  lastNonEmpty l = None -> forall x, In x l -> x = "".
Proof.
  induction l as [|y l IH]; simpl; [intros _ x []|].
  destruct (String.eqb_spec y "") as [->|Hne]; [|discriminate].
  intros Hl x [<-|Hx]; auto.
Qed.

Lemma lastElement_no_slash (s : string) :
  hasSlash s = false -> lastElement s = s.
Proof.
  destruct s as [|c s]; simpl; [reflexivity|].
  intros Hs. apply orb_false_iff in Hs as [-> ->]. reflexivity.
Qed.

Lemma hasSlash_cons (c : ascii) (s : string) :
  hasSlash (String c s) = Ascii.eqb c slash || hasSlash s.
Proof. reflexivity. Qed.

Lemma lastElement_cons (c : ascii) (s : string) :
  lastElement (String c s) =
    if hasSlash s then lastElement s
    else if Ascii.eqb c slash then s else String c s.
Proof. reflexivity. Qed.

(** How [stripTrailingSlashes] and [strings.Split] see the same path. *)
Lemma strip_split (s : string) :
  exists piece pieces,
    strings_Split s slash = piece :: pieces /\
    match stripTrailingSlashes s with
    | EmptyString => piece = "" /\ lastNonEmpty (rev pieces) = None
    | String d t =>
        if hasSlash (String d t)
        then lastNonEmpty (rev pieces) = Some (lastElement (String d t))
        else String d t = piece /\ lastNonEmpty (rev pieces) = None
    end.
Proof.
  induction s as [|c s (p0 & ps0 & Hsplit & IH)].
  - exists "", []. simpl. auto.
  - simpl strings_Split. simpl stripTrailingSlashes. rewrite Hsplit.
    destruct (Ascii.eqb c slash) eqn:Hc.
    + exists "", (p0 :: ps0). split; [reflexivity|].
      simpl rev. rewrite lastNonEmpty_snoc.
      destruct (stripTrailingSlashes s) as [|d t] eqn:Hstrip.
      * destruct IH as [-> ->]. auto.
      * rewrite (hasSlash_cons c (String d t)), (lastElement_cons c (String d t)).
        rewrite Hc. rewrite orb_true_l.
        destruct (hasSlash (String d t)).
        -- now rewrite IH.
        -- destruct IH as [<- ->]. reflexivity.
    + exists (String c p0), ps0. split; [reflexivity|].
      destruct (stripTrailingSlashes s) as [|d t] eqn:Hstrip.
      * destruct IH as [-> ->].
        rewrite (hasSlash_cons c ""), Hc. simpl. auto.
      * rewrite (hasSlash_cons c (String d t)), (lastElement_cons c (String d t)).
        rewrite Hc. rewrite orb_false_l.
        destruct (hasSlash (String d t)).
        -- exact IH.
        -- destruct IH as [<- ->]. auto.
Qed.

(** [filepath.Base] on a path that has a final component is that
    component. *)
Lemma Base_finalComponent (path c : string) :
  finalComponent path = Some c -> filepath_Base path = c.
Proof.
  unfold finalComponent, filepath_Base. intros Hfinal.
  destruct (lastNonEmpty_Some _ _ Hfinal) as [Hc _].
  destruct (String.eqb_spec path "") as [->|Hpath]; [discriminate|].
  destruct (strip_split path) as (piece & pieces & Hsplit & Hstrip).
  rewrite Hsplit in Hfinal. simpl rev in Hfinal.
  rewrite lastNonEmpty_snoc in Hfinal.
  destruct (stripTrailingSlashes path) as [|d t].
  - destruct Hstrip as [-> Hnone]. rewrite Hnone in Hfinal. discriminate.
  - cbv zeta. destruct (hasSlash (String d t)) eqn:Hslash.
    + rewrite Hstrip in Hfinal.
      assert (Heq : lastElement (String d t) = c) by congruence.
      rewrite Heq. apply String.eqb_neq in Hc. now rewrite Hc.
    + destruct Hstrip as [<- Hnone]. rewrite Hnone in Hfinal.
      rewrite (lastElement_no_slash _ Hslash).
      simpl in Hfinal. now injection Hfinal as <-.
Qed.

(** [filepath.Base] on a path made of slashes only is one slash. *)
Lemma Base_only_slashes (path : string) :
  path <> "" -> finalComponent path = None -> filepath_Base path = "/".
Proof.
  unfold finalComponent, filepath_Base. intros Hpath Hfinal.
  apply String.eqb_neq in Hpath. rewrite Hpath.
  destruct (strip_split path) as (piece & pieces & Hsplit & Hstrip).
  rewrite Hsplit in Hfinal. simpl rev in Hfinal.
  rewrite lastNonEmpty_snoc in Hfinal.
  destruct (stripTrailingSlashes path) as [|d t]; [reflexivity|].
  exfalso. destruct (hasSlash (String d t)).
  - rewrite Hstrip in Hfinal. discriminate.
  - destruct Hstrip as [<- Hnone]. rewrite Hnone in Hfinal. discriminate.
Qed.

Lemma orgOfParts_OrgOf (parts : list string) : OrgOf parts (orgOfParts parts).
Proof.
  induction parts as [|part rest IH].
  - right. split; [intros i Hi; destruct i; discriminate | reflexivity].
  - destruct rest as [|next rest'].
    + right. split; [|reflexivity].
      intros [|i] Hi; [reflexivity | destruct i; discriminate].
    + change (orgOfParts (part :: next :: rest'))
        with (if String.eqb part "github.com" then next
              else orgOfParts (next :: rest')).
      destruct (String.eqb_spec part "github.com") as [->|Hpart].
      * left. exists 0. split; [reflexivity|]. split; [lia | reflexivity].
      * destruct IH as [(i & Hi & Hbefore & Hnext)|[Hnone ->]].
        -- left. exists (S i). split; [exact Hi|]. split; [|exact Hnext].
           intros [|j] Hj; simpl; [congruence | apply Hbefore; lia].
        -- right. split; [|reflexivity].
           intros [|i] Hi; simpl in *; [congruence | now apply Hnone].
Qed.

Lemma OrgOf_unique (parts : list string) (a b : string) :
  OrgOf parts a -> OrgOf parts b -> a = b.
Proof.
  intros [(i & Hi & Hbi & Ha)|[Hnone ->]] [(j & Hj & Hbj & Hb)|[Hnone' ->]].
  - destruct (Nat.lt_trichotomy i j) as [Hlt|[->|Hlt]].
    + destruct (Hbj i Hlt Hi).
    + congruence.
    + destruct (Hbi j Hlt Hj).
  - rewrite (Hnone' i Hi) in Ha. discriminate.
  - rewrite (Hnone j Hj) in Hb. discriminate.
  - reflexivity.
Qed.

Lemma orgOfParts_all_empty (parts : list string) :
  (forall x, In x parts -> x = "") -> orgOfParts parts = "".
Proof.
  intros Hall.
  destruct (orgOfParts_OrgOf parts) as [(i & Hi & _)|[_ Horg]]; [|exact Horg].
  assert (Hin : In "github.com" parts).
  { apply list_elem_of_In, list_elem_of_lookup. eauto. }
  apply Hall in Hin. discriminate.
Qed.

(** C7, as amended. [extractProjectInfo] is a function of the path alone.
    When the path has a final component other than the dot, name and
    shortname are that component, and org is the part right after the first
    [github.com] part of the path (empty when there is none, or when
    [github.com] comes last). For the empty path, and for a path whose
    final component is the dot, the three outputs are empty. For a path made
    of slashes only, such as the root, name and shortname are one slash and
    org is empty. *)
Theorem extractProjectInfo_from_path :
  (forall path c, finalComponent path = Some c -> c <> "." ->
     exists org, extractProjectInfo path = (c, c, org) /\
                 OrgOf (strings_Split path slash) org /\
                 forall org', OrgOf (strings_Split path slash) org' -> org' = org) /\
  (forall path, finalComponent path = Some "." ->
     extractProjectInfo path = ("", "", "")) /\
  extractProjectInfo "" = ("", "", "") /\
  (forall path, path <> "" -> finalComponent path = None ->
     extractProjectInfo path = ("/", "/", "")) /\
  extractProjectInfo "/home/u/src/github.com/org1/repoX"
    = ("repoX", "repoX", "org1").
Proof.
  split; [|split; [|split; [|split]]].
  - intros path c Hfinal Hdot. exists (orgOfParts (strings_Split path slash)).
    split; [|split; [apply orgOfParts_OrgOf|]].
    2: { intros org' Horg'.
         exact (OrgOf_unique _ _ _ Horg' (orgOfParts_OrgOf _)). }
    unfold extractProjectInfo. rewrite (Base_finalComponent _ _ Hfinal).
    destruct (lastNonEmpty_Some _ _ Hfinal) as [Hne _].
    apply String.eqb_neq in Hne, Hdot. now rewrite Hne, Hdot.
  - intros path Hfinal. unfold extractProjectInfo.
    now rewrite (Base_finalComponent _ _ Hfinal).
  - reflexivity.
  - intros path Hpath Hfinal. unfold extractProjectInfo.
    rewrite (Base_only_slashes _ Hpath Hfinal). simpl.
    rewrite orgOfParts_all_empty; [reflexivity|].
    intros x Hx. apply (lastNonEmpty_None _ Hfinal). now apply in_rev in Hx.
  - reflexivity.
Qed.

(** C7, as stated, fails on the root: it has no final component, and its
    name and shortname are the slash. *)
Lemma extractProjectInfo_root_not_empty :
  finalComponent "/" = None /\
  extractProjectInfo "/" = ("/", "/", "") /\
  extractProjectInfo "/" <> ("", "", "").
Proof. split; [reflexivity|]. split; [reflexivity | discriminate]. Qed.

Lemma extractProjectInfo_from_path_witness :
  exists org, extractProjectInfo "/src/github.com/roasbeef/lnd" = ("lnd", "lnd", org) /\
              OrgOf (strings_Split "/src/github.com/roasbeef/lnd" slash) org.
Proof.
  destruct (proj1 extractProjectInfo_from_path
              "/src/github.com/roasbeef/lnd" "lnd") as (org & Hinfo & Horg & _).
  - reflexivity.
  - discriminate.
  - exists org. split; assumption.
Defined.

(** ** Active task lists *)

Section ActiveLists.
Context `{GoLib}.
Variable fs : FileSystem.
Variable pi : ProjectIndexer.t.

Lemma GetTaskCount_pos_holdsTaskFile (sessionID : string) :
  (0 < GetTaskCount fs pi sessionID)%Z <-> holdsTaskFile fs pi sessionID.
Proof.
  unfold holdsTaskFile.
  destruct (os_ReadDir fs (taskDirOf pi sessionID)) as [listing|e] eqn:Hdir.
  - rewrite (GetTaskCount_Ok fs pi _ _ Hdir), <- anyTaskFile_filter.
    assert (Hany : anyTaskFile listing = true <->
                   exists file, In file listing /\ isTaskFile file = true).
    { clear Hdir. induction listing as [|f listing IH]; simpl.
      - split; [discriminate | intros (file & [] & _)].
      - destruct (isTaskFile f) eqn:Hf.
        + split; [eauto | reflexivity].
        + rewrite IH. split.
          * intros (file & Hin & Hfile). eauto.
          * intros (file & [<-|Hin] & Hfile); [congruence | eauto]. }
    rewrite Hany. split.
    + intros (file & Hin & Hfile). eauto.
    + intros (listing' & file & [= <-] & Hin & Hfile). eauto.
  - rewrite (GetTaskCount_Err fs pi _ _ Hdir).
    split; [lia | intros (listing & file & Hread & _); discriminate].
Qed.

Lemma recordSession_loop_None (projectName dirName sessionID : string)
    (entries : list SessionEntry.t) (m : gmap string projectInfo.t) :
  m !! sessionID = None ->
  (forall entry, In entry entries -> SessionEntry.SessionID entry <> sessionID) ->
  fold_left (recordSession projectName dirName) entries m !! sessionID = None.
Proof.
  revert m. induction entries as [|e entries IH]; intros m Hm Hnot; simpl.
  - exact Hm.
  - apply IH.
    + unfold recordSession. rewrite lookup_insert_ne; [exact Hm|].
      apply Hnot. now left.
    + intros entry Hentry. apply Hnot. now right.
Qed.

Lemma recordProject_loop_None (sessionID : string)
    (dirs : list DirEntry.t) (m : gmap string projectInfo.t) :
  m !! sessionID = None ->
  (forall dir idx entry, In dir dirs -> DirEntry.IsDir dir = true ->
     os_ReadFile fs (indexPathOf pi (DirEntry.Name dir)) = Ok (Ok idx) ->
     In entry (sessionsIndex.Entries idx) ->
     SessionEntry.SessionID entry <> sessionID) ->
  fold_left (recordProject fs pi) dirs m !! sessionID = None.
Proof.
  revert m. induction dirs as [|dir dirs IH]; intros m Hm Hnot; simpl.
  - exact Hm.
  - apply IH; [|intros d idx entry Hd; apply Hnot; now right].
    unfold recordProject, json_Unmarshal.
    destruct (DirEntry.IsDir dir) eqn:Hdir; simpl; [|exact Hm].
    destruct (os_ReadFile fs (indexPathOf pi (DirEntry.Name dir)))
      as [[idx|e]|e] eqn:Hread; try exact Hm.
    apply recordSession_loop_None; [exact Hm|].
    intros entry Hentry.
    exact (Hnot dir idx entry (or_introl eq_refl) Hdir Hread Hentry).
Qed.

Lemma buildSessionProjectMap_None (sessionID : string) :
  ~ inSomeIndex fs pi sessionID -> buildSessionProjectMap fs pi !! sessionID = None.
Proof.
  intros Hnot. unfold buildSessionProjectMap.
  destruct (os_ReadDir fs (ProjectIndexer.projectsDir pi)) as [dirs|e] eqn:Hdirs.
  - apply recordProject_loop_None; [apply lookup_empty|].
    intros dir idx entry Hdir HisDir Hread Hentry Hid. apply Hnot.
    exists dirs, dir, idx, entry. repeat split; assumption.
  - apply lookup_empty.
Qed.

Lemma findProjectByJSONL_none (sessionID : string) :
  ~ hasLogFile fs pi sessionID ->
  findProjectByJSONL fs pi sessionID = (projectInfo.zero, false).
Proof.
  intros Hnot. unfold findProjectByJSONL.
  destruct (os_ReadDir fs (ProjectIndexer.projectsDir pi)) as [dirs|e] eqn:Hdirs;
    [|reflexivity].
  assert (Hprobe : forall dir, In dir dirs -> DirEntry.IsDir dir = true ->
            os_Stat fs (jsonlPathOf pi (DirEntry.Name dir) (sessionID +:+ ".jsonl"))
            <> Ok tt).
  { intros dir Hdir HisDir Hstat. apply Hnot. exists dirs, dir.
    repeat split; assumption. }
  clear Hdirs Hnot. induction dirs as [|dir dirs IH]; simpl; [reflexivity|].
  destruct (DirEntry.IsDir dir) eqn:HisDir; simpl.
  - destruct (os_Stat fs _) as [[]|e] eqn:Hstat.
    + destruct (Hprobe dir (or_introl eq_refl) HisDir Hstat).
    + apply IH. intros d Hd. apply Hprobe. now right.
  - apply IH. intros d Hd. apply Hprobe. now right.
Qed.

Lemma appendActive_loop (m : gmap string projectInfo.t)
    (entries : list DirEntry.t) (lists : list ActiveTaskList.t) :
  fold_left (appendActive fs pi m) entries lists
  = lists ++ flat_map (activeFrom fs pi m) entries.
Proof.
  revert lists. induction entries as [|e entries IH]; intros lists; simpl.
  - now rewrite app_nil_r.
  - rewrite IH. unfold activeFrom at 2. unfold appendActive.
    destruct (negb (DirEntry.IsDir e)); [reflexivity|].
    destruct (0 <? GetTaskCount fs pi (DirEntry.Name e))%Z; [|reflexivity].
    now rewrite <- app_assoc.
Qed.

(** An entry of the result, seen from the directory it was built from. *)
Lemma activeFrom_In (m : gmap string projectInfo.t) (entry : DirEntry.t)
    (a : ActiveTaskList.t) :
  In a (activeFrom fs pi m entry) ->
  activeFrom fs pi m entry = [a] /\
  DirEntry.IsDir entry = true /\
  ActiveTaskList.SessionID a = DirEntry.Name entry /\
  ActiveTaskList.TaskCount a = GetTaskCount fs pi (DirEntry.Name entry) /\
  (0 < GetTaskCount fs pi (DirEntry.Name entry))%Z /\
  (m !! DirEntry.Name entry = None ->
   findProjectByJSONL fs pi (DirEntry.Name entry) = (projectInfo.zero, false) ->
   blankContext a).
Proof.
  unfold activeFrom, appendActive.
  destruct (DirEntry.IsDir entry); simpl; [|intros []].
  destruct (0 <? GetTaskCount fs pi (DirEntry.Name entry))%Z eqn:Hcount;
    [|intros []].
  intros [<-|[]]. split; [reflexivity|]. split; [reflexivity|].
  apply Z.ltb_lt in Hcount.
  destruct (m !! DirEntry.Name entry) as [proj|] eqn:Hm;
    [|destruct (findProjectByJSONL fs pi (DirEntry.Name entry)) as [proj [|]]];
    (split; [reflexivity|]); (split; [reflexivity|]); (split; [exact Hcount|]);
    intros Hnone Hprobe; try discriminate.
  repeat split.
Qed.

Lemma activeFrom_nonempty (m : gmap string projectInfo.t) (entry : DirEntry.t) :
  DirEntry.IsDir entry = true ->
  (0 < GetTaskCount fs pi (DirEntry.Name entry))%Z ->
  exists a, activeFrom fs pi m entry = [a].
Proof.
  intros HisDir Hcount. unfold activeFrom, appendActive.
  rewrite HisDir. simpl. apply Z.ltb_lt in Hcount. rewrite Hcount. eauto.
Qed.

End ActiveLists.

Lemma NoDup_map_filter {A B} (f : A -> B) (keep : A -> bool) (l : list A) :
  NoDup (map f l) -> NoDup (map f (List.filter keep l)).
Proof.
  induction l as [|x l IH]; simpl; intros Hl; [constructor|].
  inversion Hl as [|y k Hx Hk]; subst.
  destruct (keep x); simpl; [|now apply IH].
  constructor; [|now apply IH].
  intros Hin. apply Hx. apply list_elem_of_In.
  apply list_elem_of_In, in_map_iff in Hin as (z & Hz & Hin).
  apply in_map_iff. exists z. split; [assumption|].
  now apply List.filter_In in Hin as [Hin _].
Qed.

Section ActiveListsSpec.
Context `{GoLib}.
Variable fs : FileSystem.
Variable pi : ProjectIndexer.t.

Lemma activeFrom_sessions (m : gmap string projectInfo.t) (entries : list DirEntry.t) :
  map ActiveTaskList.SessionID (flat_map (activeFrom fs pi m) entries)
  = map DirEntry.Name (List.filter (isLive fs pi) entries).
Proof.
  induction entries as [|e entries IH]; simpl; [reflexivity|].
  rewrite map_app, IH. unfold isLive at 2.
  destruct (DirEntry.IsDir e) eqn:HisDir;
    [destruct (0 <? GetTaskCount fs pi (DirEntry.Name e))%Z eqn:Hcount|]; simpl.
  - apply Z.ltb_lt in Hcount.
    destruct (activeFrom_nonempty fs pi m e HisDir Hcount) as [a Ha].
    rewrite Ha. simpl. f_equal.
    assert (Hin : In a (activeFrom fs pi m e)) by (rewrite Ha; now left).
    now apply activeFrom_In in Hin as (_ & _ & Hid & _).
  - unfold activeFrom, appendActive. rewrite HisDir. simpl. now rewrite Hcount.
  - unfold activeFrom, appendActive. now rewrite HisDir.
Qed.

(** C5. When the tasks directory can be listed, [ListActiveTaskLists]
    succeeds, whatever the state of the projects directory. Its result has
    one entry for each directory of the listing whose own listing holds a
    task file, in the order of the listing, and no other entry; a session
    occurs once. The [TaskCount] of an entry is the count of the task files,
    at least 1. An entry whose session is in no project's index and has a
    log file in no project directory has its four fields of project context
    blank. When the tasks directory cannot be listed, the error is
    returned. *)
Theorem ListActiveTaskLists_live_sessions :
  match os_ReadDir fs (ProjectIndexer.tasksDir pi) with
  | Err err => ListActiveTaskLists fs pi = Err err
  | Ok entries =>
      exists lists,
        ListActiveTaskLists fs pi = Ok lists /\
        map ActiveTaskList.SessionID lists
          = map DirEntry.Name (List.filter (isLive fs pi) entries) /\
        NoDup (map ActiveTaskList.SessionID lists) /\
        (forall sessionID,
           In sessionID (map ActiveTaskList.SessionID lists) <->
           exists entry, In entry entries /\ DirEntry.IsDir entry = true /\
                         DirEntry.Name entry = sessionID /\
                         holdsTaskFile fs pi sessionID) /\
        (forall a, In a lists ->
           (1 <= ActiveTaskList.TaskCount a)%Z /\
           ActiveTaskList.TaskCount a
             = GetTaskCount fs pi (ActiveTaskList.SessionID a) /\
           (~ inSomeIndex fs pi (ActiveTaskList.SessionID a) ->
            ~ hasLogFile fs pi (ActiveTaskList.SessionID a) ->
            blankContext a))
  end.
Proof.
  unfold ListActiveTaskLists.
  destruct (os_ReadDir fs (ProjectIndexer.tasksDir pi)) as [entries|err] eqn:Hdir;
    [|reflexivity].
  rewrite appendActive_loop. simpl.
  set (m := buildSessionProjectMap fs pi).
  exists (flat_map (activeFrom fs pi m) entries).
  split; [reflexivity|].
  pose proof (activeFrom_sessions m entries) as Hids.
  split; [exact Hids|]. split; [|split].
  - rewrite Hids. apply NoDup_map_filter. exact (ReadDir_NoDup fs _ _ Hdir).
  - intros sessionID. rewrite Hids, in_map_iff. split.
    + intros (entry & Hname & Hentry).
      apply List.filter_In in Hentry as [Hentry Hlive].
      apply andb_true_iff in Hlive as [HisDir Hcount].
      exists entry. repeat split; try assumption.
      apply GetTaskCount_pos_holdsTaskFile. rewrite <- Hname.
      now apply Z.ltb_lt.
    + intros (entry & Hentry & HisDir & Hname & Hholds).
      exists entry. split; [assumption|].
      apply List.filter_In. split; [assumption|].
      unfold isLive. rewrite HisDir. simpl. apply Z.ltb_lt.
      apply GetTaskCount_pos_holdsTaskFile. now rewrite Hname.
  - intros a Ha. apply in_flat_map in Ha as (entry & _ & Ha).
    apply activeFrom_In in Ha as (_ & _ & Hid & Hcount & Hpos & Hblank).
    rewrite Hid, Hcount. split; [lia|]. split; [reflexivity|].
    intros HnoIndex HnoLog. apply Hblank.
    + now apply buildSessionProjectMap_None.
    + now apply findProjectByJSONL_none.
Qed.

End ActiveListsSpec.

(** ** Base repositories *)

Lemma isBaseOf_WorktreeOf (name c : string) :
  isBaseOf name c = true <-> WorktreeOf name c.
Proof.
  unfold isBaseOf, WorktreeOf.
  rewrite andb_true_iff, negb_true_iff, String.eqb_neq, HasPrefix_spec.
  split; intros [Hne [suffix Hs]]; (split; [exact Hne|]); exists suffix;
    [now rewrite <- append_assoc | now rewrite append_assoc].
Qed.

(** Two bases of one name that are equally long are the same name. *)
Lemma WorktreeOf_same_length (name c c' : string) :
  WorktreeOf name c -> WorktreeOf name c' ->
  String.length c = String.length c' -> c = c'.
Proof.
  intros [_ [suffix Hs]] [_ [suffix' Hs']] Hlen.
  apply (append_inj_length c ("-" +:+ suffix) c' ("-" +:+ suffix') Hlen).
  congruence.
Qed.

Lemma findBase_find (name : string) (repos : list string) :
  findBase name repos = default name (List.find (isBaseOf name) repos).
Proof.
  induction repos as [|c repos IH]; simpl; [reflexivity|].
  unfold isBaseOf at 1.
  destruct (String.eqb c name); simpl; [exact IH|].
  destruct (strings_HasPrefix name (c +:+ "-")); [reflexivity | exact IH].
Qed.

Lemma find_FirstSuch {A} (f : A -> bool) (l : list A) (x : A) :
  List.find f l = Some x -> FirstSuch (fun y => f y = true) l x.
Proof.
  induction l as [|y l IH]; simpl; [discriminate|].
  destruct (f y) eqn:Hy.
  - intros [= <-]. exists [], l. split; [reflexivity|]. split; [exact Hy|].
    intros z [].
  - intros Hfind. destruct (IH Hfind) as (before & after & -> & Hx & Hbefore).
    exists (y :: before), after. split; [reflexivity|]. split; [exact Hx|].
    intros z [<-|Hz]; [congruence | now apply Hbefore].
Qed.

Lemma find_None {A} (f : A -> bool) (l : list A) :
  List.find f l = None -> forall y, In y l -> f y = false.
Proof.
  induction l as [|x l IH]; simpl; [intros _ y []|].
  destruct (f x) eqn:Hx; [discriminate|].
  intros Hfind y [<-|Hy]; auto.
Qed.

(** What [findBase] returns, as a scan. *)
Lemma findBase_ScanGives (name : string) (repos : list string) :
  ScanGives WorktreeOf repos name (findBase name repos).
Proof.
  rewrite findBase_find.
  destruct (List.find (isBaseOf name) repos) as [c|] eqn:Hfind; simpl.
  - left. destruct (find_FirstSuch _ _ _ Hfind)
      as (before & after & Hrepos & Hc & Hbefore).
    exists before, after. split; [exact Hrepos|].
    split; [now apply isBaseOf_WorktreeOf|].
    intros y Hy Hw. apply isBaseOf_WorktreeOf in Hw.
    now apply Hbefore in Hy.
  - right. split; [reflexivity|].
    intros c Hc Hw. apply isBaseOf_WorktreeOf in Hw.
    rewrite (find_None _ _ Hfind c Hc) in Hw. discriminate.
Qed.

(** In a scan of names sorted longest first, the first base found is the
    longest. *)
Lemma FirstSuch_longest (name : string) (repos : list string) (base : string) :
  SortedBy lessLonger repos ->
  FirstSuch (WorktreeOf name) repos base ->
  forall c, In c repos -> WorktreeOf name c ->
    String.length c <= String.length base.
Proof.
  intros Hsorted (before & after & -> & _ & Hbefore) c Hc Hw.
  apply in_app_or in Hc as [Hc|[<-|Hc]].
  - destruct (Hbefore c Hc Hw).
  - lia.
  - apply StronglySorted_app_1_r, StronglySorted_inv in Hsorted as [_ Hafter].
    rewrite Forall_forall in Hafter.
    apply list_elem_of_In, Hafter in Hc. unfold lessLonger in Hc.
    now apply Nat.ltb_ge in Hc.
Qed.

Lemma ScanGives_In (name : string) (repos : list string) (base : string) :
  FirstSuch (WorktreeOf name) repos base ->
  In base repos /\ WorktreeOf name base.
Proof.
  intros (before & after & -> & Hw & _). split; [|exact Hw].
  apply in_or_app. right. now left.
Qed.

(** Two scans of the same names, each sorted longest first, give the same
    base: ties between names of one length cannot matter. *)
Lemma ScanGives_perm (name : string) (l1 l2 : list string) (b1 b2 : string) :
  Permutation l1 l2 -> SortedBy lessLonger l1 -> SortedBy lessLonger l2 ->
  ScanGives WorktreeOf l1 name b1 -> ScanGives WorktreeOf l2 name b2 ->
  b1 = b2.
Proof.
  intros Hperm Hs1 Hs2 [H1|[-> Hnone1]] [H2|[-> Hnone2]].
  - destruct (ScanGives_In _ _ _ H1) as [Hin1 Hw1].
    destruct (ScanGives_In _ _ _ H2) as [Hin2 Hw2].
    apply (WorktreeOf_same_length name); [assumption..|].
    apply Nat.le_antisymm.
    + apply (FirstSuch_longest name l2 b2 Hs2 H2); [|assumption].
      now apply (Permutation_in _ Hperm).
    + apply (FirstSuch_longest name l1 b1 Hs1 H1); [|assumption].
      now apply (Permutation_in _ (Permutation_sym Hperm)).
  - destruct (ScanGives_In _ _ _ H1) as [Hin1 Hw1].
    destruct (Hnone2 b1); [|assumption].
    now apply (Permutation_in _ Hperm).
  - destruct (ScanGives_In _ _ _ H2) as [Hin2 Hw2].
    destruct (Hnone1 b2); [|assumption].
    now apply (Permutation_in _ (Permutation_sym Hperm)).
  - reflexivity.
Qed.

Lemma siblings_perm (org : string) (l l' : list ProjectSummary.t) :
  Permutation l l' -> Permutation (siblings org l) (siblings org l').
Proof.
  intros Hperm. unfold siblings. apply Permutation_map.
  induction Hperm as [|x l l' _ IH|x y l|l l' l'' _ IH1 _ IH2]; simpl.
  - constructor.
  - destruct (String.eqb (ProjectSummary.Org x) org); [now constructor | exact IH].
  - destruct (String.eqb (ProjectSummary.Org x) org),
             (String.eqb (ProjectSummary.Org y) org);
      try reflexivity. apply perm_swap.
  - now transitivity (List.filter (fun s => String.eqb (ProjectSummary.Org s) org) l').
Qed.

Lemma collectRepo_loop (org : string) (summaries : list ProjectSummary.t)
    (orgRepos : gmap string (list string)) :
  org <> "" ->
  default [] (fold_left collectRepo summaries orgRepos !! org)
  = default [] (orgRepos !! org) ++ siblings org summaries.
Proof.
  intros Horg. revert orgRepos.
  induction summaries as [|s summaries IH]; intros orgRepos; simpl.
  - unfold siblings. simpl. now rewrite app_nil_r.
  - rewrite IH. unfold siblings. simpl. unfold collectRepo.
    destruct (String.eqb_spec (ProjectSummary.Org s) "") as [Hempty|Hfull]; simpl.
    + destruct (String.eqb_spec (ProjectSummary.Org s) org) as [Heq|Hne];
        [congruence | reflexivity].
    + destruct (String.eqb_spec (ProjectSummary.Org s) org) as [Heq|Hne].
      * rewrite Heq, lookup_insert_eq. simpl. now rewrite <- app_assoc.
      * now rewrite lookup_insert_ne.
Qed.

Section BaseRepos.
Context `{GoLib}.

Lemma sort_Slice_nil {A} (less : A -> A -> bool) : sort_Slice less [] = [].
Proof.
  apply Permutation_nil. apply sort_Slice_perm.
Qed.

(** The candidates that the last loop of [computeBaseRepos] scans for a
    project of [org]. *)
Lemma sortedOrgRepos_lookup (org : string) (summaries : list ProjectSummary.t) :
  org <> "" ->
  default [] (sortedOrgRepos summaries !! org)
  = sort_Slice lessLonger (siblings org summaries).
Proof.
  intros Horg. unfold sortedOrgRepos. rewrite lookup_fmap.
  pose proof (collectRepo_loop org summaries ∅ Horg) as Hloop.
  rewrite lookup_empty in Hloop. simpl in Hloop.
  destruct (fold_left collectRepo summaries ∅ !! org) as [names|]; simpl in *.
  - now rewrite Hloop.
  - now rewrite <- Hloop, sort_Slice_nil.
Qed.

Lemma assignBase_empty_org (orgRepos : gmap string (list string))
    (s : ProjectSummary.t) :
  ProjectSummary.Org s = "" ->
  assignBase orgRepos s = ProjectSummary.setBaseRepo s (ProjectSummary.Name s).
Proof. intros Horg. unfold assignBase. now rewrite Horg. Qed.

Lemma assignBase_org (summaries : list ProjectSummary.t) (s : ProjectSummary.t) :
  ProjectSummary.Org s <> "" ->
  assignBase (sortedOrgRepos summaries) s
  = ProjectSummary.setBaseRepo s
      (findBase (ProjectSummary.Name s)
         (sort_Slice lessLonger (siblings (ProjectSummary.Org s) summaries))).
Proof.
  intros Horg. unfold assignBase.
  apply String.eqb_neq in Horg as Horgb. rewrite Horgb.
  now rewrite sortedOrgRepos_lookup.
Qed.

End BaseRepos.

(** The base that [computeBaseRepos] gives does not depend on how
    [sort.Slice] orders names of one length, nor on the order of the
    summaries. *)
Lemma findBase_sorted_perm (L1 L2 : GoLib) (name : string) (l1 l2 : list string) :
  Permutation l1 l2 ->
  findBase name (@sort_Slice L1 _ lessLonger l1)
  = findBase name (@sort_Slice L2 _ lessLonger l2).
Proof.
  intros Hperm.
  apply (ScanGives_perm name (@sort_Slice L1 _ lessLonger l1)
           (@sort_Slice L2 _ lessLonger l2)).
  - rewrite <- (@sort_Slice_perm L1), <- (@sort_Slice_perm L2). exact Hperm.
  - apply sort_Slice_sorted, lessLonger_StrictWeakOrder.
  - apply sort_Slice_sorted, lessLonger_StrictWeakOrder.
  - apply findBase_ScanGives.
  - apply findBase_ScanGives.
Qed.

Lemma assignBase_perm (L1 L2 : GoLib) (l l' : list ProjectSummary.t)
    (s : ProjectSummary.t) :
  Permutation l l' ->
  assignBase (@sortedOrgRepos L1 l) s = assignBase (@sortedOrgRepos L2 l') s.
Proof.
  intros Hperm.
  destruct (String.eqb_spec (ProjectSummary.Org s) "") as [Horg|Horg].
  - now rewrite !assignBase_empty_org.
  - rewrite !assignBase_org by assumption. f_equal.
    apply findBase_sorted_perm, siblings_perm, Hperm.
Qed.

Lemma computeBaseRepos_lib_independent (L1 L2 : GoLib)
    (l : list ProjectSummary.t) :
  @computeBaseRepos L1 l = @computeBaseRepos L2 l.
Proof.
  unfold computeBaseRepos. apply map_ext. intros s.
  now apply assignBase_perm.
Qed.

Lemma assignBase_fields (orgRepos : gmap string (list string))
    (s : ProjectSummary.t) :
  assignBase orgRepos s
  = ProjectSummary.setBaseRepo s (ProjectSummary.BaseRepo (assignBase orgRepos s)).
Proof. unfold assignBase. now destruct (String.eqb _ _). Qed.

Section BaseReposSpec.
Context `{GoLib}.

(** C1, as amended. [computeBaseRepos] changes nothing but [BaseRepo]. A
    project without organization gets its own name. A project of an
    organization gets the first candidate, in a scan of the names of the
    organization sorted longest first, that is another name and, followed by
    a dash, starts the name of the project (the rest of the name, the
    suffix, may be empty); it gets its own name when no candidate does.
    That candidate is the longest of those that qualify. *)
Theorem computeBaseRepos_first_longest_candidate (summaries : list ProjectSummary.t) :
  length (computeBaseRepos summaries) = length summaries /\
  forall i s, summaries !! i = Some s ->
    exists r,
      computeBaseRepos summaries !! i = Some r /\
      r = ProjectSummary.setBaseRepo s (ProjectSummary.BaseRepo r) /\
      (ProjectSummary.Org s = "" ->
         ProjectSummary.BaseRepo r = ProjectSummary.Name s) /\
      (ProjectSummary.Org s <> "" ->
         exists candidates,
           Permutation candidates (siblings (ProjectSummary.Org s) summaries) /\
           SortedBy lessLonger candidates /\
           ScanGives WorktreeOf candidates (ProjectSummary.Name s)
             (ProjectSummary.BaseRepo r) /\
           forall c, In c candidates -> WorktreeOf (ProjectSummary.Name s) c ->
             String.length c <= String.length (ProjectSummary.BaseRepo r)).
Proof.
  unfold computeBaseRepos. split; [apply length_map|].
  intros i s Hs. exists (assignBase (sortedOrgRepos summaries) s).
  split; [|split; [apply assignBase_fields|split]].
  - change (map (assignBase (sortedOrgRepos summaries)) summaries)
      with (assignBase (sortedOrgRepos summaries) <$> summaries).
    now rewrite list_lookup_fmap, Hs.
  - intros Horg. now rewrite assignBase_empty_org.
  - intros Horg. rewrite assignBase_org by assumption. simpl.
    set (candidates :=
           sort_Slice lessLonger (siblings (ProjectSummary.Org s) summaries)).
    assert (Hsorted : SortedBy lessLonger candidates)
      by apply sort_Slice_sorted, lessLonger_StrictWeakOrder.
    pose proof (findBase_ScanGives (ProjectSummary.Name s) candidates) as Hscan.
    exists candidates. split; [symmetry; apply sort_Slice_perm|].
    split; [exact Hsorted|]. split; [exact Hscan|].
    intros c Hc Hw. destruct Hscan as [Hfirst|[_ Hnone]].
    + exact (FirstSuch_longest _ _ _ Hsorted Hfirst c Hc Hw).
    + destruct (Hnone c Hc Hw).
Qed.

End BaseReposSpec.

(** C1, as stated, fails when the suffix is empty: next to [repo], the
    project [repo-] gets the base [repo], which no scan for a non-empty
    suffix gives. *)
Lemma computeBaseRepos_accepts_empty_suffix :
  map ProjectSummary.BaseRepo (@computeBaseRepos refLib dashRepos)
    = ["repo"; "repo"] /\
  forall candidates, ~ ScanGives WorktreeOfStrict candidates "repo-" "repo".
Proof.
  split; [vm_compute; reflexivity|].
  intros candidates [(before & after & _ & [_ (suffix & Hne & Hs)] & _)|[Heq _]].
  - simpl_append. injection Hs as Hs. now subst suffix.
  - discriminate.
Qed.

Lemma computeBaseRepos_first_longest_candidate_witness :
  exists r,
    @computeBaseRepos refLib clientRepos !! 2 = Some r /\
    r = ProjectSummary.setBaseRepo (summaryNamed "repo-client-wt" "lightninglabs")
          (ProjectSummary.BaseRepo r).
Proof.
  destruct (proj2 (@computeBaseRepos_first_longest_candidate refLib clientRepos)
              2 (summaryNamed "repo-client-wt" "lightninglabs") eq_refl)
    as (r & Hr & Hfields & _).
  exists r. split; assumption.
Defined.

(** C2. On the four projects [repo], [repo-client], [repo-client-wt] and
    [other] of one organization, whatever the library, [computeBaseRepos]
    gives [repo-client] the base [repo]: the scan skips the project's own
    name and then meets [repo], which followed by a dash starts
    [repo-client]. C2, and the comment above the function, say that
    [repo-client] is its own base. The other three are as C2 says. *)
Theorem computeBaseRepos_client_repos (L : GoLib) :
  map ProjectSummary.Name (@computeBaseRepos L clientRepos)
  = ["repo"; "repo-client"; "repo-client-wt"; "other"] /\
  map ProjectSummary.BaseRepo (@computeBaseRepos L clientRepos)
  = ["repo"; "repo"; "repo-client"; "other"] /\
  map ProjectSummary.BaseRepo (@computeBaseRepos L clientRepos)
  <> ["repo"; "repo-client"; "repo-client"; "other"].
Proof.
  rewrite (computeBaseRepos_lib_independent L refLib).
  split; [vm_compute; reflexivity|].
  split; [vm_compute; reflexivity|].
  vm_compute. discriminate.
Qed.

(** C3. For two orders of the same summaries, and for two libraries (two
    ways of ordering names of one length), [computeBaseRepos] gives the
    same summaries up to order, and projects of the same name and
    organization get the same [BaseRepo]. *)
Theorem computeBaseRepos_order_independent (L1 L2 : GoLib)
    (l l' : list ProjectSummary.t) :
  Permutation l l' ->
  Permutation (@computeBaseRepos L1 l) (@computeBaseRepos L2 l') /\
  forall r r',
    In r (@computeBaseRepos L1 l) -> In r' (@computeBaseRepos L2 l') ->
    ProjectSummary.Name r = ProjectSummary.Name r' ->
    ProjectSummary.Org r = ProjectSummary.Org r' ->
    ProjectSummary.BaseRepo r = ProjectSummary.BaseRepo r'.
Proof.
  intros Hperm. split.
  - rewrite (computeBaseRepos_lib_independent L1 L2 l).
    unfold computeBaseRepos.
    rewrite (map_ext _ _ (fun s => assignBase_perm L2 L2 l l' s Hperm)).
    now apply Permutation_map.
  - intros r r' Hr Hr' Hname Horg. unfold computeBaseRepos in Hr, Hr'.
    apply in_map_iff in Hr as (s & <- & _), Hr' as (s' & <- & _).
    rewrite (assignBase_perm L1 L2 l l' s Hperm).
    assert (Hfield : forall m x, ProjectSummary.Name (assignBase m x)
                       = ProjectSummary.Name x /\
                     ProjectSummary.Org (assignBase m x) = ProjectSummary.Org x).
    { intros m x. rewrite assignBase_fields. auto. }
    rewrite !(proj1 (Hfield _ _)) in Hname.
    rewrite !(proj2 (Hfield _ _)) in Horg.
    unfold assignBase. rewrite <- Horg, <- Hname. now destruct (String.eqb _ _).
Qed.

Lemma computeBaseRepos_order_independent_witness :
  Permutation (@computeBaseRepos refLib tiedRepos)
    (@computeBaseRepos altLib (rev tiedRepos)).
Proof.
  apply (computeBaseRepos_order_independent refLib altLib tiedRepos
           (rev tiedRepos)).
  apply Permutation_rev.
Defined.

(** ** Groups *)

Lemma Split_no_slash (s piece : string) :
  In piece (strings_Split s slash) -> hasSlash piece = false.
Proof.
  revert piece. induction s as [|c s IH]; intros piece; simpl.
  - intros [<-|[]]. reflexivity.
  - destruct (Ascii.eqb c slash) eqn:Hc.
    + intros [<-|Hin]; [reflexivity | now apply IH].
    + destruct (strings_Split s slash) as [|p ps].
      * intros [<-|[]]. simpl. now rewrite Hc.
      * intros [<-|Hin].
        -- simpl. rewrite Hc. apply IH. now left.
        -- apply IH. now right.
Qed.

Lemma orgOfParts_In (parts : list string) :
  orgOfParts parts = "" \/ In (orgOfParts parts) parts.
Proof.
  induction parts as [|part rest IH]; [now left|].
  destruct rest as [|next rest']; [now left|].
  change (orgOfParts (part :: next :: rest'))
    with (if String.eqb part "github.com" then next
          else orgOfParts (next :: rest')).
  destruct (String.eqb part "github.com").
  - right. right. now left.
  - destruct IH as [->|Hin]; [now left | right; now right].
Qed.

Lemma extractProjectInfo_org_no_slash (path : string) :
  hasSlash (snd (extractProjectInfo path)) = false.
Proof.
  unfold extractProjectInfo.
  destruct (_ || _); [reflexivity|]. simpl.
  destruct (orgOfParts_In (strings_Split path slash)) as [->|Hin];
    [reflexivity | exact (Split_no_slash _ _ Hin)].
Qed.

(** The key of a group determines the organization and the base, as long as
    the organization holds no slash. *)
Lemma key_inj (a b c d : string) :
  hasSlash a = false -> hasSlash c = false ->
  a +:+ "/" +:+ b = c +:+ "/" +:+ d -> a = c /\ b = d.
Proof.
  revert c. induction a as [|x a IH]; intros [|y c] Ha Hc Heq; simpl_append.
  - injection Heq as ->. auto.
  - injection Heq as <- _. apply orb_false_iff in Hc as [Hy _]. discriminate.
  - injection Heq as -> _. apply orb_false_iff in Ha as [Hx _]. discriminate.
  - injection Heq as -> Heq.
    apply orb_false_iff in Ha as [_ Ha]. apply orb_false_iff in Hc as [_ Hc].
    destruct (IH c Ha Hc Heq) as [-> ->]. auto.
Qed.

Section SummariesWellFormed.
Context `{GoLib}.
Variable fs : FileSystem.
Variable pi : ProjectIndexer.t.

Lemma loadProject_wellFormed (dirName : string) (p : Project.t) :
  loadProject fs pi dirName = Ok p ->
  hasSlash (Project.Org p) = false /\
  (0 <= Project.SessionCount p <= MaxInt)%Z.
Proof.
  intros Hload. apply loadProject_Ok in Hload as (idx & Hread & _ & ->). simpl.
  split; [apply extractProjectInfo_org_no_slash|].
  pose proof (ReadFile_fits fs _ _ Hread) as Hfits.
  unfold fits, len in *. rewrite sort_Slice_length. lia.
Qed.

Lemma ListProjectSummaries_Ok (summaries : list ProjectSummary.t) :
  ListProjectSummaries fs pi = Ok summaries ->
  exists projects,
    ListProjects fs pi = Ok projects /\
    summaries = computeBaseRepos (map summaryOf projects).
Proof.
  unfold ListProjectSummaries.
  destruct (ListProjects fs pi) as [projects|e]; [|discriminate].
  intros [= <-]. eauto.
Qed.

Lemma ListProjectSummaries_wellFormed (summaries : list ProjectSummary.t) :
  ListProjectSummaries fs pi = Ok summaries ->
  forall s, In s summaries -> wellFormed s.
Proof.
  intros Hsum s Hs.
  apply ListProjectSummaries_Ok in Hsum as (projects & Hlist & ->).
  unfold computeBaseRepos in Hs.
  apply in_map_iff in Hs as (s0 & <- & Hs0).
  apply in_map_iff in Hs0 as (p & <- & Hp).
  destruct (ListProjects_In fs pi _ _ Hlist Hp) as (entry & _ & _ & _ & _ & Hload).
  apply loadProject_wellFormed in Hload as [Horg Hcount].
  rewrite assignBase_fields. unfold wellFormed, summaryOf. simpl.
  destruct (Project.Sessions p); simpl; auto.
Qed.

End SummariesWellFormed.

Lemma sumSessions_app (ms ms' : list ProjectSummary.t) :
  sumSessions (ms ++ ms') = (sumSessions ms + sumSessions ms')%Z.
Proof. induction ms as [|s ms IH]; simpl; [reflexivity | rewrite IH; lia]. Qed.

Lemma sumSessions_perm (ms ms' : list ProjectSummary.t) :
  Permutation ms ms' -> sumSessions ms = sumSessions ms'.
Proof. induction 1; simpl; lia. Qed.

Lemma membersOf_snoc (key : string) (l : list ProjectSummary.t)
    (s : ProjectSummary.t) :
  membersOf key (l ++ [s])
  = membersOf key l ++ (if String.eqb (groupKey s) key then [s] else []).
Proof. unfold membersOf. now rewrite List.filter_app. Qed.

(** The first loop of [ListProjectGroups] keeps, under each key, the group
    of the summaries met so far that have this key. *)
Lemma addToGroup_loop (summaries : list ProjectSummary.t) :
  (forall s, In s summaries -> wellFormed s) ->
  forall key,
    match fold_left addToGroup summaries ∅ !! key with
    | Some g => GroupOf key (membersOf key summaries) g
    | None => membersOf key summaries = []
    end.
Proof.
  induction summaries as [|s l IH] using rev_ind; intros Hwf key.
  - simpl. now rewrite lookup_empty.
  - rewrite fold_left_app, membersOf_snoc. simpl.
    assert (Hl : forall x, In x l -> wellFormed x)
      by (intros x Hx; apply Hwf, in_or_app; now left).
    assert (Hs : wellFormed s) by (apply Hwf, in_or_app; right; now left).
    specialize (IH Hl). set (gm := fold_left addToGroup l ∅) in *.
    unfold addToGroup.
    destruct (String.eqb_spec (groupKey s) key) as [<-|Hne].
    + specialize (IH (groupKey s)).
      destruct (gm !! groupKey s) as [g|] eqn:Hg; rewrite lookup_insert_eq.
      * destruct IH as [Hprojects Hkey Horg Htotal (m & Hm & Hlast) Hmax].
        split; simpl.
        -- now rewrite Hprojects.
        -- exact Hkey.
        -- exact Horg.
        -- rewrite Htotal, sumSessions_app. unfold int_add.
           rewrite int_wrap_add. simpl. do 2 f_equal. lia.
        -- destruct (Time.After _ _).
           ++ exists s. split; [apply in_or_app; right; now left | reflexivity].
           ++ exists m. split; [apply in_or_app; now left | exact Hlast].
        -- intros x Hx. unfold Time.After.
           destruct (Z.ltb_spec (Time.unixNano (ProjectGroup.LastModified g))
                       (Time.unixNano (ProjectSummary.LastModified s))) as [Hlt|Hge];
             apply in_app_or in Hx as [Hx|[<-|[]]];
             try specialize (Hmax x Hx); lia.
      * rewrite IH. destruct Hs as [Horg Hcount]. split; simpl.
        -- reflexivity.
        -- reflexivity.
        -- exact Horg.
        -- rewrite int_wrap_small; unfold MaxInt in *; lia.
        -- exists s. split; [now left | reflexivity].
        -- intros x [<-|[]]. lia.
    + rewrite app_nil_r.
      destruct (gm !! groupKey s); rewrite lookup_insert_ne by assumption;
        apply IH.
Qed.

(** The groups of the map hold every summary once. *)
Lemma addToGroup_loop_members (summaries : list ProjectSummary.t) :
  Permutation
    (flat_map (fun kg => ProjectGroup.Projects (snd kg))
       (map_to_list (fold_left addToGroup summaries ∅)))
    summaries.
Proof.
  induction summaries as [|s l IH] using rev_ind.
  - simpl. now rewrite map_to_list_empty.
  - rewrite fold_left_app. simpl.
    set (gm := fold_left addToGroup l ∅) in *.
    rewrite <- Permutation_cons_append. unfold addToGroup.
    destruct (gm !! groupKey s) as [g|] eqn:Hg.
    + rewrite <- insert_delete_eq.
      rewrite map_to_list_insert by apply lookup_delete_eq.
      rewrite <- (map_to_list_delete gm _ _ Hg) in IH. simpl in *.
      rewrite <- IH, <- !app_assoc. simpl.
      rewrite <- Permutation_middle. reflexivity.
    + rewrite map_to_list_insert by assumption. simpl. now rewrite IH.
Qed.

Lemma sumSessions_nonneg (ms : list ProjectSummary.t) :
  (forall s, In s ms -> wellFormed s) -> (0 <= sumSessions ms)%Z.
Proof.
  induction ms as [|s ms IH]; simpl; intros Hwf; [lia|].
  destruct (Hwf s (or_introl eq_refl)) as [_ Hs].
  specialize (IH (fun x Hx => Hwf x (or_intror Hx))). lia.
Qed.

Section GroupsSpec.
Context `{GoLib}.

Lemma sortMembers_flat_map (kgs : list (string * ProjectGroup.t)) :
  Permutation
    (flat_map ProjectGroup.Projects (map (fun kg => sortMembers (snd kg)) kgs))
    (flat_map (fun kg => ProjectGroup.Projects (snd kg)) kgs).
Proof.
  induction kgs as [|kg kgs IH]; simpl; [reflexivity|].
  apply Permutation_app; [|exact IH].
  symmetry. apply sort_Slice_perm.
Qed.

Lemma groupSummaries_perm (summaries : list ProjectSummary.t) :
  Permutation (groupSummaries summaries)
    (map (fun kg => sortMembers (snd kg))
       (map_to_list (fold_left addToGroup summaries ∅))).
Proof.
  unfold groupSummaries. rewrite <- sort_Slice_perm.
  apply Permutation_map, map_range_perm.
Qed.

Lemma sortMembers_GroupInvariant (summaries : list ProjectSummary.t)
    (key : string) (g : ProjectGroup.t) :
  (forall s, In s summaries -> wellFormed s) ->
  GroupOf key (membersOf key summaries) g ->
  GroupInvariant (sortMembers g).
Proof.
  intros Hwf [Hprojects Hkey Horg Htotal (m & Hm & Hlast) Hmax].
  assert (Hperm : Permutation (membersOf key summaries)
                    (ProjectGroup.Projects (sortMembers g))).
  { simpl. rewrite Hprojects. apply sort_Slice_perm. }
  assert (Hin : forall s, In s (ProjectGroup.Projects (sortMembers g)) ->
                  In s summaries /\ groupKey s = key).
  { intros s Hs. apply (Permutation_in _ (Permutation_sym Hperm)) in Hs.
    apply List.filter_In in Hs as [Hs Hk]. now apply String.eqb_eq in Hk. }
  assert (Hsum : sumSessions (ProjectGroup.Projects (sortMembers g))
                 = sumSessions (membersOf key summaries))
    by (symmetry; now apply sumSessions_perm).
  unfold GroupInvariant. rewrite Hsum.
  split; [|split; [|split; [|split; [|split]]]].
  - intros s Hs. destruct (Hin s Hs) as [Hsin Hskey].
    destruct (Hwf s Hsin) as [Hsorg _].
    unfold groupKey in Hskey. rewrite Hkey in Hskey.
    exact (key_inj _ _ _ _ Hsorg Horg Hskey).
  - exact Htotal.
  - intros Hfits. simpl. rewrite Htotal. apply int_wrap_small.
    assert (0 <= sumSessions (membersOf key summaries))%Z; [|lia].
    apply sumSessions_nonneg. intros s Hs. apply Hwf.
    now apply List.filter_In in Hs as [Hs _].
  - exists m. split; [now apply (Permutation_in _ Hperm) | exact Hlast].
  - intros s Hs. apply Hmax. now apply (Permutation_in _ (Permutation_sym Hperm)).
  - apply (sort_Slice_After_NonIncreasing ProjectSummary.LastModified).
Qed.

(** The second half of [ListProjectGroups] on summaries that are well
    formed. *)
Lemma groupSummaries_Grouping (summaries : list ProjectSummary.t) :
  (forall s, In s summaries -> wellFormed s) ->
  Grouping summaries (groupSummaries summaries).
Proof.
  intros Hwf. pose proof (addToGroup_loop summaries Hwf) as Hloop.
  pose proof (groupSummaries_perm summaries) as Hperm.
  set (gm := fold_left addToGroup summaries ∅) in *.
  assert (Hgroup : forall k g, In (k, g) (map_to_list gm) ->
                     GroupOf k (membersOf k summaries) g).
  { intros k g Hkg. apply list_elem_of_In, elem_of_map_to_list in Hkg.
    specialize (Hloop k). now rewrite Hkg in Hloop. }
  split; [|split; [|split]].
  - rewrite Hperm, sortMembers_flat_map. apply addToGroup_loop_members.
  - rewrite Hperm.
    apply (NoDup_fmap_1 (fun ob : string * string => fst ob +:+ "/" +:+ snd ob)).
    pose proof (NoDup_fst_map_to_list gm) as Hkeys.
    replace ((fun ob : string * string => fst ob +:+ "/" +:+ snd ob) <$>
               map (fun g => (ProjectGroup.Org g, ProjectGroup.BaseRepo g))
                 (map (fun kg => sortMembers (snd kg)) (map_to_list gm)))
      with ((map_to_list gm).*1); [exact Hkeys|].
    change ((map_to_list gm).*1) with (map fst (map_to_list gm)).
    change (?f <$> ?l) with (map f l). rewrite !map_map.
    apply map_ext_in. intros [k g] Hkg. simpl.
    exact (group_key _ _ _ (Hgroup k g Hkg)).
  - unfold groupSummaries.
    apply (sort_Slice_After_NonIncreasing ProjectGroup.LastModified).
  - intros g Hg. apply (Permutation_in _ Hperm) in Hg.
    apply in_map_iff in Hg as ([k g0] & <- & Hkg). simpl.
    exact (sortMembers_GroupInvariant summaries k g0 Hwf (Hgroup k g0 Hkg)).
Qed.

(** C6. [ListProjectGroups] fails exactly when [ListProjectSummaries] does.
    Otherwise every summary is a member of one group, and once; the members
    of a group have its organization and its [BaseRepo], and no two groups
    have the same; [TotalSessions] is the sum of the members' [SessionCount]
    (in [int] arithmetic, hence the sum itself whenever that is an [int]);
    [LastModified] is the latest of the members'; the members of a group,
    and the groups, are in non-increasing order of [LastModified]. *)
Theorem ListProjectGroups_partitions (fs : FileSystem) (pi : ProjectIndexer.t) :
  match ListProjectSummaries fs pi with
  | Err err => ListProjectGroups fs pi = Err err
  | Ok summaries =>
      exists groups,
        ListProjectGroups fs pi = Ok groups /\ Grouping summaries groups
  end.
Proof.
  unfold ListProjectGroups.
  destruct (ListProjectSummaries fs pi) as [summaries|err] eqn:Hsum;
    [|reflexivity].
  exists (groupSummaries summaries). split; [reflexivity|].
  apply groupSummaries_Grouping.
  exact (ListProjectSummaries_wellFormed fs pi summaries Hsum).
Qed.

End GroupsSpec.

(** ** The sample tree

    The tables of the sample data satisfy the laws of [FileSystem]. *)

Lemma lookupPath_In {A} (table : list (string * A)) (name : string) (a : A) :
  lookupPath table name = Some a -> In (name, a) table.
Proof.
  unfold lookupPath.
  destruct (List.find _ table) as [[k v]|] eqn:Hfind; [|discriminate].
  intros [= <-]. apply List.find_some in Hfind as [Hin Hk].
  apply String.eqb_eq in Hk. simpl in Hk. now subst k.
Qed.

Lemma tableReadDir_good (dirs : list (string * list DirEntry.t))
    (name : string) (entries : list DirEntry.t) :
  forallb (fun row => goodListing (snd row)) dirs = true ->
  tableReadDir dirs name = Ok entries ->
  fits entries /\ NoDup (map DirEntry.Name entries).
Proof.
  intros Hgood. unfold tableReadDir.
  destruct (lookupPath dirs name) as [l|] eqn:Hl; [|discriminate].
  intros [= <-]. apply lookupPath_In in Hl.
  rewrite forallb_forall in Hgood. apply Hgood in Hl.
  apply andb_true_iff in Hl as [Hfits Hnodup]. simpl in *.
  split; [now apply fitsb_fits | now apply bool_decide_eq_true in Hnodup].
Qed.

Lemma tableReadFile_good (files : list (string * FileData))
    (name : string) (idx : sessionsIndex.t) :
  forallb (fun row => goodFile (snd row)) files = true ->
  tableReadFile files name = Ok (Ok idx) ->
  fits (sessionsIndex.Entries idx).
Proof.
  intros Hgood. unfold tableReadFile.
  destruct (lookupPath files name) as [data|] eqn:Hdata; [|discriminate].
  intros [= ->]. apply lookupPath_In in Hdata.
  rewrite forallb_forall in Hgood. apply Hgood in Hdata.
  now apply fitsb_fits.
Qed.

Definition tableFS (dirs : list (string * list DirEntry.t))
    (files : list (string * FileData)) (logs : list string)
    (Hdirs : forallb (fun row => goodListing (snd row)) dirs = true)
    (Hfiles : forallb (fun row => goodFile (snd row)) files = true)
  : FileSystem :=
  {| os_ReadDir := tableReadDir dirs;
     os_ReadFile := tableReadFile files;
     os_Stat := tableStat logs;
     ReadDir_fits := fun name entries Hread =>
       proj1 (tableReadDir_good dirs name entries Hdirs Hread);
     ReadDir_NoDup := fun name entries Hread =>
       proj2 (tableReadDir_good dirs name entries Hdirs Hread);
     ReadFile_fits := fun name idx Hread =>
       tableReadFile_good files name idx Hfiles Hread |}.

Definition sampleFS : FileSystem :=
  tableFS sampleDirs sampleFiles [] eq_refl eq_refl.

Definition sampleProjects : list Project.t :=
  Eval vm_compute in
    match @ListProjects refLib sampleFS sampleIndexer with
    | Ok projects => projects
    | Err _ => []
    end.

Definition sampleSummaries : list ProjectSummary.t :=
  Eval vm_compute in
    match @ListProjectSummaries refLib sampleFS sampleIndexer with
    | Ok summaries => summaries
    | Err _ => []
    end.

Lemma projects_and_sessions_most_recent_first_witness :
  @ListProjects refLib sampleFS sampleIndexer = Ok sampleProjects /\
  map Project.Name sampleProjects = ["repo"; "scratch"; "repo-wt"] /\
  NonIncreasing (fun p => Time.unixNano (Project.LastModified p)) sampleProjects.
Proof.
  split; [vm_compute; reflexivity|]. split; [reflexivity|].
  apply (proj2 (@projects_and_sessions_most_recent_first refLib sampleFS
                  sampleIndexer) sampleProjects).
  vm_compute. reflexivity.
Defined.

Lemma empty_index_is_not_found_witness :
  @loadProject refLib sampleFS sampleIndexer "-empty" = Err ErrNotExist.
Proof.
  apply (proj1 (@empty_index_is_not_found refLib sampleFS sampleIndexer)
           "-empty" (sessionsIndex.mk 1 [])).
  - vm_compute. reflexivity.
  - reflexivity.
Defined.

Lemma ListActiveTaskLists_live_sessions_witness :
  exists lists,
    @ListActiveTaskLists refLib sampleFS sampleIndexer = Ok lists /\
    map ActiveTaskList.SessionID lists = ["s1"; "s9"].
Proof.
  pose proof (@ListActiveTaskLists_live_sessions refLib sampleFS sampleIndexer)
    as Hlive.
  hnf in Hlive. destruct Hlive as (lists & Hlists & Hids & _).
  exists lists. split; [exact Hlists|].
  rewrite Hids. vm_compute. reflexivity.
Defined.

Lemma ListProjectGroups_partitions_witness :
  exists groups,
    @ListProjectGroups refLib sampleFS sampleIndexer = Ok groups /\
    Grouping sampleSummaries groups.
Proof.
  pose proof (@ListProjectGroups_partitions refLib sampleFS sampleIndexer)
    as Hgroups.
  replace (@ListProjectSummaries refLib sampleFS sampleIndexer)
    with (Ok sampleSummaries) in Hgroups by (vm_compute; reflexivity).
  exact Hgroups.
Defined.

Lemma GetTaskCount_counts_json_witness :
  @GetTaskCount refLib sampleFS sampleIndexer "s1" = 2%Z /\
  @GetTaskCount refLib sampleFS sampleIndexer "no-such-session" = 0%Z.
Proof.
  split.
  - pose proof (proj2 (@GetTaskCount_counts_json refLib sampleFS sampleIndexer
                         "s1")) as Hcount.
    hnf in Hcount. rewrite Hcount. reflexivity.
  - pose proof (proj2 (@GetTaskCount_counts_json refLib sampleFS sampleIndexer
                         "no-such-session")) as Hcount.
    hnf in Hcount. exact Hcount.
Defined.

Lemma HasTasks_iff_GetTaskCount_pos_witness :
  @HasTasks refLib sampleFS sampleIndexer "s2" = false /\
  @GetTaskCount refLib sampleFS sampleIndexer "s2" = 0%Z.
Proof.
  apply (proj2 (proj2 (@HasTasks_iff_GetTaskCount_pos refLib sampleFS
                         sampleIndexer "s2"))
           [DirEntry.mk ".lock" false]).
  - vm_compute. reflexivity.
  - intros e [<-|[]]. reflexivity.
Defined.

(** * Further properties *)

(** ** Names from directory names *)

(** How [strings.Split] on the dash sees a name: the first piece holds no
    dash; the last piece that is not empty, when it is not the first, comes
    right after a dash and is followed by dashes only; when there is none
    after the first piece, the name is the first piece and dashes. *)
Lemma Split_dash_last (s : string) :
  exists piece pieces,
    strings_Split s dash = piece :: pieces /\
    hasDash piece = false /\
    match lastNonEmpty (rev pieces) with
    | Some p =>
        hasDash p = false /\
        exists pre post, s = pre +:+ "-" +:+ p +:+ post /\ onlyDashes post = true
    | None => exists post, s = piece +:+ post /\ onlyDashes post = true
    end.
Proof.
  induction s as [|c s (p0 & ps0 & Hsplit & Hp0 & IH)].
  - exists "", []. simpl. repeat split. exists "". auto.
  - simpl strings_Split. rewrite Hsplit.
    destruct (Ascii.eqb_spec c dash) as [->|Hc].
    + exists "", (p0 :: ps0). split; [reflexivity|]. split; [reflexivity|].
      simpl rev. rewrite lastNonEmpty_snoc.
      destruct (lastNonEmpty (rev ps0)) as [p|].
      * destruct IH as (Hp & pre & post & -> & Hpost). split; [exact Hp|].
        exists (String dash pre), post. auto.
      * destruct IH as (post & -> & Hpost).
        destruct (String.eqb_spec p0 "") as [->|Hne].
        -- exists (String dash post). simpl. split; [reflexivity|].
           now rewrite Hpost.
        -- split; [exact Hp0|]. exists "", post. auto.
    + exists (String c p0), ps0. split; [reflexivity|].
      apply Ascii.eqb_neq in Hc. split; [simpl; now rewrite Hc|].
      destruct (lastNonEmpty (rev ps0)) as [p|].
      * destruct IH as (Hp & pre & post & -> & Hpost). split; [exact Hp|].
        exists (String c pre), post. auto.
      * destruct IH as (post & -> & Hpost). exists post. auto.
Qed.

Lemma onlyDashes_append (a b : string) :
  onlyDashes (a +:+ b) = onlyDashes a && onlyDashes b.
Proof.
  induction a as [|c a IH]; [reflexivity|].
  rewrite append_cons. simpl. rewrite IH. now rewrite andb_assoc.
Qed.

Lemma hasDash_onlyDashes (s : string) :
  hasDash s = false -> onlyDashes s = true -> s = "".
Proof.
  destruct s as [|c s]; [reflexivity|]. simpl.
  intros Hno Honly. apply orb_false_iff in Hno as [Hc _].
  apply andb_true_iff in Honly as [Hc' _]. congruence.
Qed.

(** X1. [extractProjectName] returns a name of dashes only unchanged. On any
    other name it returns the last stretch without a dash: it is not empty,
    holds no dash, is followed in the name by dashes only, and starts the
    name or comes right after a dash. *)
Theorem extractProjectName_last_stretch (dirName : string) :
  (onlyDashes dirName = true -> extractProjectName dirName = dirName) /\
  (onlyDashes dirName = false ->
     extractProjectName dirName <> "" /\
     hasDash (extractProjectName dirName) = false /\
     exists pre post,
       dirName = pre +:+ extractProjectName dirName +:+ post /\
       onlyDashes post = true /\
       (pre = "" \/ exists pre', pre = pre' +:+ "-")).
Proof.
  unfold extractProjectName.
  destruct (Split_dash_last dirName) as (piece & pieces & Hsplit & Hpiece & Hlast).
  rewrite Hsplit. simpl rev. rewrite lastNonEmpty_snoc.
  destruct (lastNonEmpty (rev pieces)) as [p|] eqn:Hp.
  - destruct Hlast as (Hpd & pre & post & Hname & Hpost).
    destruct (lastNonEmpty_Some _ _ Hp) as [Hne _].
    split.
    + intros Honly. exfalso. rewrite Hname in Honly.
      rewrite !onlyDashes_append, Hpost in Honly.
      apply andb_true_iff in Honly as [_ Honly].
      apply andb_true_iff in Honly as [_ Honly].
      apply andb_true_iff in Honly as [Honly _].
      apply Hne. now apply hasDash_onlyDashes.
    + intros _. split; [exact Hne|]. split; [exact Hpd|].
      exists (pre +:+ "-"), post. split.
      * now rewrite append_assoc.
      * split; [exact Hpost | right; eauto].
  - destruct Hlast as (post & Hname & Hpost).
    destruct (String.eqb_spec piece "") as [->|Hne].
    + split; [reflexivity|]. intros Honly. exfalso.
      rewrite Hname, append_nil, Hpost in Honly. discriminate.
    + split.
      * intros Honly. exfalso. rewrite Hname, onlyDashes_append in Honly.
        apply andb_true_iff in Honly as [Honly _].
        apply Hne. now apply hasDash_onlyDashes.
      * intros _. split; [exact Hne|]. split; [exact Hpiece|].
        exists "", post. rewrite append_nil. auto.
Qed.

(** ** What loading keeps *)

Section LoadingMore.
Context `{GoLib}.
Variable fs : FileSystem.
Variable pi : ProjectIndexer.t.

(** X2. [loadProject] returns the error of reading the index file, or the
    error of decoding it, or [os.ErrNotExist] for an index without entry;
    in every other case it succeeds, with the sessions of the index in some
    order, their number as [SessionCount], and the argument as [DirName]. *)
Theorem loadProject_outcome (dirName : string) :
  match os_ReadFile fs (indexPathOf pi dirName) with
  | Err err => loadProject fs pi dirName = Err err
  | Ok (Err err) => loadProject fs pi dirName = Err err
  | Ok (Ok idx) =>
      match sessionsIndex.Entries idx with
      | [] => loadProject fs pi dirName = Err ErrNotExist
      | _ :: _ =>
          exists p,
            loadProject fs pi dirName = Ok p /\
            Permutation (sessionsIndex.Entries idx) (Project.Sessions p) /\
            Project.SessionCount p = len (sessionsIndex.Entries idx) /\
            (1 <= Project.SessionCount p <= MaxInt)%Z /\
            Project.DirName p = dirName
      end
  end.
Proof.
  destruct (os_ReadFile fs (indexPathOf pi dirName)) as [[idx|err]|err] eqn:Hread.
  - destruct (sessionsIndex.Entries idx) as [|e entries] eqn:Hentries.
    + exact (loadProject_empty_index fs pi _ _ Hread Hentries).
    + pose proof (ReadFile_fits fs _ _ Hread) as Hfits.
      unfold loadProject, json_Unmarshal. rewrite Hread, Hentries.
      change (len (e :: entries) =? 0)%Z with false. cbv iota.
      destruct (extractProjectInfo _) as [[name shortname] org].
      eexists. split; [reflexivity|]. simpl.
      split; [apply sort_Slice_perm|].
      unfold len. rewrite sort_Slice_length.
      rewrite Hentries in Hfits. unfold fits, len in Hfits. simpl in *.
      repeat split; lia.
  - unfold loadProject, json_Unmarshal. now rewrite Hread.
  - unfold loadProject. now rewrite Hread.
Qed.

(** X3. The name of a loaded project comes from the project path of its
    most recent session: its final component when there is one other than
    the dot, as [Name] and [Shortname]. When that path is empty or ends in
    the dot, [Name] falls back to the directory name, while [Shortname] and
    [Org] stay empty. *)
Theorem loadProject_names (dirName : string) (p : Project.t) :
  loadProject fs pi dirName = Ok p ->
  (exists first, Project.Sessions p !! 0 = Some first /\
     Project.Path p = SessionEntry.ProjectPath first /\
     Project.LastModified p = SessionEntry.Modified first) /\
  (forall c, finalComponent (Project.Path p) = Some c -> c <> "." ->
     Project.Name p = c /\ Project.Shortname p = c) /\
  (Project.Path p = "" \/ finalComponent (Project.Path p) = Some "." ->
     Project.Name p = dirName /\ Project.Shortname p = "" /\ Project.Org p = "") /\
  (dirName <> "" -> Project.Name p <> "").
Proof.
  intros Hload.
  destruct (loadProject_first_in_range fs pi _ _ Hload)
    as (first & Hfirst & Hnth & Hlast & Hpath).
  split; [eauto|].
  apply loadProject_Ok in Hload as (idx & _ & _ & Hp).
  cbv zeta in Hp.
  assert (Hsessions : Project.Sessions p
            = sort_Slice lessModified (sessionsIndex.Entries idx))
    by (rewrite Hp; reflexivity).
  rewrite <- Hsessions, Hnth, <- Hpath in Hp.
  set (path := Project.Path p) in *.
  assert (Hname : Project.Name p
            = if String.eqb (fst (fst (extractProjectInfo path))) "" then dirName
              else fst (fst (extractProjectInfo path)))
    by (rewrite Hp at 1; reflexivity).
  assert (Hshort : Project.Shortname p = snd (fst (extractProjectInfo path)))
    by (rewrite Hp at 1; reflexivity).
  assert (Horg : Project.Org p = snd (extractProjectInfo path))
    by (rewrite Hp at 1; reflexivity).
  rewrite Hname, Hshort, Horg. clear Hp Hname Hshort Horg.
  split; [|split].
  - intros c Hfinal Hdot. unfold extractProjectInfo.
    rewrite (Base_finalComponent _ _ Hfinal).
    destruct (lastNonEmpty_Some _ _ Hfinal) as [Hne _].
    apply String.eqb_neq in Hne, Hdot. rewrite Hne, Hdot. simpl.
    now rewrite Hne.
  - intros [Hempty|Hfinal].
    + rewrite Hempty. auto.
    + unfold extractProjectInfo. rewrite (Base_finalComponent _ _ Hfinal). auto.
  - intros Hdir. destruct (String.eqb_spec (fst (fst (extractProjectInfo path))) "");
      assumption.
Qed.

(** X4. [ListProjects] fails only when the projects directory cannot be
    listed, with the error of the listing. Otherwise every directory of the
    listing that loads gives one project, found under its name; entries
    that are not directories, and directories that fail to load, give
    none; no two projects of the result have the same [DirName]. *)
Theorem ListProjects_listing :
  match os_ReadDir fs (ProjectIndexer.projectsDir pi) with
  | Err err => ListProjects fs pi = Err err
  | Ok entries =>
      exists projects,
        ListProjects fs pi = Ok projects /\
        NoDup (map Project.DirName projects) /\
        forall p, In p projects <->
          exists entry, In entry entries /\ DirEntry.IsDir entry = true /\
                        Project.DirName p = DirEntry.Name entry /\
                        loadProject fs pi (DirEntry.Name entry) = Ok p
  end.
Proof.
  unfold ListProjects.
  destruct (os_ReadDir fs (ProjectIndexer.projectsDir pi)) as [entries|err] eqn:Hdir;
    [|reflexivity].
  rewrite appendProject_loop. simpl.
  exists (sort_Slice lessProject (flat_map (loadedFrom fs pi) entries)).
  split; [reflexivity|].
  assert (Hloaded : forall entry p, In p (loadedFrom fs pi entry) <->
            DirEntry.IsDir entry = true /\
            loadProject fs pi (DirEntry.Name entry) = Ok p).
  { intros entry p. unfold loadedFrom.
    destruct (DirEntry.IsDir entry); simpl; [|split; [intros [] | intros [? _]; discriminate]].
    destruct (loadProject fs pi (DirEntry.Name entry)) as [q|e].
    - split; [intros [<-|[]]; auto | intros [_ [= <-]]; now left].
    - split; [intros [] | intros [_ ?]; discriminate]. }
  assert (Hdirname : forall d p, loadProject fs pi d = Ok p -> Project.DirName p = d).
  { intros d p Hload. apply loadProject_Ok in Hload as (idx & _ & _ & ->).
    reflexivity. }
  split.
  - rewrite <- sort_Slice_perm.
    pose proof (ReadDir_NoDup fs _ _ Hdir) as Hnodup.
    clear Hdir. induction entries as [|e entries IH]; simpl; [constructor|].
    inversion Hnodup as [|x k Hx Hk]; subst.
    rewrite map_app. apply NoDup_app. split; [|split; [|now apply IH]].
    + unfold loadedFrom. destruct (negb (DirEntry.IsDir e)); [constructor|].
      destruct (loadProject fs pi (DirEntry.Name e)); repeat constructor.
      intros Hin. inversion Hin.
    + intros d Hd Hd'. apply Hx.
      apply list_elem_of_In, in_map_iff in Hd as (p & <- & Hp).
      apply list_elem_of_In, in_map_iff in Hd' as (q & Hq & Hqin).
      apply Hloaded in Hp as [_ Hp]. apply Hdirname in Hp. rewrite Hp in Hq.
      apply in_flat_map in Hqin as (entry & Hentry & Hqin).
      apply Hloaded in Hqin as [_ Hqin]. apply Hdirname in Hqin.
      apply list_elem_of_In, in_map_iff. exists entry. split; [congruence | assumption].
  - intros p. rewrite sort_Slice_In, in_flat_map. split.
    + intros (entry & Hentry & Hp). apply Hloaded in Hp as [HisDir Hload].
      exists entry. repeat split; try assumption. now apply Hdirname.
    + intros (entry & Hentry & HisDir & _ & Hload).
      exists entry. split; [assumption|]. now apply Hloaded.
Qed.

End LoadingMore.

(** ** Looking up *)

Section Lookups.
Context `{GoLib}.
Variable fs : FileSystem.
Variable pi : ProjectIndexer.t.

Lemma firstWithPath_Ok (path : string) (projects : list Project.t) (p : Project.t) :
  firstWithPath path projects = Ok p ->
  exists before after,
    projects = before ++ p :: after /\ Project.Path p = path /\
    forall q, In q before -> Project.Path q <> path.
Proof.
  induction projects as [|q projects IH]; simpl; [discriminate|].
  destruct (String.eqb_spec (Project.Path q) path) as [Hq|Hq].
  - intros [= <-]. exists [], projects. split; [reflexivity|].
    split; [exact Hq | intros x []].
  - intros Hfirst. destruct (IH Hfirst) as (before & after & -> & Hp & Hbefore).
    exists (q :: before), after. split; [reflexivity|]. split; [exact Hp|].
    intros x [<-|Hx]; [exact Hq | now apply Hbefore].
Qed.

Lemma firstWithPath_Err (path : string) (projects : list Project.t) (err : error) :
  firstWithPath path projects = Err err ->
  err = ErrNotExist /\ forall q, In q projects -> Project.Path q <> path.
Proof.
  induction projects as [|q projects IH]; simpl.
  - intros [= <-]. split; [reflexivity | intros x []].
  - destruct (String.eqb_spec (Project.Path q) path) as [Hq|Hq]; [discriminate|].
    intros Hfirst. destruct (IH Hfirst) as [-> Hnone]. split; [reflexivity|].
    intros x [<-|Hx]; [exact Hq | now apply Hnone].
Qed.

(** X5. [GetProjectByPath] returns the error of [ListProjects] when it
    fails. Otherwise it returns a listed project with the path asked for,
    and none of the listed projects with that path was modified later; it
    fails, with [os.ErrNotExist], exactly when no listed project has the
    path. *)
Theorem GetProjectByPath_most_recent (path : string) :
  match ListProjects fs pi with
  | Err err => GetProjectByPath fs pi path = Err err
  | Ok projects =>
      (forall p, GetProjectByPath fs pi path = Ok p ->
         In p projects /\ Project.Path p = path /\
         forall q, In q projects -> Project.Path q = path ->
           (Time.unixNano (Project.LastModified q)
            <= Time.unixNano (Project.LastModified p))%Z) /\
      (forall err, GetProjectByPath fs pi path = Err err -> err = ErrNotExist) /\
      ((exists err, GetProjectByPath fs pi path = Err err) <->
       forall q, In q projects -> Project.Path q <> path)
  end.
Proof.
  unfold GetProjectByPath.
  destruct (ListProjects fs pi) as [projects|err] eqn:Hlist; [|reflexivity].
  assert (Hsorted : NonIncreasing
            (fun p => Time.unixNano (Project.LastModified p)) projects).
  { apply ListProjects_Ok in Hlist as (entries & _ & ->).
    apply (sort_Slice_After_NonIncreasing Project.LastModified). }
  split; [|split].
  - intros p Hp.
    destruct (firstWithPath_Ok _ _ _ Hp) as (before & after & -> & Hpath & Hbefore).
    split; [apply in_or_app; right; now left|]. split; [exact Hpath|].
    intros q Hq Hqpath.
    apply in_app_or in Hq as [Hq|Hq]; [destruct (Hbefore q Hq Hqpath)|].
    apply list_elem_of_In, list_elem_of_lookup in Hq as [j Hj].
    apply (Hsorted (length before) (length before + j) p q); [lia | |].
    + now rewrite lookup_app_r, Nat.sub_diag by lia.
    + rewrite lookup_app_r by lia.
      now replace (length before + j - length before) with j by lia.
  - intros err Herr. now apply firstWithPath_Err in Herr as [-> _].
  - split.
    + intros [err Herr]. now apply firstWithPath_Err in Herr as [_ Hnone].
    + intros Hnone. destruct (firstWithPath path projects) as [p|err] eqn:Hfirst;
        [|eauto].
      destruct (firstWithPath_Ok _ _ _ Hfirst) as (before & after & -> & Hpath & _).
      destruct (Hnone p); [apply in_or_app; right; now left | exact Hpath].
Qed.

(** The inner loop of [buildSessionProjectMap] leaves under a session what
    its last entry for the session says, or what was there. *)
Lemma recordSession_loop_lookup (projectName dirName sessionID : string)
    (entries : list SessionEntry.t) (m : gmap string projectInfo.t) :
  fold_left (recordSession projectName dirName) entries m !! sessionID
  = match List.find (fun e => String.eqb (SessionEntry.SessionID e) sessionID)
            (rev entries) with
    | Some e =>
        Some (projectInfo.mk projectName dirName (SessionEntry.Summary e)
                (SessionEntry.FirstPrompt e))
    | None => m !! sessionID
    end.
Proof.
  induction entries as [|e entries IH] using rev_ind; [reflexivity|].
  rewrite fold_left_app, rev_app_distr. simpl. unfold recordSession at 1.
  destruct (String.eqb_spec (SessionEntry.SessionID e) sessionID) as [<-|Hne].
  - now rewrite lookup_insert_eq.
  - rewrite lookup_insert_ne by assumption. exact IH.
Qed.

(** The map after the directories [dirs]: under a session, the entry of the
    last directory whose index holds the session. *)
Lemma recordProject_loop_lookup (sessionID : string) (dirs : list DirEntry.t) :
  match fold_left (recordProject fs pi) dirs ∅ !! sessionID with
  | Some info =>
      exists before dir after entry,
        dirs = before ++ dir :: after /\
        indexHolds fs pi dir sessionID entry /\
        info = infoOf dir entry /\
        forall d e, In d after -> ~ indexHolds fs pi d sessionID e
  | None => forall d e, In d dirs -> ~ indexHolds fs pi d sessionID e
  end.
Proof.
  induction dirs as [|dir dirs IH] using rev_ind.
  - simpl. rewrite lookup_empty. intros d e [].
  - rewrite fold_left_app. simpl.
    set (m := fold_left (recordProject fs pi) dirs ∅) in *.
    assert (Hkeep : (forall e, ~ indexHolds fs pi dir sessionID e) ->
      match m !! sessionID with
      | Some info =>
          exists before dir0 after entry,
            dirs ++ [dir] = before ++ dir0 :: after /\
            indexHolds fs pi dir0 sessionID entry /\
            info = infoOf dir0 entry /\
            forall d e, In d after -> ~ indexHolds fs pi d sessionID e
      | None => forall d e, In d (dirs ++ [dir]) -> ~ indexHolds fs pi d sessionID e
      end).
    { intros Hdir. destruct (m !! sessionID) as [info|].
      - destruct IH as (before & dir0 & after & entry & -> & Hholds & Hinfo & Hafter).
        exists before, dir0, (after ++ [dir]), entry.
        split; [now rewrite <- app_assoc|]. split; [exact Hholds|].
        split; [exact Hinfo|].
        intros d e Hd. apply in_app_or in Hd as [Hd|[<-|[]]];
          [now apply Hafter | apply Hdir].
      - intros d e Hd. apply in_app_or in Hd as [Hd|[<-|[]]];
          [now apply IH | apply Hdir]. }
    unfold recordProject, json_Unmarshal.
    destruct (DirEntry.IsDir dir) eqn:HisDir; simpl.
    2: { apply Hkeep. intros e [Hd _]. congruence. }
    destruct (os_ReadFile fs (indexPathOf pi (DirEntry.Name dir)))
      as [[idx|err]|err] eqn:Hread.
    2, 3: apply Hkeep; intros e [_ (idx' & Hread' & _)]; congruence.
    rewrite recordSession_loop_lookup.
    destruct (List.find _ (rev (sessionsIndex.Entries idx))) as [e|] eqn:Hfind.
    + apply List.find_some in Hfind as [He Hid].
      apply in_rev in He. apply String.eqb_eq in Hid.
      exists dirs, dir, [], e. split; [reflexivity|]. split.
      * split; [exact HisDir|]. exists idx. auto.
      * split; [reflexivity | intros d e' []].
    + apply Hkeep. intros e [_ (idx' & Hread' & He & Hid)].
      assert (idx' = idx) by congruence. subst idx'.
      apply in_rev in He.
      pose proof (List.find_none _ _ Hfind e He) as Hno. simpl in Hno.
      apply String.eqb_neq in Hno. contradiction.
Qed.

(** X6. [buildSessionProjectMap] has an entry for a session exactly when
    the index of some directory of the projects directory holds the
    session. The entry comes from the last such directory of the listing:
    its directory name as path, the name [extractProjectName] makes of it,
    and the summary and first prompt of an entry of its index for the
    session. When the projects directory cannot be listed the map is
    empty. *)
Theorem buildSessionProjectMap_lookup (sessionID : string) :
  match os_ReadDir fs (ProjectIndexer.projectsDir pi) with
  | Err _ => buildSessionProjectMap fs pi = ∅
  | Ok dirs =>
      match buildSessionProjectMap fs pi !! sessionID with
      | Some info =>
          exists before dir after entry,
            dirs = before ++ dir :: after /\
            indexHolds fs pi dir sessionID entry /\
            info = infoOf dir entry /\
            forall d e, In d after -> ~ indexHolds fs pi d sessionID e
      | None => forall d e, In d dirs -> ~ indexHolds fs pi d sessionID e
      end
  end.
Proof.
  unfold buildSessionProjectMap.
  destruct (os_ReadDir fs (ProjectIndexer.projectsDir pi)) as [dirs|err];
    [|reflexivity].
  apply recordProject_loop_lookup.
Qed.

Lemma probeJSONL_first (sessionID : string) (dirs : list DirEntry.t) :
  match probeJSONL fs pi (sessionID +:+ ".jsonl") dirs with
  | (info, true) =>
      exists before dir after,
        dirs = before ++ dir :: after /\
        logFileIn fs pi dir sessionID /\
        (forall d, In d before -> ~ logFileIn fs pi d sessionID) /\
        info = projectInfo.mk (extractProjectName (DirEntry.Name dir))
                 (DirEntry.Name dir) "" ""
  | (info, false) =>
      info = projectInfo.zero /\
      forall d, In d dirs -> ~ logFileIn fs pi d sessionID
  end.
Proof.
  induction dirs as [|dir dirs IH]; simpl.
  - split; [reflexivity | intros d []].
  - assert (Hskip : ~ logFileIn fs pi dir sessionID ->
      match probeJSONL fs pi (sessionID +:+ ".jsonl") dirs with
      | (info, true) =>
          exists before dir0 after,
            dir :: dirs = before ++ dir0 :: after /\
            logFileIn fs pi dir0 sessionID /\
            (forall d, In d before -> ~ logFileIn fs pi d sessionID) /\
            info = projectInfo.mk (extractProjectName (DirEntry.Name dir0))
                     (DirEntry.Name dir0) "" ""
      | (info, false) =>
          info = projectInfo.zero /\
          forall d, In d (dir :: dirs) -> ~ logFileIn fs pi d sessionID
      end).
    { intros Hdir.
      destruct (probeJSONL fs pi (sessionID +:+ ".jsonl") dirs) as [info [|]].
      - destruct IH as (before & dir0 & after & -> & Hlog & Hbefore & Hinfo).
        exists (dir :: before), dir0, after. split; [reflexivity|].
        split; [exact Hlog|]. split; [|exact Hinfo].
        intros d [<-|Hd]; [exact Hdir | now apply Hbefore].
      - destruct IH as [Hinfo Hnone]. split; [exact Hinfo|].
        intros d [<-|Hd]; [exact Hdir | now apply Hnone]. }
    destruct (DirEntry.IsDir dir) eqn:HisDir; simpl.
    2: { apply Hskip. intros [Hd _]. congruence. }
    destruct (os_Stat fs _) as [[]|err] eqn:Hstat.
    + exists [], dir, dirs. split; [reflexivity|]. split; [split; assumption|].
      split; [intros d [] | reflexivity].
    + apply Hskip. intros [_ Hd]. congruence.
Qed.

(** X7. [findProjectByJSONL] answers true exactly when some directory of the
    projects directory holds the log file of the session, and then with the
    first such directory of the listing: its name as path, the name
    [extractProjectName] makes of it, and no summary nor first prompt. It
    answers false, with the zero value, otherwise, and when the projects
    directory cannot be listed. *)
Theorem findProjectByJSONL_first (sessionID : string) :
  match os_ReadDir fs (ProjectIndexer.projectsDir pi) with
  | Err _ => findProjectByJSONL fs pi sessionID = (projectInfo.zero, false)
  | Ok dirs =>
      match findProjectByJSONL fs pi sessionID with
      | (info, true) =>
          exists before dir after,
            dirs = before ++ dir :: after /\
            logFileIn fs pi dir sessionID /\
            (forall d, In d before -> ~ logFileIn fs pi d sessionID) /\
            info = projectInfo.mk (extractProjectName (DirEntry.Name dir))
                     (DirEntry.Name dir) "" ""
      | (info, false) =>
          info = projectInfo.zero /\
          forall d, In d dirs -> ~ logFileIn fs pi d sessionID
      end
  end.
Proof.
  unfold findProjectByJSONL.
  destruct (os_ReadDir fs (ProjectIndexer.projectsDir pi)) as [dirs|err];
    [|reflexivity].
  apply probeJSONL_first.
Qed.

End Lookups.

Section ActiveContext.
Context `{GoLib}.
Variable fs : FileSystem.
Variable pi : ProjectIndexer.t.

(** X8. An entry of [ListActiveTaskLists] has as [TaskDir] the directory of
    its session under the tasks directory. When the index of some project
    directory holds the session, the context of the entry comes from the
    last such directory of the listing of the projects directory, whether or
    not a log file of the session exists. Otherwise, when some project
    directory holds the log file of the session, the context names the first
    such directory, with no summary nor first prompt. *)
Theorem ListActiveTaskLists_context (lists : list ActiveTaskList.t)
    (a : ActiveTaskList.t) :
  ListActiveTaskLists fs pi = Ok lists -> In a lists ->
  let sessionID := ActiveTaskList.SessionID a in
  ActiveTaskList.TaskDir a = taskDirOf pi sessionID /\
  forall dirs, os_ReadDir fs (ProjectIndexer.projectsDir pi) = Ok dirs ->
    ((exists dir entry, In dir dirs /\ indexHolds fs pi dir sessionID entry) ->
     exists before dir after entry,
       dirs = before ++ dir :: after /\
       indexHolds fs pi dir sessionID entry /\
       contextOf a = infoOf dir entry /\
       forall d e, In d after -> ~ indexHolds fs pi d sessionID e) /\
    ((forall dir entry, In dir dirs -> ~ indexHolds fs pi dir sessionID entry) ->
     (exists dir, In dir dirs /\ logFileIn fs pi dir sessionID) ->
     exists before dir after,
       dirs = before ++ dir :: after /\
       logFileIn fs pi dir sessionID /\
       (forall d, In d before -> ~ logFileIn fs pi d sessionID) /\
       contextOf a
       = projectInfo.mk (extractProjectName (DirEntry.Name dir))
           (DirEntry.Name dir) "" "").
Proof.
  unfold ListActiveTaskLists.
  destruct (os_ReadDir fs (ProjectIndexer.tasksDir pi)) as [entries|err];
    [|discriminate].
  intros [= <-] Ha. rewrite appendActive_loop in Ha. simpl in Ha.
  apply in_flat_map in Ha as (entry & _ & Ha).
  unfold activeFrom, appendActive in Ha.
  destruct (DirEntry.IsDir entry); simpl in Ha; [|destruct Ha].
  destruct (0 <? GetTaskCount fs pi (DirEntry.Name entry))%Z; [|destruct Ha].
  pose proof (recordProject_loop_lookup fs pi (DirEntry.Name entry)) as Hmap.
  pose proof (probeJSONL_first fs pi (DirEntry.Name entry)) as Hprobe.
  unfold buildSessionProjectMap, findProjectByJSONL in Ha.
  destruct (os_ReadDir fs (ProjectIndexer.projectsDir pi)) as [dirs|err] eqn:Hdirs.
  - specialize (Hmap dirs). specialize (Hprobe dirs).
    destruct (fold_left (recordProject fs pi) dirs ∅ !! DirEntry.Name entry)
      as [info|].
    + destruct Ha as [<-|[]]. simpl. split; [reflexivity|].
      intros dirs' [= <-]. split.
      * intros _. destruct Hmap as (before & dir & after & e & Hsplit & Hholds
                                      & -> & Hafter).
        exists before, dir, after, e. auto.
      * intros Hnone _.
        destruct Hmap as (before & dir & after & e & -> & Hholds & _).
        destruct (Hnone dir e); [apply in_or_app; right; now left | exact Hholds].
    + destruct (probeJSONL fs pi (DirEntry.Name entry +:+ ".jsonl") dirs)
        as [info [|]]; destruct Ha as [<-|[]]; simpl;
        (split; [reflexivity|]); intros dirs' [= <-]; split.
      * intros (dir & e & Hdir & Hholds). destruct (Hmap dir e Hdir Hholds).
      * intros _ _.
        destruct Hprobe as (before & dir & after & Hsplit & Hlog & Hbefore & ->).
        exists before, dir, after. auto.
      * intros (dir & e & Hdir & Hholds). destruct (Hmap dir e Hdir Hholds).
      * intros _ (dir & Hdir & Hlog). destruct Hprobe as [_ Hnone].
        destruct (Hnone dir Hdir Hlog).
  - rewrite lookup_empty in Ha. destruct Ha as [<-|[]]. simpl.
    split; [reflexivity|]. intros dirs [=].
Qed.

End ActiveContext.

(** ** Summaries *)

Section SummariesMore.
Context `{GoLib}.
Variable fs : FileSystem.
Variable pi : ProjectIndexer.t.

Lemma summaryOf_first (p : Project.t) (first : SessionEntry.t) :
  Project.Sessions p !! 0 = Some first ->
  summaryOf p
  = ProjectSummary.mk (Project.Name p) (Project.Path p) (Project.DirName p)
      (Project.Shortname p) (Project.Org p) "" (Project.SessionCount p)
      (Project.LastModified p) (SessionEntry.GitBranch first)
      (SessionEntry.Summary first).
Proof.
  unfold summaryOf. destruct (Project.Sessions p) as [|s sessions]; [discriminate|].
  now intros [= ->].
Qed.

(** X9. [ListProjectSummaries] fails exactly as [ListProjects] does.
    Otherwise it gives one summary for each listed project, in the same
    order, hence most recent first. The summary copies the name, path,
    directory name, short name, organization, session count and last
    modification of the project, and a listed project always has a first
    session, which gives the branch and the summary. *)
Theorem ListProjectSummaries_of_projects :
  match ListProjects fs pi with
  | Err err => ListProjectSummaries fs pi = Err err
  | Ok projects =>
      exists summaries,
        ListProjectSummaries fs pi = Ok summaries /\
        length summaries = length projects /\
        NonIncreasing (fun s => Time.unixNano (ProjectSummary.LastModified s))
          summaries /\
        forall i p, projects !! i = Some p ->
          exists s first,
            summaries !! i = Some s /\
            Project.Sessions p !! 0 = Some first /\
            s = ProjectSummary.mk (Project.Name p) (Project.Path p)
                  (Project.DirName p) (Project.Shortname p) (Project.Org p)
                  (ProjectSummary.BaseRepo s) (Project.SessionCount p)
                  (SessionEntry.Modified first) (SessionEntry.GitBranch first)
                  (SessionEntry.Summary first)
  end.
Proof.
  unfold ListProjectSummaries.
  destruct (ListProjects fs pi) as [projects|err] eqn:Hlist; [|reflexivity].
  set (m := sortedOrgRepos (map summaryOf projects)).
  assert (Hlookup : forall i p, projects !! i = Some p ->
            computeBaseRepos (map summaryOf projects) !! i
            = Some (assignBase m (summaryOf p))).
  { intros i p Hp. unfold computeBaseRepos. fold m.
    change (map (assignBase m) (map summaryOf projects))
      with (assignBase m <$> (summaryOf <$> projects)).
    now rewrite !list_lookup_fmap, Hp. }
  assert (Hlast : forall p, ProjectSummary.LastModified (assignBase m (summaryOf p))
                            = Project.LastModified p).
  { intros p. rewrite assignBase_fields. unfold summaryOf.
    now destruct (Project.Sessions p). }
  exists (computeBaseRepos (map summaryOf projects)).
  split; [reflexivity|]. split; [|split].
  - unfold computeBaseRepos. now rewrite !length_map.
  - assert (Hsorted : NonIncreasing
              (fun p => Time.unixNano (Project.LastModified p)) projects).
    { apply ListProjects_Ok in Hlist as (entries & _ & ->).
      apply (sort_Slice_After_NonIncreasing Project.LastModified). }
    intros i j x y Hij Hx Hy.
    destruct (projects !! i) as [p|] eqn:Hp.
    2: { apply lookup_ge_None in Hp. apply lookup_lt_Some in Hx.
         unfold computeBaseRepos in Hx. rewrite !length_map in Hx. lia. }
    destruct (projects !! j) as [q|] eqn:Hq.
    2: { apply lookup_ge_None in Hq. apply lookup_lt_Some in Hy.
         unfold computeBaseRepos in Hy. rewrite !length_map in Hy. lia. }
    rewrite (Hlookup i p Hp) in Hx. rewrite (Hlookup j q Hq) in Hy.
    injection Hx as <-. injection Hy as <-. rewrite !Hlast.
    exact (Hsorted i j p q Hij Hp Hq).
  - intros i p Hp.
    assert (Hin : In p projects)
      by (apply list_elem_of_In, list_elem_of_lookup; eauto).
    destruct (ListProjects_In fs pi _ _ Hlist Hin) as (entry & _ & _ & _ & _ & Hload).
    destruct (loadProject_first_in_range fs pi _ _ Hload)
      as (first & Hfirst & _ & Hmod & _).
    exists (assignBase m (summaryOf p)), first.
    split; [now apply Hlookup|]. split; [exact Hfirst|].
    rewrite assignBase_fields at 1. rewrite (summaryOf_first p first Hfirst).
    unfold ProjectSummary.setBaseRepo. simpl. now rewrite Hmod.
Qed.

End SummariesMore.

Section BaseReposMore.
Context `{GoLib}.

Lemma collectRepo_loop_fields (f : ProjectSummary.t -> ProjectSummary.t)
    (summaries : list ProjectSummary.t) (m : gmap string (list string)) :
  (forall s, ProjectSummary.Name (f s) = ProjectSummary.Name s /\
             ProjectSummary.Org (f s) = ProjectSummary.Org s) ->
  fold_left collectRepo (map f summaries) m = fold_left collectRepo summaries m.
Proof.
  intros Hf. revert m. induction summaries as [|s summaries IH]; intros m; simpl;
    [reflexivity|].
  rewrite IH. f_equal. unfold collectRepo.
  destruct (Hf s) as [-> ->]. reflexivity.
Qed.

(** X10. [computeBaseRepos] reads the names and the organizations only: the
    [BaseRepo] its input carries, and any other change that keeps names and
    organizations, leaves the bases it assigns as they are. Running it on
    its own result changes nothing. *)
Theorem computeBaseRepos_reads_names_only (summaries : list ProjectSummary.t) :
  (forall f : ProjectSummary.t -> ProjectSummary.t,
     (forall s, ProjectSummary.Name (f s) = ProjectSummary.Name s /\
                ProjectSummary.Org (f s) = ProjectSummary.Org s) ->
     map ProjectSummary.BaseRepo (computeBaseRepos (map f summaries))
     = map ProjectSummary.BaseRepo (computeBaseRepos summaries)) /\
  computeBaseRepos (computeBaseRepos summaries) = computeBaseRepos summaries.
Proof.
  assert (Hrepos : forall f : ProjectSummary.t -> ProjectSummary.t,
            (forall s, ProjectSummary.Name (f s) = ProjectSummary.Name s /\
                       ProjectSummary.Org (f s) = ProjectSummary.Org s) ->
            sortedOrgRepos (map f summaries) = sortedOrgRepos summaries).
  { intros f Hf. unfold sortedOrgRepos. now rewrite collectRepo_loop_fields. }
  split.
  - intros f Hf. unfold computeBaseRepos. rewrite (Hrepos f Hf), !map_map.
    apply map_ext. intros s. unfold assignBase.
    destruct (Hf s) as [-> ->]. now destruct (String.eqb _ _).
  - set (m := sortedOrgRepos summaries).
    assert (Hm : sortedOrgRepos (computeBaseRepos summaries) = m).
    { unfold computeBaseRepos. fold m. apply Hrepos. intros s.
      rewrite assignBase_fields. auto. }
    change (computeBaseRepos (computeBaseRepos summaries))
      with (map (assignBase (sortedOrgRepos (computeBaseRepos summaries)))
              (computeBaseRepos summaries)).
    rewrite Hm. unfold computeBaseRepos. fold m. rewrite map_map.
    apply map_ext. intros s. rewrite (assignBase_fields m s) at 1.
    unfold assignBase. simpl. now destruct (String.eqb _ _).
Qed.

End BaseReposMore.

(** ** The handlers *)

Lemma int_wrap_0 : int_wrap 0 = 0%Z.
Proof. reflexivity. Qed.

Section HandlersOfIndexer.
Context `{GoLib}.
Variable fs : FileSystem.
Variable pi : ProjectIndexer.t.
Variable error_Error : error -> string.

Lemma GetTaskCount_nonneg (sessionID : string) :
  (0 <= GetTaskCount fs pi sessionID)%Z.
Proof.
  destruct (os_ReadDir fs (taskDirOf pi sessionID)) as [entries|err] eqn:Hdir.
  - rewrite (GetTaskCount_Ok fs pi _ _ Hdir). apply len_nonneg.
  - rewrite (GetTaskCount_Err fs pi _ _ Hdir). lia.
Qed.

Lemma HasTasks_ltb (sessionID : string) :
  HasTasks fs pi sessionID = (0 <? GetTaskCount fs pi sessionID)%Z.
Proof.
  destruct (os_ReadDir fs (taskDirOf pi sessionID)) as [entries|err] eqn:Hdir.
  - rewrite (GetTaskCount_Ok fs pi _ _ Hdir). unfold HasTasks. rewrite Hdir.
    pose proof (anyTaskFile_filter entries) as Hany.
    destruct (anyTaskFile entries); symmetry.
    + apply Z.ltb_lt, Hany. reflexivity.
    + apply Z.ltb_ge. destruct (Z_lt_le_dec 0 (len (List.filter isTaskFile entries)))
        as [Hpos|Hle]; [|exact Hle].
      apply Hany in Hpos. discriminate.
  - rewrite (GetTaskCount_Err fs pi _ _ Hdir). unfold HasTasks. now rewrite Hdir.
Qed.

Lemma addTaskCount_loop (lists : list ActiveTaskList.t) (z : Z) :
  fold_left addTaskCount lists (int_wrap z)
  = int_wrap (z + fold_right Z.add 0%Z (map ActiveTaskList.TaskCount lists)).
Proof.
  revert z. induction lists as [|al lists IH]; intros z; simpl.
  - now rewrite Z.add_0_r.
  - unfold addTaskCount at 2. unfold int_add. rewrite int_wrap_add, IH.
    f_equal. lia.
Qed.

Lemma activeFrom_counts (m : gmap string projectInfo.t) (entries : list DirEntry.t) :
  fold_right Z.add 0%Z
    (map ActiveTaskList.TaskCount (flat_map (activeFrom fs pi m) entries))
  = sumTaskCounts fs pi entries /\
  (len (flat_map (activeFrom fs pi m) entries) <= sumTaskCounts fs pi entries)%Z.
Proof.
  induction entries as [|e entries [IHsum IHlen]]; simpl.
  { split; [reflexivity|]. unfold len. simpl. lia. }
  rewrite map_app, fold_right_app, len_app, IHsum.
  pose proof (GetTaskCount_nonneg (DirEntry.Name e)) as Hnonneg.
  assert (Hcases :
    (exists a, activeFrom fs pi m e = [a] /\ DirEntry.IsDir e = true /\
               ActiveTaskList.TaskCount a = GetTaskCount fs pi (DirEntry.Name e) /\
               (0 < GetTaskCount fs pi (DirEntry.Name e))%Z) \/
    (activeFrom fs pi m e = [] /\
     (DirEntry.IsDir e = true -> GetTaskCount fs pi (DirEntry.Name e) = 0%Z))).
  { destruct (DirEntry.IsDir e) eqn:HisDir.
    - destruct (Z_lt_le_dec 0 (GetTaskCount fs pi (DirEntry.Name e))) as [Hpos|Hle].
      + left. destruct (activeFrom_nonempty fs pi m e HisDir Hpos) as [a Ha].
        exists a. split; [exact Ha|]. split; [reflexivity|].
        assert (Hin : In a (activeFrom fs pi m e)) by (rewrite Ha; now left).
        apply activeFrom_In in Hin as (_ & _ & _ & Hcount & _). auto.
      + right. split; [|lia]. unfold activeFrom, appendActive.
        rewrite HisDir. simpl. apply Z.ltb_ge in Hle. now rewrite Hle.
    - right. split; [|discriminate]. unfold activeFrom, appendActive.
      now rewrite HisDir. }
  destruct Hcases as [(a & -> & -> & Hcount & Hpos)|[-> Hzero]].
  - simpl. change (len [a]) with 1%Z. rewrite Hcount. split; lia.
  - simpl. change (len (@nil ActiveTaskList.t)) with 0%Z.
    destruct (DirEntry.IsDir e); [rewrite Hzero by reflexivity|]; split; lia.
Qed.

(** X11. The active sessions panel is always rendered, and the dashboard is
    rendered whenever the project groups can be listed, whatever the state
    of the tasks directory; the dashboard is an error page of status 500
    with the text of the error otherwise. Both show the same active lists
    and the same total: no list and 0 when the tasks directory cannot be
    listed, otherwise the lists of [ListActiveTaskLists] and, in [int]
    arithmetic, the sum of the counts of task files over all the directories
    of the tasks directory, which is at least the number of lists. *)
Theorem handleIndex_totals :
  exists activeLists totalTaskCount,
    activeTotals fs pi activeLists totalTaskCount /\
    handleActiveSessionsPartial fs pi
    = render "active_sessions_panel.html"
        (ActiveSessionsData.mk activeLists totalTaskCount) /\
    match ListProjectGroups fs pi with
    | Err err =>
        handleIndex fs pi error_Error
        = renderError ("Failed to list projects: " +:+ error_Error err) 500
    | Ok groups =>
        handleIndex fs pi error_Error
        = render "index.html"
            (IndexData.mk (PageData.mk "Task Viewer" "" "" "" "") groups
               activeLists totalTaskCount)
    end.
Proof.
  exists (activeListsOrNil fs pi),
    (fold_left addTaskCount (activeListsOrNil fs pi) 0%Z).
  split; [|split].
  - unfold activeTotals, activeListsOrNil, ListActiveTaskLists.
    destruct (os_ReadDir fs (ProjectIndexer.tasksDir pi)) as [entries|err];
      [|split; reflexivity].
    rewrite appendActive_loop. simpl.
    set (m := buildSessionProjectMap fs pi).
    destruct (activeFrom_counts m entries) as [Hsum Hlen].
    pose proof (addTaskCount_loop (flat_map (activeFrom fs pi m) entries) 0)
      as Hloop.
    rewrite int_wrap_0, Z.add_0_l, Hsum in Hloop. rewrite Hloop.
    split; [reflexivity|]. split; [reflexivity|].
    intros Hmax. rewrite int_wrap_small; [split; [reflexivity | exact Hlen]|].
    pose proof (len_nonneg (flat_map (activeFrom fs pi m) entries)). lia.
  - reflexivity.
  - unfold handleIndex. now destruct (ListProjectGroups fs pi).
Qed.

Lemma viewSession_loop (rest : list SessionEntry.t) :
  forall (done : list SessionViewEntry.t) (n : Z),
    (0 <= n)%Z -> (n + len rest <= MaxInt)%Z ->
    rangeFrom (viewSession fs pi) (length done) rest
      (done ++ replicate (length rest) SessionViewEntry.zero, n)
    = (done ++ map (viewEntry fs pi) rest,
       (n + len (List.filter SessionViewEntry.HasTasks
                   (map (viewEntry fs pi) rest)))%Z).
Proof.
  induction rest as [|s rest IH]; intros done n Hn Hmax; simpl.
  - f_equal. change (len (@nil SessionViewEntry.t)) with 0%Z. lia.
  - unfold viewSession at 2. simpl fst. simpl snd.
    rewrite insert_app_r_alt, Nat.sub_diag by lia. simpl.
    change (len (s :: rest)) with (Z.of_nat (S (length rest))) in Hmax.
    pose proof (len_nonneg rest) as Hrest. unfold len in Hrest, IH.
    replace (S (length done))
      with (length (done ++ [viewEntry fs pi s]))
      by (rewrite length_app; simpl; lia).
    replace (done ++ SessionViewEntry.mk s (GetTaskCount fs pi (SessionEntry.SessionID s))
               (0 <? GetTaskCount fs pi (SessionEntry.SessionID s))%Z
             :: replicate (length rest) SessionViewEntry.zero)
      with ((done ++ [viewEntry fs pi s])
            ++ replicate (length rest) SessionViewEntry.zero)
      by (now rewrite <- app_assoc).
    pose proof (len_nonneg (List.filter SessionViewEntry.HasTasks
                              (map (viewEntry fs pi) rest))) as Hfil.
    destruct (0 <? GetTaskCount fs pi (SessionEntry.SessionID s))%Z eqn:Hcount.
    + unfold int_add. rewrite int_wrap_small by (unfold MaxInt in *; lia).
      rewrite IH by lia. rewrite <- app_assoc. simpl. f_equal.
      unfold len. simpl length. lia.
    + rewrite IH by lia. rewrite <- app_assoc. reflexivity.
Qed.

(** X12. The project view is the error page of status 404 with the text of
    the error when the project cannot be loaded. Otherwise it shows the
    sessions of the project in their order, each with its count of task
    files and with [HasTasks] as the indexer's [HasTasks] answers, and
    [SessionsWithTasks] is the number of the sessions shown that have tasks,
    between 0 and the session count of the project. *)
Theorem handleProjectView_sessions (dirName : string) :
  match loadProject fs pi dirName with
  | Err err =>
      handleProjectView fs pi error_Error dirName
      = renderError ("Project not found: " +:+ error_Error err) 404
  | Ok project =>
      exists data,
        handleProjectView fs pi error_Error dirName = render "project.html" data /\
        ProjectViewData.Page data
        = PageData.mk (Project.Name project) dirName "" "" "" /\
        ProjectViewData.Project data = project /\
        map SessionViewEntry.SessionEntry (ProjectViewData.Sessions data)
        = Project.Sessions project /\
        (forall e, In e (ProjectViewData.Sessions data) ->
           let sessionID := SessionEntry.SessionID (SessionViewEntry.SessionEntry e) in
           SessionViewEntry.TaskCount e = GetTaskCount fs pi sessionID /\
           SessionViewEntry.HasTasks e = HasTasks fs pi sessionID) /\
        ProjectViewData.SessionsWithTasks data
        = len (List.filter SessionViewEntry.HasTasks
                 (ProjectViewData.Sessions data)) /\
        (0 <= ProjectViewData.SessionsWithTasks data
         <= Project.SessionCount project)%Z
  end.
Proof.
  unfold handleProjectView, GetProject.
  destruct (loadProject fs pi dirName) as [project|err] eqn:Hload; [|reflexivity].
  assert (Hcount : Project.SessionCount project = len (Project.Sessions project)).
  { apply loadProject_Ok in Hload as (idx & _ & _ & ->). reflexivity. }
  pose proof (loadProject_wellFormed fs pi _ _ Hload) as [_ Hfits].
  rewrite Hcount in *.
  pose proof (viewSession_loop (Project.Sessions project) [] 0%Z) as Hloop.
  simpl in Hloop. rewrite Hloop by lia. clear Hloop.
  set (sessions := map (viewEntry fs pi) (Project.Sessions project)).
  eexists. split; [reflexivity|]. simpl.
  split; [reflexivity|]. split; [reflexivity|]. split; [|split; [|split]].
  - unfold sessions. rewrite map_map. simpl. apply map_id.
  - intros e He. apply in_map_iff in He as (s & <- & _). simpl.
    split; [reflexivity | symmetry; apply HasTasks_ltb].
  - reflexivity.
  - split; [apply len_nonneg|].
    assert (Hle : length (List.filter SessionViewEntry.HasTasks sessions)
                  <= length (Project.Sessions project)).
    { etransitivity; [apply List.filter_length_le|].
      unfold sessions. now rewrite length_map. }
    unfold len. lia.
Qed.

End HandlersOfIndexer.

Section HandlersOfTasks.
Variable taskStore : TaskStore.
Variable error_Error : error -> string.

Lemma countStatus_step (t : TaskListItem.t) (p i c : Z) :
  countStatus (int_wrap p, int_wrap i, int_wrap c) t
  = (int_wrap (p + len (withStatus "pending" [t])),
     int_wrap (i + len (withStatus "in_progress" [t])),
     int_wrap (c + len (withStatus "completed" [t]))).
Proof.
  unfold countStatus, withStatus, int_add. simpl List.filter.
  destruct (String.eqb_spec (TaskListItem.Status t) "pending") as [Hp|Hp].
  { rewrite Hp. simpl. now rewrite int_wrap_add, !Z.add_0_r. }
  destruct (String.eqb_spec (TaskListItem.Status t) "in_progress") as [Hi|Hi].
  { rewrite Hi. simpl. now rewrite int_wrap_add, !Z.add_0_r. }
  destruct (String.eqb_spec (TaskListItem.Status t) "completed") as [Hc|Hc].
  { simpl. now rewrite int_wrap_add, !Z.add_0_r. }
  simpl. now rewrite !Z.add_0_r.
Qed.

Lemma countStatus_loop (tasks : list TaskListItem.t) (p i c : Z) :
  fold_left countStatus tasks (int_wrap p, int_wrap i, int_wrap c)
  = (int_wrap (p + len (withStatus "pending" tasks)),
     int_wrap (i + len (withStatus "in_progress" tasks)),
     int_wrap (c + len (withStatus "completed" tasks))).
Proof.
  revert p i c. induction tasks as [|t tasks IH]; intros p i c.
  - simpl. change (len (@nil TaskListItem.t)) with 0%Z. now rewrite !Z.add_0_r.
  - change (fold_left countStatus (t :: tasks) (int_wrap p, int_wrap i, int_wrap c))
      with (fold_left countStatus tasks
              (countStatus (int_wrap p, int_wrap i, int_wrap c) t)).
    rewrite countStatus_step, IH.
    assert (Hsplit : forall status,
              len (withStatus status (t :: tasks))
              = (len (withStatus status [t]) + len (withStatus status tasks))%Z).
    { intros status. change (t :: tasks) with ([t] ++ tasks).
      unfold withStatus. now rewrite List.filter_app, len_app. }
    rewrite !Hsplit, !Z.add_assoc. reflexivity.
Qed.

Lemma withStatus_disjoint (tasks : list TaskListItem.t) :
  (len (withStatus "pending" tasks) + len (withStatus "in_progress" tasks)
   + len (withStatus "completed" tasks) <= len tasks)%Z.
Proof.
  unfold len, withStatus. induction tasks as [|t tasks IH]; simpl; [lia|].
  destruct (String.eqb_spec (TaskListItem.Status t) "pending") as [->|Hp];
    simpl; [lia|].
  destruct (String.eqb_spec (TaskListItem.Status t) "in_progress") as [->|Hi];
    simpl; [lia|].
  destruct (String.eqb (TaskListItem.Status t) "completed"); simpl; lia.
Qed.

Lemma withStatus_le (status : string) (tasks : list TaskListItem.t) :
  (0 <= len (withStatus status tasks) <= len tasks)%Z.
Proof.
  split; [apply len_nonneg|]. unfold len, withStatus.
  pose proof (List.filter_length_le
                (fun t => String.eqb (TaskListItem.Status t) status) tasks). lia.
Qed.

Lemma countStatus_fits (tasks : list TaskListItem.t) :
  fits tasks ->
  fold_left countStatus tasks (0, 0, 0)%Z
  = (len (withStatus "pending" tasks), len (withStatus "in_progress" tasks),
     len (withStatus "completed" tasks)).
Proof.
  intros Hfits. unfold fits in Hfits.
  pose proof (countStatus_loop tasks 0 0 0) as Hloop.
  rewrite int_wrap_0, !Z.add_0_l in Hloop. rewrite Hloop.
  pose proof (withStatus_le "pending" tasks).
  pose proof (withStatus_le "in_progress" tasks).
  pose proof (withStatus_le "completed" tasks).
  rewrite !int_wrap_small by lia. reflexivity.
Qed.

(** X13. The list view is the error page of status 500 with the text of the
    error when the task store cannot list the tasks. Otherwise the three
    counts are the numbers of tasks of the three statuses and [TotalCount]
    the number of all tasks, whatever the filter, so that the three add up
    to [TotalCount] at most; without filter all the tasks are shown, in
    their order, and with a filter those whose status is the filter, so
    that for the filters [pending], [in_progress] and [completed] the number
    of tasks shown is the count of that name. *)
Theorem handleListView_counts (listID filter : string) :
  match taskStore_List taskStore listID with
  | Err err =>
      handleListView taskStore error_Error listID filter
      = renderError ("Failed to load tasks: " +:+ error_Error err) 500
  | Ok tasks =>
      exists data,
        handleListView taskStore error_Error listID filter
        = render "tasks.html" data /\
        ListViewData.Page data
        = PageData.mk ("Tasks - " +:+ listID) listID "" "" "" /\
        ListViewData.Filter data = filter /\
        ListViewData.TotalCount data = len tasks /\
        ListViewData.PendingCount data = len (withStatus "pending" tasks) /\
        ListViewData.InProgressCount data = len (withStatus "in_progress" tasks) /\
        ListViewData.CompletedCount data = len (withStatus "completed" tasks) /\
        (ListViewData.PendingCount data + ListViewData.InProgressCount data
         + ListViewData.CompletedCount data <= ListViewData.TotalCount data)%Z /\
        (filter = "" -> ListViewData.Tasks data = tasks) /\
        (filter <> "" -> ListViewData.Tasks data = withStatus filter tasks) /\
        (filter = "pending" ->
           len (ListViewData.Tasks data) = ListViewData.PendingCount data) /\
        (filter = "in_progress" ->
           len (ListViewData.Tasks data) = ListViewData.InProgressCount data) /\
        (filter = "completed" ->
           len (ListViewData.Tasks data) = ListViewData.CompletedCount data)
  end.
Proof.
  unfold handleListView.
  destruct (taskStore_List taskStore listID) as [tasks|err] eqn:Hlist;
    [|reflexivity].
  rewrite (countStatus_fits tasks (List_fits taskStore _ _ Hlist)).
  eexists. split; [reflexivity|]. simpl.
  repeat (split; [reflexivity|]).
  split; [apply withStatus_disjoint|].
  unfold applyFilter.
  split; [intros ->; reflexivity|].
  split.
  { intros Hne. apply String.eqb_neq in Hne. now rewrite Hne. }
  repeat split; intros ->; reflexivity.
Qed.

(** X14. The two partial views of a task list show what the list view
    shows: the task list partial the same tasks, for the same filter, and
    the counts partial the same four counts. When the task store cannot
    list the tasks, where the list view is an error page, they answer with
    the status 500 and a fixed text. *)
Theorem partials_agree_with_list_view (listID filter : string) :
  match handleListView taskStore error_Error listID filter with
  | render _ data =>
      handleTasksPartial taskStore listID filter
      = render "tasks_list.html"
          (TasksPartialData.mk (ListViewData.Tasks data) listID) /\
      handleTaskCountsPartial taskStore listID
      = render "task_counts_oob.html"
          (TaskCountsData.mk listID (ListViewData.PendingCount data)
             (ListViewData.InProgressCount data)
             (ListViewData.CompletedCount data) (ListViewData.TotalCount data))
  | _ =>
      handleTasksPartial taskStore listID filter
      = http_Error "Failed to load tasks" 500 /\
      handleTaskCountsPartial taskStore listID
      = http_Error "Failed to load tasks" 500
  end.
Proof.
  unfold handleListView, handleTasksPartial, handleTaskCountsPartial.
  destruct (taskStore_List taskStore listID) as [tasks|err];
    [|split; reflexivity].
  destruct (fold_left countStatus tasks (0, 0, 0)%Z) as [[p i] c].
  split; reflexivity.
Qed.

(** The map of [handleTaskDetail] holds under an id the last task of the
    list with that id. *)
Lemma recordTask_loop_lookup (allTasks : list TaskListItem.t) (id : string) :
  match fold_left recordTask allTasks ∅ !! id with
  | Some t => TaskListItem.ID t = id /\ LastWithID allTasks t
  | None => forall u, In u allTasks -> TaskListItem.ID u <> id
  end.
Proof.
  induction allTasks as [|t allTasks IH] using rev_ind.
  - simpl. rewrite lookup_empty. intros u [].
  - rewrite fold_left_app. simpl. unfold recordTask at 1.
    destruct (String.eqb_spec (TaskListItem.ID t) id) as [<-|Hne].
    + rewrite lookup_insert_eq. split; [reflexivity|].
      exists allTasks, []. split; [reflexivity | intros u []].
    + rewrite lookup_insert_ne by assumption.
      destruct (fold_left recordTask allTasks ∅ !! id) as [u|].
      * destruct IH as [Hid (before & after & -> & Hafter)].
        split; [exact Hid|]. exists before, (after ++ [t]).
        split; [now rewrite <- app_assoc|].
        intros v Hv. apply in_app_or in Hv as [Hv|[<-|[]]];
          [now apply Hafter | congruence].
      * intros u Hu. apply in_app_or in Hu as [Hu|[<-|[]]];
          [now apply IH | exact Hne].
Qed.

Lemma appendKnown_loop (allTasks : list TaskListItem.t) (ids : list string) :
  Resolved allTasks ids
    (fold_left (appendKnown (fold_left recordTask allTasks ∅)) ids []).
Proof.
  set (taskMap := fold_left recordTask allTasks ∅).
  induction ids as [|id ids IH] using rev_ind.
  - split; [reflexivity | intros t []].
  - rewrite fold_left_app. simpl. unfold appendKnown at 1.
    destruct IH as [IHids IHlast]. unfold Resolved.
    rewrite List.filter_app. simpl.
    pose proof (recordTask_loop_lookup allTasks id) as Hlookup. fold taskMap in Hlookup.
    destruct (taskMap !! id) as [t|].
    + destruct Hlookup as [Hid Hlast].
      assert (Hknown : existsb (String.eqb id) (map TaskListItem.ID allTasks) = true).
      { apply existsb_exists. exists id. split; [|apply String.eqb_refl].
        destruct Hlast as (before & after & -> & _). rewrite map_app. simpl.
        apply in_or_app. right. left. exact Hid. }
      rewrite Hknown, map_app, IHids. simpl. rewrite Hid.
      split; [reflexivity|].
      intros u Hu. apply in_app_or in Hu as [Hu|[<-|[]]];
        [now apply IHlast | exact Hlast].
    + assert (Hunknown :
        existsb (String.eqb id) (map TaskListItem.ID allTasks) = false).
      { destruct (existsb _ _) eqn:Hex; [|reflexivity].
        apply existsb_exists in Hex as (x & Hx & Heq).
        apply String.eqb_eq in Heq. subst x.
        apply in_map_iff in Hx as (u & Hid & Hu). destruct (Hlookup u Hu Hid). }
      rewrite Hunknown, app_nil_r. split; [exact IHids | exact IHlast].
Qed.

(** X15. The task view is the error page of status 404 with the text of the
    error when the task store does not give the task. Otherwise it shows
    the task and, as its blockers and as the tasks it blocks, for those ids
    of [BlockedBy] and of [Blocks] that a task of the list carries, in
    their order, the last task of the list with that id; an id that no task
    of the list carries is left out, and so are all of them when the list
    cannot be read. *)
Theorem handleTaskDetail_resolves (listID taskID : string) :
  match taskStore_Get taskStore listID taskID with
  | Err err =>
      handleTaskDetail taskStore error_Error listID taskID
      = renderError ("Task not found: " +:+ error_Error err) 404
  | Ok task =>
      exists data,
        handleTaskDetail taskStore error_Error listID taskID
        = render "task_detail.html" data /\
        TaskDetailData.Page data
        = PageData.mk (TaskListItem.Subject task) listID taskID "" "" /\
        TaskDetailData.Task data = task /\
        match taskStore_List taskStore listID with
        | Ok allTasks =>
            Resolved allTasks (TaskListItem.BlockedBy task)
              (TaskDetailData.Blockers data) /\
            Resolved allTasks (TaskListItem.Blocks task)
              (TaskDetailData.Blocking data)
        | Err _ =>
            TaskDetailData.Blockers data = [] /\
            TaskDetailData.Blocking data = []
        end
  end.
Proof.
  unfold handleTaskDetail.
  destruct (taskStore_Get taskStore listID taskID) as [task|err]; [|reflexivity].
  eexists. split; [reflexivity|]. simpl.
  split; [reflexivity|]. split; [reflexivity|].
  destruct (taskStore_List taskStore listID) as [allTasks|err].
  - split; apply appendKnown_loop.
  - pose proof (appendKnown_loop [] (TaskListItem.BlockedBy task)) as [Hby _].
    pose proof (appendKnown_loop [] (TaskListItem.Blocks task)) as [Hblocks _].
    simpl in Hby, Hblocks.
    assert (Hnone : forall ids : list string,
              List.filter (fun _ : string => false) ids = []).
    { induction ids as [|x ids IH]; [reflexivity | exact IH]. }
    rewrite Hnone in Hby, Hblocks.
    split; [now apply map_eq_nil in Hby | now apply map_eq_nil in Hblocks].
Qed.




End HandlersOfTasks.

Section HandlersOfBoth.
Context `{GoLib}.
Variable fs : FileSystem.
Variable pi : ProjectIndexer.t.
Variable taskStore : TaskStore.
Variable error_Error : error -> string.

Lemma countTask_loop (tasks : list TaskListItem.t) (z p i c : Z) :
  fold_left countTask tasks (int_wrap z, (int_wrap p, int_wrap i, int_wrap c))
  = (int_wrap (z + len tasks),
     (int_wrap (p + len (withStatus "pending" tasks)),
      int_wrap (i + len (withStatus "in_progress" tasks)),
      int_wrap (c + len (withStatus "completed" tasks)))).
Proof.
  revert z p i c. induction tasks as [|t tasks IH]; intros z p i c.
  - simpl. change (len (@nil TaskListItem.t)) with 0%Z. now rewrite !Z.add_0_r.
  - change (fold_left countTask (t :: tasks)
              (int_wrap z, (int_wrap p, int_wrap i, int_wrap c)))
      with (fold_left countTask tasks
              (int_add (int_wrap z) 1,
               countStatus (int_wrap p, int_wrap i, int_wrap c) t)).
    unfold int_add. rewrite int_wrap_add, countStatus_step, IH.
    assert (Hsplit : forall status,
              len (withStatus status (t :: tasks))
              = (len (withStatus status [t]) + len (withStatus status tasks))%Z).
    { intros status. change (t :: tasks) with ([t] ++ tasks).
      unfold withStatus. now rewrite List.filter_app, len_app. }
    rewrite !Hsplit, !Z.add_assoc.
    replace (len (t :: tasks)) with (1 + len tasks)%Z
      by (unfold len; simpl length; lia).
    now rewrite Z.add_assoc.
Qed.

Lemma addSessionTasks_step (filter : string) (active : ActiveTaskList.t)
    (shownBefore : list SessionTasks.t) (z p i c : Z) :
  addSessionTasks taskStore filter
    (shownBefore, (int_wrap z, (int_wrap p, int_wrap i, int_wrap c))) active
  = (shownBefore ++ shownSession taskStore filter active,
     (int_wrap (z + len (loadedTasks taskStore [active])),
      (int_wrap (p + len (withStatus "pending" (loadedTasks taskStore [active]))),
       int_wrap (i + len (withStatus "in_progress"
                            (loadedTasks taskStore [active]))),
       int_wrap (c + len (withStatus "completed"
                            (loadedTasks taskStore [active])))))).
Proof.
  unfold addSessionTasks, shownSession, loadedTasks. simpl flat_map.
  destruct (taskStore_List taskStore (ActiveTaskList.SessionID active))
    as [tasks|err].
  2: { simpl. change (len (@nil TaskListItem.t)) with 0%Z.
       now rewrite !Z.add_0_r, app_nil_r. }
  rewrite app_nil_r.
  destruct tasks as [|t tasks].
  { simpl. change (len (@nil TaskListItem.t)) with 0%Z.
    now rewrite !Z.add_0_r, app_nil_r. }
  replace (len (t :: tasks) =? 0)%Z with false
    by (symmetry; apply Z.eqb_neq; unfold len; simpl length; lia).
  simpl snd. simpl fst. rewrite countTask_loop.
  destruct (List.filter (includeTask filter) (t :: tasks)) as [|u filtered].
  - simpl. now rewrite app_nil_r.
  - replace (0 <? len (u :: filtered))%Z with true
      by (symmetry; apply Z.ltb_lt; unfold len; simpl length; lia).
    reflexivity.
Qed.

Lemma addSessionTasks_loop (filter : string) (activeLists : list ActiveTaskList.t) :
  forall (shownBefore : list SessionTasks.t) (z p i c : Z),
    fold_left (addSessionTasks taskStore filter) activeLists
      (shownBefore, (int_wrap z, (int_wrap p, int_wrap i, int_wrap c)))
    = (shownBefore ++ flat_map (shownSession taskStore filter) activeLists,
       (int_wrap (z + len (loadedTasks taskStore activeLists)),
        (int_wrap (p + len (withStatus "pending"
                              (loadedTasks taskStore activeLists))),
         int_wrap (i + len (withStatus "in_progress"
                              (loadedTasks taskStore activeLists))),
         int_wrap (c + len (withStatus "completed"
                              (loadedTasks taskStore activeLists)))))).
Proof.
  induction activeLists as [|active activeLists IH]; intros shownBefore z p i c.
  - simpl. change (len (@nil TaskListItem.t)) with 0%Z.
    now rewrite !Z.add_0_r, app_nil_r.
  - assert (Hsplit : forall status,
      len (withStatus status (loadedTasks taskStore (active :: activeLists)))
      = (len (withStatus status (loadedTasks taskStore [active]))
         + len (withStatus status (loadedTasks taskStore activeLists)))%Z).
    { intros status. change (active :: activeLists) with ([active] ++ activeLists).
      unfold withStatus, loadedTasks.
      now rewrite flat_map_app, List.filter_app, len_app. }
    assert (Hlen : len (loadedTasks taskStore (active :: activeLists))
                   = (len (loadedTasks taskStore [active])
                      + len (loadedTasks taskStore activeLists))%Z).
    { change (active :: activeLists) with ([active] ++ activeLists).
      unfold loadedTasks. now rewrite flat_map_app, len_app. }
    rewrite !Hsplit, Hlen, !Z.add_assoc.
    change (fold_left (addSessionTasks taskStore filter) (active :: activeLists)
              (shownBefore, (int_wrap z, (int_wrap p, int_wrap i, int_wrap c))))
      with (fold_left (addSessionTasks taskStore filter) activeLists
              (addSessionTasks taskStore filter
                 (shownBefore, (int_wrap z, (int_wrap p, int_wrap i, int_wrap c)))
                 active)).
    rewrite addSessionTasks_step, IH. simpl flat_map. now rewrite <- app_assoc.
Qed.

Lemma shownSession_ShownFrom (filter : string) (activeLists : list ActiveTaskList.t) :
  exists shown,
    sublist shown activeLists /\
    Forall2 (ShownFrom taskStore filter) shown
      (flat_map (shownSession taskStore filter) activeLists) /\
    forall active tasks, In active activeLists ->
      taskStore_List taskStore (ActiveTaskList.SessionID active) = Ok tasks ->
      List.filter (includeTask filter) tasks <> [] ->
      In active shown.
Proof.
  induction activeLists as [|active activeLists (shown & Hsub & Hshown & Hall)].
  - exists []. split; [constructor|]. split; [constructor | intros a tasks []].
  - simpl flat_map. unfold shownSession at 1.
    destruct (taskStore_List taskStore (ActiveTaskList.SessionID active))
      as [tasks|err] eqn:Hlist.
    2: { exists shown. split; [now constructor|]. split; [exact Hshown|].
         intros a tasks [<-|Ha] Htasks Hfiltered; [congruence | eauto]. }
    destruct (List.filter (includeTask filter) tasks) as [|u filtered] eqn:Hfil.
    + exists shown. split; [now constructor|]. split; [exact Hshown|].
      intros a tasks' [<-|Ha] Htasks Hfiltered; [|eauto].
      rewrite Hlist in Htasks. injection Htasks as <-. now destruct Hfiltered.
    + exists (active :: shown). split; [now constructor|]. split.
      * constructor; [|exact Hshown]. exists tasks. simpl.
        split; [exact Hlist|]. repeat (split; [reflexivity|]).
        split; [now rewrite Hfil | discriminate].
      * intros a tasks' [<-|Ha] Htasks Hfiltered; [now left | right; eauto].
Qed.

(** X17. The view of all tasks is the error page of status 500 with the
    text of the error when the active lists cannot be listed. Otherwise the
    template depends on the header [HX-Request] alone, and an empty filter
    stands for [active]. The sessions shown are, in their order, those
    active lists of which the task store lists a task that passes the
    filter, each with those tasks; a list that cannot be read or shows no
    task is left out. The four counts do not depend on the filter: they are,
    in [int] arithmetic, the numbers of all the tasks of the lists that can
    be read and of those of each status, and [ActiveCount] is the sum of
    the pending and the in-progress ones. *)
Theorem handleAllTasks_sessions (filter hxRequest : string) :
  let shownFilter := if String.eqb filter "" then "active" else filter in
  match ListActiveTaskLists fs pi with
  | Err err =>
      handleAllTasks fs pi taskStore error_Error filter hxRequest
      = renderError ("Failed to list active sessions: " +:+ error_Error err) 500
  | Ok activeLists =>
      exists data,
        handleAllTasks fs pi taskStore error_Error filter hxRequest
        = render (if String.eqb hxRequest "true" then "all_tasks_content.html"
                  else "all_tasks.html") data /\
        AllTasksData.Filter data = shownFilter /\
        (exists shown,
           sublist shown activeLists /\
           Forall2 (ShownFrom taskStore shownFilter) shown
             (AllTasksData.TasksBySession data) /\
           forall active tasks, In active activeLists ->
             taskStore_List taskStore (ActiveTaskList.SessionID active) = Ok tasks ->
             List.filter (includeTask shownFilter) tasks <> [] ->
             In active shown) /\
        let loaded := loadedTasks taskStore activeLists in
        AllTasksData.TotalCount data = int_wrap (len loaded) /\
        AllTasksData.PendingCount data
        = int_wrap (len (withStatus "pending" loaded)) /\
        AllTasksData.InProgressCount data
        = int_wrap (len (withStatus "in_progress" loaded)) /\
        AllTasksData.CompletedCount data
        = int_wrap (len (withStatus "completed" loaded)) /\
        AllTasksData.ActiveCount data
        = int_wrap (len (withStatus "pending" loaded)
                    + len (withStatus "in_progress" loaded))
  end.
Proof.
  intros shownFilter. unfold handleAllTasks. fold shownFilter.
  destruct (ListActiveTaskLists fs pi) as [activeLists|err]; [|reflexivity].
  pose proof (addSessionTasks_loop shownFilter activeLists [] 0 0 0 0) as Hloop.
  rewrite int_wrap_0, !Z.add_0_l in Hloop. simpl app in Hloop. rewrite Hloop.
  eexists. split.
  { destruct (String.eqb hxRequest "true"); reflexivity. }
  simpl. split; [reflexivity|].
  split; [apply shownSession_ShownFrom|].
  repeat (split; [reflexivity|]).
  unfold int_add. rewrite int_wrap_add, Z.add_comm, int_wrap_add.
  f_equal. lia.
Qed.

End HandlersOfBoth.

Section HandlersOfPages.
Context `{GoLib}.
Variable fs : FileSystem.
Variable pi : ProjectIndexer.t.
Variable maxCap : Z.

Lemma appendSessions_take (sessions : list SessionEntry.t) (count : nat) :
  forall (i : Z) (page : list SessionViewEntry.t),
    (0 <= i)%Z -> Z.to_nat i + count <= length sessions ->
    appendSessions fs pi sessions i count page
    = Some (page ++ map (viewEntry fs pi)
                      (take count (drop (Z.to_nat i) sessions))).
Proof.
  induction count as [|count IH]; intros i page Hi Hlen.
  - simpl. now rewrite app_nil_r.
  - simpl appendSessions. unfold at_index. replace (i <? 0)%Z with false by (symmetry; apply Z.ltb_ge; lia).
    destruct (sessions !! Z.to_nat i) as [s|] eqn:Hs.
    2: { apply lookup_ge_None in Hs. lia. }
    rewrite IH by lia.
    replace (Z.to_nat (i + 1)) with (S (Z.to_nat i)) by lia.
    rewrite (drop_S sessions s (Z.to_nat i) Hs). simpl.
    now rewrite <- app_assoc.
Qed.

Lemma appendSessions_negative (sessions : list SessionEntry.t) (count : nat)
    (i : Z) (page : list SessionViewEntry.t) :
  (i < 0)%Z -> count <> 0 -> appendSessions fs pi sessions i count page = None.
Proof.
  intros Hi Hcount. destruct count as [|count]; [contradiction|]. simpl.
  unfold at_index. now replace (i <? 0)%Z with true by (symmetry; apply Z.ltb_lt; lia).
Qed.

(** A page of the session list, for an offset and a limit that are not
    negative and whose sum is an [int]. *)
Lemma handleSessionsPartial_good (projectID : string) (offset limit : Z)
    (project : Project.t) :
  loadProject fs pi projectID = Ok project ->
  (len (Project.Sessions project) <= maxCap)%Z ->
  (0 <= offset)%Z -> (0 <= limit)%Z ->
  (Z.min offset (len (Project.Sessions project)) + limit <= MaxInt)%Z ->
  handleSessionsPartial fs pi maxCap projectID offset limit
  = render "sessions_partial.html"
      (SessionsPartialData.mk
         (map (viewEntry fs pi)
            (take (Z.to_nat limit)
               (drop (Z.to_nat offset) (Project.Sessions project))))
         (offset + limit <? len (Project.Sessions project))%Z
         (Z.min (offset + limit) (len (Project.Sessions project)))
         projectID (len (Project.Sessions project))).
Proof.
  intros Hload Hcap Hoffset Hlimit Hsum.
  unfold handleSessionsPartial, GetProject. rewrite Hload.
  set (sessions := Project.Sessions project) in *.
  pose proof (len_nonneg sessions) as Htotal.
  set (total := len sessions) in *.
  set (start := if (total <? offset)%Z then total else offset).
  assert (Hstart : start = Z.min offset total).
  { unfold start. destruct (Z.ltb_spec total offset); lia. }
  unfold int_add. rewrite int_wrap_small by (unfold MaxInt in *; lia).
  set (end_ := if (total <? start + limit)%Z then total else (start + limit)%Z).
  assert (Hend : end_ = Z.min (start + limit) total).
  { unfold end_. destruct (Z.ltb_spec total (start + limit)); lia. }
  unfold int_sub. rewrite int_wrap_small by (unfold MaxInt in *; lia).
  replace (end_ - start <? 0)%Z with false by (symmetry; apply Z.ltb_ge; lia).
  replace (maxCap <? end_ - start)%Z with false by (symmetry; apply Z.ltb_ge; lia).
  simpl orb. cbv iota.
  assert (Hlen : Z.of_nat (length sessions) = total) by reflexivity.
  rewrite appendSessions_take by lia. simpl app.
  f_equal. f_equal.
  - f_equal.
    destruct (Z_le_gt_dec offset total) as [Hle|Hgt].
    + replace start with offset by lia.
      destruct (Z_le_gt_dec (offset + limit) total) as [Hle'|Hgt'].
      * f_equal. lia.
      * rewrite !take_ge; [reflexivity | |]; rewrite length_drop; lia.
    + rewrite !drop_ge by lia. now rewrite !take_nil.
  - destruct (Z.ltb_spec end_ total), (Z.ltb_spec (offset + limit) total);
      [reflexivity | lia | lia | reflexivity].
  - lia.
Qed.

(** X18. A page of sessions, for a project that can be loaded and whose
    sessions [make] can hold ([make] grants no slice of more than 2^48
    elements). With [start] the offset, at most the number of
    sessions, and [end] the sum of [start] and the limit in [int]
    arithmetic, at most the number of sessions: when [start <= end], and
    [start] is not negative or equals [end], the page holds the sessions
    from [start] up to [end] with their counts of task files, [NextOffset]
    is [end] and [HasMore] says whether sessions remain after it; in every
    other case the handler panics. So it panics on a negative limit, on a
    limit so large that the sum overflows, and on a negative offset with a
    limit other than 0. *)
Theorem handleSessionsPartial_pages (projectID : string) (offset limit : Z)
    (project : Project.t) :
  loadProject fs pi projectID = Ok project ->
  (len (Project.Sessions project) <= maxCap)%Z -> (maxCap <= 2 ^ 48)%Z ->
  (- 2 ^ 63 <= offset <= MaxInt)%Z -> (- 2 ^ 63 <= limit <= MaxInt)%Z ->
  let sessions := Project.Sessions project in
  let start := Z.min offset (len sessions) in
  let end_ := Z.min (int_add start limit) (len sessions) in
  (if (start <=? end_)%Z && ((0 <=? start)%Z || (start =? end_)%Z) then
     handleSessionsPartial fs pi maxCap projectID offset limit
     = render "sessions_partial.html"
         (SessionsPartialData.mk
            (map (viewEntry fs pi)
               (take (Z.to_nat (end_ - start)) (drop (Z.to_nat start) sessions)))
            (end_ <? len sessions)%Z end_ projectID (len sessions))
   else handleSessionsPartial fs pi maxCap projectID offset limit = panic) /\
  ((0 <= offset)%Z -> (limit < 0)%Z ->
   handleSessionsPartial fs pi maxCap projectID offset limit = panic) /\
  ((0 <= offset)%Z -> (MaxInt < start + limit)%Z ->
   handleSessionsPartial fs pi maxCap projectID offset limit = panic) /\
  ((offset < 0)%Z -> limit <> 0%Z ->
   handleSessionsPartial fs pi maxCap projectID offset limit = panic).
Proof.
  intros Hload Hcap Hmax Hoffset Hlimit sessions start end_.
  change (len sessions <= maxCap)%Z in Hcap.
  pose proof (len_nonneg sessions) as Htotal.
  assert (Hwrap : (- 2 ^ 63 <= int_add start limit <= MaxInt)%Z).
  { unfold int_add, int_wrap, MaxInt.
    pose proof (Z.mod_pos_bound (start + limit + 2 ^ 63) (2 ^ 64)). lia. }
  assert (Hcases :
    if (start <=? end_)%Z && ((0 <=? start)%Z || (start =? end_)%Z) then
      handleSessionsPartial fs pi maxCap projectID offset limit
      = render "sessions_partial.html"
          (SessionsPartialData.mk
             (map (viewEntry fs pi)
                (take (Z.to_nat (end_ - start)) (drop (Z.to_nat start) sessions)))
             (end_ <? len sessions)%Z end_ projectID (len sessions))
    else handleSessionsPartial fs pi maxCap projectID offset limit = panic).
  { unfold handleSessionsPartial, GetProject. rewrite Hload. fold sessions.
    replace (if (len sessions <? offset)%Z then len sessions else offset)
      with start by (unfold start; destruct (Z.ltb_spec (len sessions) offset); lia).
    replace (if (len sessions <? int_add start limit)%Z then len sessions
             else int_add start limit)
      with end_
      by (unfold end_; destruct (Z.ltb_spec (len sessions) (int_add start limit));
          lia).
    assert (Hstart : (- 2 ^ 63 <= start <= len sessions)%Z) by (unfold start; lia).
    assert (Hend : (- 2 ^ 63 <= end_ <= len sessions)%Z) by (unfold end_; lia).
    clearbody start end_. unfold MaxInt in *.
    destruct (Z.leb_spec start end_) as [Hle|Hgt]; simpl andb.
    - destruct (Z.leb_spec 0 start) as [Hpos|Hneg]; simpl orb.
      + unfold int_sub. rewrite int_wrap_small by (unfold MaxInt; lia).
        replace (end_ - start <? 0)%Z with false by (symmetry; apply Z.ltb_ge; lia).
        replace (maxCap <? end_ - start)%Z with false
          by (symmetry; apply Z.ltb_ge; lia).
        simpl orb. cbv iota.
        assert (Hlen : Z.of_nat (length sessions) = len sessions) by reflexivity.
        now rewrite appendSessions_take by lia.
      + destruct (Z.eqb_spec start end_) as [<-|Hne].
        * unfold int_sub. rewrite Z.sub_diag, int_wrap_0.
          replace (0 <? 0)%Z with false by reflexivity.
          replace (maxCap <? 0)%Z with false by (symmetry; apply Z.ltb_ge; lia).
          simpl. reflexivity.
        * destruct ((int_sub end_ start <? 0)%Z || (maxCap <? int_sub end_ start)%Z);
            [reflexivity|].
          rewrite appendSessions_negative; [reflexivity | lia | lia].
    - assert (Hpanic : ((int_sub end_ start <? 0)
                        || (maxCap <? int_sub end_ start))%Z = true).
      { apply orb_true_iff. unfold int_sub.
        destruct (Z_le_gt_dec (- 2 ^ 63) (end_ - start)) as [Hfit|Hwrapped].
        - left. rewrite int_wrap_small by (unfold MaxInt; lia).
          apply Z.ltb_lt. lia.
        - right. apply Z.ltb_lt. unfold int_wrap.
          replace (end_ - start + 2 ^ 63)%Z
            with ((end_ - start + 2 ^ 63 + 2 ^ 64) + (-1) * 2 ^ 64)%Z by lia.
          rewrite Z.mod_add by lia. rewrite Z.mod_small by lia. lia. }
      rewrite Hpanic. reflexivity. }
  split; [exact Hcases|].
  unfold MaxInt in *.
  split; [|split].
  - intros Hpos Hneg.
    assert (Hb : (start <=? end_)%Z && ((0 <=? start)%Z || (start =? end_)%Z)
                 = false).
    { apply andb_false_iff. left. apply Z.leb_gt.
      assert (Hno : int_add start limit = (start + limit)%Z)
        by (unfold int_add; apply int_wrap_small; unfold MaxInt, start; lia).
      unfold end_. rewrite Hno. unfold start. lia. }
    rewrite Hb in Hcases. exact Hcases.
  - intros Hpos Hover.
    assert (Hb : (start <=? end_)%Z && ((0 <=? start)%Z || (start =? end_)%Z)
                 = false).
    { apply andb_false_iff. left. apply Z.leb_gt.
      assert (Hno : int_add start limit = (start + limit - 2 ^ 64)%Z).
      { unfold int_add, int_wrap.
        replace (start + limit + 2 ^ 63)%Z
          with ((start + limit - 2 ^ 63) + 1 * 2 ^ 64)%Z by lia.
        rewrite Z.mod_add by lia. rewrite Z.mod_small by (unfold start; lia). lia. }
      unfold end_. rewrite Hno. unfold start. lia. }
    rewrite Hb in Hcases. exact Hcases.
  - intros Hneg Hne.
    assert (Hb : (start <=? end_)%Z && ((0 <=? start)%Z || (start =? end_)%Z)
                 = false).
    { assert (Hstart : start = offset) by (unfold start; lia).
      destruct (Z.leb_spec start end_) as [Hle|Hgt]; [|reflexivity]. simpl andb.
      apply orb_false_iff. split; [apply Z.leb_gt; lia|]. apply Z.eqb_neq.
      intros Heq. unfold end_ in Heq.
      assert (Hsame : int_add start limit = start) by lia.
      unfold int_add, int_wrap in Hsame.
      assert (Hmod : ((start + limit + 2 ^ 63) mod 2 ^ 64
                      = (start + 2 ^ 63) mod 2 ^ 64)%Z).
      { rewrite (Z.mod_small (start + 2 ^ 63)) by lia. lia. }
      destruct (Z_lt_le_dec limit 0) as [Hl|Hl].
      + destruct (Z_le_gt_dec (- 2 ^ 63) (start + limit)) as [Hfit|Hw].
        * rewrite !Z.mod_small in Hmod by lia. lia.
        * replace (start + limit + 2 ^ 63)%Z
            with ((start + limit + 2 ^ 63 + 2 ^ 64) + (-1) * 2 ^ 64)%Z
            in Hmod by lia.
          rewrite Z.mod_add in Hmod by lia.
          rewrite !Z.mod_small in Hmod by lia. lia.
      + rewrite !Z.mod_small in Hmod by lia. lia. }
    rewrite Hb in Hcases. exact Hcases.
Qed.

(** X19. Paging through the sessions. For an offset and a limit that are not
    negative and whose sum is an [int], the handler renders the sessions
    from the offset on, as many as the limit says or as are left; [HasMore]
    says whether sessions remain, and [NextOffset] is where they start. The
    page asked for at [NextOffset] follows the first without gap or
    overlap: the two together are the page of the offset and of the sum of
    the two limits. *)
Theorem handleSessionsPartial_next_page (projectID : string)
    (offset limit limit' : Z) (project : Project.t) :
  loadProject fs pi projectID = Ok project ->
  (len (Project.Sessions project) <= maxCap)%Z ->
  (0 <= offset)%Z -> (0 <= limit)%Z -> (0 <= limit')%Z ->
  (offset + limit + limit' <= MaxInt)%Z ->
  exists data data',
    handleSessionsPartial fs pi maxCap projectID offset limit
    = render "sessions_partial.html" data /\
    handleSessionsPartial fs pi maxCap projectID
      (SessionsPartialData.NextOffset data) limit'
    = render "sessions_partial.html" data' /\
    SessionsPartialData.Sessions data
    = map (viewEntry fs pi)
        (take (Z.to_nat limit) (drop (Z.to_nat offset) (Project.Sessions project))) /\
    SessionsPartialData.NextOffset data
    = Z.min (offset + limit) (len (Project.Sessions project)) /\
    (SessionsPartialData.HasMore data = true <->
     (offset + limit < len (Project.Sessions project))%Z) /\
    SessionsPartialData.Sessions data ++ SessionsPartialData.Sessions data'
    = map (viewEntry fs pi)
        (take (Z.to_nat (limit + limit'))
           (drop (Z.to_nat offset) (Project.Sessions project))).
Proof.
  intros Hload Hcap Hoffset Hlimit Hlimit' Hsum.
  pose proof (len_nonneg (Project.Sessions project)) as Htotal.
  pose proof (handleSessionsPartial_good projectID offset limit project Hload Hcap
                Hoffset Hlimit ltac:(lia)) as Hfirst.
  pose proof (handleSessionsPartial_good projectID
                (Z.min (offset + limit) (len (Project.Sessions project))) limit'
                project Hload Hcap ltac:(lia) Hlimit' ltac:(lia)) as Hsecond.
  eexists. eexists. split; [exact Hfirst|]. simpl.
  split; [exact Hsecond|]. simpl.
  split; [reflexivity|]. split; [reflexivity|].
  split; [apply Z.ltb_lt|].
  rewrite <- map_app. f_equal.
  set (sessions := Project.Sessions project) in *.
  assert (Hlen : Z.of_nat (length sessions) = len sessions) by reflexivity.
  destruct (Z_le_gt_dec (offset + limit) (len sessions)) as [Hle|Hgt].
  - replace (Z.min (offset + limit) (len sessions)) with (offset + limit)%Z by lia.
    replace (Z.to_nat (offset + limit)) with (Z.to_nat offset + Z.to_nat limit)
      by lia.
    replace (Z.to_nat (limit + limit')) with (Z.to_nat limit + Z.to_nat limit')
      by lia.
    rewrite <- drop_drop. apply take_take_drop.
  - replace (Z.min (offset + limit) (len sessions)) with (len sessions) by lia.
    rewrite (drop_ge sessions (Z.to_nat (len sessions))) by lia.
    rewrite take_nil, app_nil_r.
    rewrite !take_ge; [reflexivity | |]; rewrite length_drop; lia.
Qed.

End HandlersOfPages.

Section HandlersOfGroups.
Context `{GoLib}.
Variable fs : FileSystem.
Variable pi : ProjectIndexer.t.

Lemma findGroup_Some (baseRepo : string) (groups : list ProjectGroup.t)
    (g : ProjectGroup.t) :
  findGroup baseRepo groups = Some g ->
  exists before after,
    groups = before ++ g :: after /\ ProjectGroup.BaseRepo g = baseRepo /\
    forall g', In g' before -> ProjectGroup.BaseRepo g' <> baseRepo.
Proof.
  induction groups as [|g0 groups IH]; simpl; [discriminate|].
  destruct (String.eqb_spec (ProjectGroup.BaseRepo g0) baseRepo) as [Hg|Hg].
  - intros [= <-]. exists [], groups. split; [reflexivity|].
    split; [exact Hg | intros x []].
  - intros Hfind. destruct (IH Hfind) as (before & after & -> & Hbase & Hbefore).
    exists (g0 :: before), after. split; [reflexivity|]. split; [exact Hbase|].
    intros x [<-|Hx]; [exact Hg | now apply Hbefore].
Qed.

Lemma findGroup_None (baseRepo : string) (groups : list ProjectGroup.t) :
  findGroup baseRepo groups = None <->
  forall g, In g groups -> ProjectGroup.BaseRepo g <> baseRepo.
Proof.
  induction groups as [|g0 groups IH]; simpl.
  - split; [intros _ g [] | reflexivity].
  - destruct (String.eqb_spec (ProjectGroup.BaseRepo g0) baseRepo) as [Hg|Hg].
    + split; [discriminate|]. intros Hnone. destruct (Hnone g0); auto.
    + rewrite IH. split.
      * intros Hnone g [<-|Hin]; auto.
      * intros Hnone g Hin. apply Hnone. now right.
Qed.

(** X20. The partial of a project group answers with the status 500 and a
    fixed text when the groups cannot be listed, and with the status 404
    exactly when no group has the base asked for. Otherwise it renders a
    group of that base, whose members all have that base and the
    organization of the group. The organization plays no part in the
    choice: of the groups of that base, the one rendered is the first in
    the order of [ListProjectGroups], so that none of them was modified
    later. *)
Theorem handleProjectGroupPartial_first (baseRepo : string) :
  match ListProjectGroups fs pi with
  | Err _ =>
      handleProjectGroupPartial fs pi baseRepo
      = http_Error "Failed to list projects" 500
  | Ok groups =>
      (handleProjectGroupPartial fs pi baseRepo
       = http_Error "Project group not found" 404 <->
       forall g, In g groups -> ProjectGroup.BaseRepo g <> baseRepo) /\
      ((exists g, In g groups /\ ProjectGroup.BaseRepo g = baseRepo) ->
       exists targetGroup,
         handleProjectGroupPartial fs pi baseRepo
         = render "project_group_partial.html" targetGroup /\
         In targetGroup groups /\
         ProjectGroup.BaseRepo targetGroup = baseRepo /\
         (forall s, In s (ProjectGroup.Projects targetGroup) ->
            ProjectSummary.BaseRepo s = baseRepo /\
            ProjectSummary.Org s = ProjectGroup.Org targetGroup) /\
         forall g, In g groups -> ProjectGroup.BaseRepo g = baseRepo ->
           (Time.unixNano (ProjectGroup.LastModified g)
            <= Time.unixNano (ProjectGroup.LastModified targetGroup))%Z)
  end.
Proof.
  unfold handleProjectGroupPartial, ListProjectGroups.
  destruct (ListProjectSummaries fs pi) as [summaries|err] eqn:Hsum;
    [|reflexivity].
  pose proof (groupSummaries_Grouping summaries
                (ListProjectSummaries_wellFormed fs pi summaries Hsum))
    as (_ & _ & Hsorted & Hinv).
  set (groups := groupSummaries summaries) in *.
  split.
  - rewrite <- findGroup_None.
    destruct (findGroup baseRepo groups) as [target|].
    + split; discriminate.
    + split; reflexivity.
  - intros (g & Hg & Hbase).
    destruct (findGroup baseRepo groups) as [target|] eqn:Hfind.
    2: { destruct (proj1 (findGroup_None baseRepo groups) Hfind g Hg Hbase). }
    destruct (findGroup_Some _ _ _ Hfind) as (before & after & Hsplit & Htarget
                                                & Hbefore).
    assert (Hin : In target groups)
      by (rewrite Hsplit; apply in_or_app; right; now left).
    exists target. split; [reflexivity|]. split; [exact Hin|].
    split; [exact Htarget|]. split.
    + intros s Hs. destruct (Hinv target Hin) as (Hmembers & _).
      destruct (Hmembers s Hs) as [Horg Hb]. split; congruence.
    + intros g' Hg' Hbase'. rewrite Hsplit in Hg', Hsorted.
      apply in_app_or in Hg' as [Hg'|Hg']; [destruct (Hbefore g' Hg' Hbase')|].
      apply list_elem_of_In, list_elem_of_lookup in Hg' as [j Hj].
      apply (Hsorted (length before) (length before + j) target g'); [lia | |].
      * now rewrite lookup_app_r, Nat.sub_diag by lia.
      * rewrite lookup_app_r by lia.
        now replace (length before + j - length before) with j by lia.
Qed.

End HandlersOfGroups.

(** ** Running instances *)

Lemma hasSlash_append (a b : string) :
  hasSlash (a +:+ b) = hasSlash a || hasSlash b.
Proof.
  induction a as [|c a IH]; [reflexivity|].
  rewrite append_cons. simpl. rewrite IH. now rewrite orb_assoc.
Qed.

Lemma ReplaceAll_no_slash (s : string) :
  hasSlash (strings_ReplaceAll s slash dash) = false.
Proof.
  induction s as [|c s IH]; [reflexivity|]. simpl. rewrite IH, orb_false_r.
  destruct (Ascii.eqb_spec c slash) as [->|Hc]; [reflexivity|].
  now apply Ascii.eqb_neq.
Qed.

(** The name [extractProjectName] gives is a stretch of the directory
    name. *)
Lemma extractProjectName_stretch (dirName : string) :
  exists pre post, dirName = pre +:+ extractProjectName dirName +:+ post.
Proof.
  unfold extractProjectName.
  destruct (Split_dash_last dirName) as (piece & pieces & Hsplit & _ & Hlast).
  rewrite Hsplit. simpl rev. rewrite lastNonEmpty_snoc.
  destruct (lastNonEmpty (rev pieces)) as [p|].
  - destruct Hlast as (_ & pre & post & Hname & _).
    exists (pre +:+ "-"), post. now rewrite append_assoc.
  - destruct Hlast as (post & Hname & _).
    destruct (String.eqb_spec piece "") as [->|Hne].
    + exists "", "". rewrite append_nil.
      clear. induction dirName as [|c s IH]; [reflexivity|].
      now rewrite append_cons, <- IH.
    + exists "", post. now rewrite append_nil.
Qed.

Lemma scanCWD_found (mid : list string) (name : string) (rest : list string) :
  (forall l, In l mid -> strings_HasPrefix l "n" = false) ->
  scanCWD true (mid ++ ("n" +:+ name) :: rest) = name.
Proof.
  induction mid as [|l mid IH]; intros Hmid.
  - simpl app. unfold scanCWD. simpl_append. simpl.
    unfold strings_TrimPrefix, strings_HasPrefix. simpl.
    replace (String.prefix "" name) with true by (now destruct name).
    rewrite Nat.sub_0_r. apply substring_all.
  - simpl. destruct (String.eqb l "fcwd"); [apply IH; intros; apply Hmid; now right|].
    rewrite (Hmid l (or_introl eq_refl)). simpl.
    apply IH. intros; apply Hmid; now right.
Qed.

Lemma scanCWD_none (foundCwd : bool) (lines : list string) :
  (forall l, In l lines -> strings_HasPrefix l "n" = false) ->
  scanCWD foundCwd lines = "".
Proof.
  revert foundCwd. induction lines as [|l lines IH]; intros foundCwd Hlines;
    [reflexivity|].
  simpl. destruct (String.eqb l "fcwd"); [apply IH; intros; apply Hlines; now right|].
  rewrite (Hlines l (or_introl eq_refl)), andb_false_r.
  apply IH. intros; apply Hlines; now right.
Qed.

(** X24. What [getProcessCWD] reads off the lines of [lsof]: nothing when no
    line is [fcwd], or when no line after the first [fcwd] starts with [n];
    otherwise the rest of the first line starting with [n] that comes after
    the first [fcwd], however many other lines lie between the two. *)
Theorem scanCWD_first_name (lines : list string) :
  (~ In "fcwd" lines -> scanCWD false lines = "") /\
  (forall before after,
     lines = before ++ "fcwd" :: after -> ~ In "fcwd" before ->
     (forall l, In l after -> strings_HasPrefix l "n" = false) ->
     scanCWD false lines = "") /\
  (forall before mid name rest,
     lines = before ++ "fcwd" :: mid ++ ("n" +:+ name) :: rest ->
     ~ In "fcwd" before ->
     (forall l, In l mid -> strings_HasPrefix l "n" = false) ->
     scanCWD false lines = name).
Proof.
  assert (Hskip : forall before after,
            ~ In "fcwd" before ->
            scanCWD false (before ++ "fcwd" :: after) = scanCWD true after).
  { induction before as [|l before IH]; intros after Hno; [reflexivity|].
    simpl. destruct (String.eqb_spec l "fcwd") as [->|Hl];
      [destruct Hno; now left|].
    simpl. apply IH. intros Hin. apply Hno. now right. }
  split; [|split].
  - induction lines as [|l lines IH]; intros Hno; [reflexivity|].
    simpl. destruct (String.eqb_spec l "fcwd") as [->|Hl];
      [destruct Hno; now left|].
    simpl. apply IH. intros Hin. apply Hno. now right.
  - intros before after -> Hno Hafter. rewrite Hskip by assumption.
    now apply scanCWD_none.
  - intros before mid name rest -> Hno Hmid. rewrite Hskip by assumption.
    now apply scanCWD_found.
Qed.

Section Instances.
Context `{GoLib}.
Variable fs : FileSystem.

Lemma matchActive_Some (workingDir : string) (activeLists : list ActiveTaskList.t)
    (active : ActiveTaskList.t) :
  matchActive workingDir activeLists = Some active ->
  FirstSuch (matchesDir workingDir) activeLists active.
Proof.
  induction activeLists as [|a activeLists IH]; simpl; [discriminate|].
  destruct (negb (String.eqb (ActiveTaskList.ProjectPath a) "")
            && strings_Contains workingDir (ActiveTaskList.ProjectName a))
    eqn:Htest.
  - intros [= <-]. exists [], activeLists. split; [reflexivity|].
    apply andb_true_iff in Htest as [Hpath Hname].
    apply negb_true_iff, String.eqb_neq in Hpath.
    split; [split; assumption | intros y []].
  - intros Hmatch. destruct (IH Hmatch) as (before & after & -> & Hactive & Hbefore).
    exists (a :: before), after. split; [reflexivity|]. split; [exact Hactive|].
    intros y [<-|Hy]; [|now apply Hbefore].
    intros [Hpath Hname]. apply String.eqb_neq in Hpath.
    rewrite Hpath, Hname in Htest. discriminate.
Qed.

Lemma matchActive_None (workingDir : string) (activeLists : list ActiveTaskList.t) :
  matchActive workingDir activeLists = None ->
  forall a, In a activeLists -> ~ matchesDir workingDir a.
Proof.
  induction activeLists as [|a0 activeLists IH]; simpl; [intros _ a []|].
  destruct (negb (String.eqb (ActiveTaskList.ProjectPath a0) "")
            && strings_Contains workingDir (ActiveTaskList.ProjectName a0))
    eqn:Htest; [discriminate|].
  intros Hmatch a [<-|Ha]; [|now apply IH].
  intros [Hpath Hname]. apply String.eqb_neq in Hpath.
  rewrite Hpath, Hname in Htest. discriminate.
Qed.

(** X21. [enrichInstance] leaves an instance without working directory, or
    a tracker without indexer, as it is, and never changes the process id,
    the working directory, the start time or the uptime. Otherwise the
    project name becomes the name [extractProjectName] makes of the working
    directory with its slashes turned into dashes, which holds no slash.
    When no active list of a known project has a name that occurs in the
    working directory, or the active lists cannot be listed, the session,
    the count and [HasTasks] stay as they were. Otherwise they are taken
    from the first such list: the count is its count of task files, at
    least 1, and [HasTasks] is true. *)
Theorem enrichInstance_first_match (it : InstanceTracker.t)
    (instance : ClaudeInstance.t) :
  let enriched := enrichInstance fs it instance in
  let workingDir := ClaudeInstance.WorkingDir instance in
  ClaudeInstance.PID enriched = ClaudeInstance.PID instance /\
  ClaudeInstance.WorkingDir enriched = workingDir /\
  ClaudeInstance.StartTime enriched = ClaudeInstance.StartTime instance /\
  ClaudeInstance.Uptime enriched = ClaudeInstance.Uptime instance /\
  match InstanceTracker.projectIndexer it with
  | None => enriched = instance
  | Some projectIndexer =>
      if String.eqb workingDir "" then enriched = instance
      else
        ClaudeInstance.ProjectName enriched
        = extractProjectName (strings_ReplaceAll workingDir slash dash) /\
        hasSlash (ClaudeInstance.ProjectName enriched) = false /\
        match ListActiveTaskLists fs projectIndexer with
        | Err _ =>
            ClaudeInstance.SessionID enriched = ClaudeInstance.SessionID instance /\
            ClaudeInstance.HasTasks enriched = ClaudeInstance.HasTasks instance /\
            ClaudeInstance.TaskCount enriched = ClaudeInstance.TaskCount instance
        | Ok activeLists =>
            ((forall a, In a activeLists -> ~ matchesDir workingDir a) /\
             ClaudeInstance.SessionID enriched = ClaudeInstance.SessionID instance /\
             ClaudeInstance.HasTasks enriched = ClaudeInstance.HasTasks instance /\
             ClaudeInstance.TaskCount enriched = ClaudeInstance.TaskCount instance)
            \/
            (exists active,
               FirstSuch (matchesDir workingDir) activeLists active /\
               ClaudeInstance.SessionID enriched = ActiveTaskList.SessionID active /\
               ClaudeInstance.TaskCount enriched
               = GetTaskCount fs projectIndexer (ActiveTaskList.SessionID active) /\
               (1 <= ClaudeInstance.TaskCount enriched)%Z /\
               ClaudeInstance.HasTasks enriched = true)
        end
  end.
Proof.
  intros enriched workingDir. unfold enriched, enrichInstance. fold workingDir.
  destruct (InstanceTracker.projectIndexer it) as [pi|];
    [|repeat split; reflexivity].
  destruct (String.eqb workingDir ""); [repeat split; reflexivity|].
  assert (Hname : hasSlash (extractProjectName
                              (strings_ReplaceAll workingDir slash dash)) = false).
  { destruct (extractProjectName_stretch (strings_ReplaceAll workingDir slash dash))
      as (pre & post & Hsplit).
    pose proof (ReplaceAll_no_slash workingDir) as Hno.
    rewrite Hsplit, !hasSlash_append in Hno.
    apply orb_false_iff in Hno as [_ Hno].
    now apply orb_false_iff in Hno as [Hno _]. }
  cbn [ClaudeInstance.WorkingDir ClaudeInstance.PID ClaudeInstance.SessionID
       ClaudeInstance.ProjectName ClaudeInstance.StartTime ClaudeInstance.Uptime
       ClaudeInstance.HasTasks ClaudeInstance.TaskCount].
  destruct (ListActiveTaskLists fs pi) as [activeLists|err] eqn:Hlists;
    [|repeat split; assumption].
  destruct (matchActive workingDir activeLists) as [active|] eqn:Hmatch.
  - simpl. repeat (split; [reflexivity|]). split; [exact Hname|]. right.
    pose proof (matchActive_Some _ _ _ Hmatch) as Hfirst.
    exists active. split; [exact Hfirst|]. split; [reflexivity|].
    assert (Hin : In active activeLists).
    { destruct Hfirst as (before & after & -> & _). apply in_or_app. right. now left. }
    unfold ListActiveTaskLists in Hlists.
    destruct (os_ReadDir fs (ProjectIndexer.tasksDir pi)) as [entries|err];
      [|discriminate].
    injection Hlists as <-. rewrite appendActive_loop in Hin. simpl in Hin.
    apply in_flat_map in Hin as (entry & _ & Hin).
    apply activeFrom_In in Hin as (_ & _ & Hid & Hcount & Hpos & _).
    rewrite Hid, Hcount. split; [reflexivity|]. split; [lia|].
    now apply Z.ltb_lt.
  - simpl. repeat (split; [reflexivity|]). split; [exact Hname|]. left.
    split; [now apply matchActive_None|]. repeat split; reflexivity.
Qed.

End Instances.

(** ** Template functions and the registry of event streams *)

Lemma length_substring_0 (n : nat) (s : string) :
  n <= String.length s -> String.length (substring 0 n s) = n.
Proof.
  revert s. induction n as [|n IH]; intros s Hn.
  - now destruct s.
  - destruct s as [|c s]; simpl in *; [lia|]. rewrite IH by lia. reflexivity.
Qed.

Lemma HasPrefix_substring_0 (n : nat) (s : string) :
  strings_HasPrefix s (substring 0 n s) = true.
Proof.
  unfold strings_HasPrefix. revert s. induction n as [|n IH]; intros s.
  - now destruct s.
  - destruct s as [|c s]; simpl; [reflexivity|].
    destruct (ascii_dec c c) as [_|Hne]; [apply IH | now destruct Hne].
Qed.

(** X22. [truncate] and [truncateID] return a string of at most [n] bytes
    unchanged. They panic on a longer string when [n] is negative, so on
    every string when [n] is negative. Otherwise they return the first [n]
    bytes followed by three dots, [n + 3] bytes, which is longer than the
    string itself when the string has fewer than [n + 3] bytes. *)
Theorem truncate_length (s : string) (n : Z) :
  ((n < 0)%Z -> truncate s n = None) /\
  ((0 <= n)%Z ->
   exists r, truncate s n = Some r /\
     (String.length r <= Z.to_nat n + 3) /\
     ((Z.of_nat (String.length s) <= n)%Z -> r = s) /\
     ((n < Z.of_nat (String.length s))%Z ->
      r = substring 0 (Z.to_nat n) s +:+ "..." /\
      String.length r = Z.to_nat n + 3 /\
      strings_HasPrefix s (substring 0 (Z.to_nat n) s) = true /\
      (String.length s < Z.to_nat n + 3 -> String.length s < String.length r))).
Proof.
  unfold truncate. split.
  - intros Hneg.
    replace (Z.of_nat (String.length s) <=? n)%Z with false
      by (symmetry; apply Z.leb_gt; lia).
    now replace (n <? 0)%Z with true by (symmetry; apply Z.ltb_lt; lia).
  - intros Hpos. destruct (Z.leb_spec (Z.of_nat (String.length s)) n) as [Hle|Hgt].
    + exists s. split; [reflexivity|]. split; [lia|]. split; [reflexivity|]. lia.
    + replace (n <? 0)%Z with false by (symmetry; apply Z.ltb_ge; lia).
      eexists. split; [reflexivity|].
      assert (Hlen : String.length (substring 0 (Z.to_nat n) s +:+ "...")
                     = Z.to_nat n + 3).
      { rewrite length_append, length_substring_0 by lia. reflexivity. }
      split; [lia|]. split; [lia|]. intros _.
      split; [reflexivity|]. split; [exact Hlen|]. split; [|lia].
      apply HasPrefix_substring_0.
Qed.

Lemma removeClient_absent (clients : list chan) (ch : chan) :
  ~ In ch clients -> removeClient clients ch = None.
Proof.
  induction clients as [|c clients IH]; simpl; [reflexivity|].
  intros Hin. destruct (Nat.eqb_spec c ch) as [->|Hne]; [destruct Hin; now left|].
  rewrite IH; [reflexivity | intros Hc; apply Hin; now right].
Qed.

Lemma removeClient_snoc (clients : list chan) (ch : chan) :
  ~ In ch clients -> removeClient (clients ++ [ch]) ch = Some clients.
Proof.
  induction clients as [|c clients IH]; simpl.
  - now rewrite Nat.eqb_refl.
  - intros Hin. destruct (Nat.eqb_spec c ch) as [->|Hne]; [destruct Hin; now left|].
    rewrite IH; [reflexivity | intros Hc; apply Hin; now right].
Qed.

Lemma removeClient_Some (clients clients' : list chan) (ch : chan) :
  removeClient clients ch = Some clients' ->
  exists before after,
    clients = before ++ ch :: after /\ clients' = before ++ after /\
    ~ In ch before.
Proof.
  revert clients'. induction clients as [|c clients IH]; intros clients'; simpl;
    [discriminate|].
  destruct (Nat.eqb_spec c ch) as [->|Hne].
  - intros [= <-]. exists [], clients. split; [reflexivity|].
    split; [reflexivity | intros []].
  - destruct (removeClient clients ch) as [rest|]; [|discriminate].
    intros [= <-]. destruct (IH rest eq_refl) as (before & after & -> & -> & Hno).
    exists (c :: before), after. split; [reflexivity|]. split; [reflexivity|].
    intros [Hc|Hc]; [contradiction | now apply Hno].
Qed.

(** X23. The registry of event streams. Registering a client adds it at the
    end of the clients of its list and leaves the other lists alone.
    Unregistering removes the first registration of the client for the
    list, keeps the order of the other clients, and changes nothing when
    the client is not registered for the list. So unregistering a client
    right after registering it, when it was not registered before, gives
    back the clients of every list. *)
Theorem removeSSEClient_after_add (sseClients : gmap string (list chan))
    (listID : string) (ch : chan) :
  (forall other,
     clientsOf (addSSEClient sseClients listID ch) other
     = if String.eqb other listID then clientsOf sseClients listID ++ [ch]
       else clientsOf sseClients other) /\
  (forall other, other <> listID ->
     clientsOf (removeSSEClient sseClients listID ch) other
     = clientsOf sseClients other) /\
  (~ In ch (clientsOf sseClients listID) ->
   removeSSEClient sseClients listID ch = sseClients) /\
  (In ch (clientsOf sseClients listID) ->
   exists before after,
     clientsOf sseClients listID = before ++ ch :: after /\
     ~ In ch before /\
     clientsOf (removeSSEClient sseClients listID ch) listID = before ++ after) /\
  (~ In ch (clientsOf sseClients listID) ->
   forall other,
     clientsOf (removeSSEClient (addSSEClient sseClients listID ch) listID ch) other
     = clientsOf sseClients other).
Proof.
  assert (Hadd : forall other,
            clientsOf (addSSEClient sseClients listID ch) other
            = if String.eqb other listID then clientsOf sseClients listID ++ [ch]
              else clientsOf sseClients other).
  { intros other. unfold clientsOf, addSSEClient.
    destruct (String.eqb_spec other listID) as [->|Hne].
    - now rewrite lookup_insert_eq.
    - now rewrite lookup_insert_ne by congruence. }
  assert (Hother : forall m other, other <> listID ->
            clientsOf (removeSSEClient m listID ch) other = clientsOf m other).
  { intros m other Hne. unfold clientsOf, removeSSEClient.
    destruct (removeClient _ ch); [|reflexivity].
    now rewrite lookup_insert_ne by congruence. }
  split; [exact Hadd|]. split; [apply Hother|]. split; [|split].
  - intros Hfresh. unfold removeSSEClient.
    fold (clientsOf sseClients listID). now rewrite removeClient_absent.
  - intros Hin. unfold removeSSEClient at 1. fold (clientsOf sseClients listID).
    destruct (removeClient (clientsOf sseClients listID) ch) as [clients'|] eqn:Hrm.
    + destruct (removeClient_Some _ _ _ Hrm) as (before & after & Hsplit & -> & Hno).
      exists before, after. split; [exact Hsplit|]. split; [exact Hno|].
      unfold clientsOf at 1. now rewrite lookup_insert_eq.
    + exfalso. clear Hadd Hother. revert Hrm Hin.
      induction (clientsOf sseClients listID) as [|c clients IH]; simpl;
        [intros _ []|].
      destruct (Nat.eqb_spec c ch) as [->|Hne]; [discriminate|].
      destruct (removeClient clients ch); [discriminate|].
      intros _ [Hc|Hc]; [contradiction | now apply IH].
  - intros Hfresh other.
    destruct (String.eqb_spec other listID) as [->|Hne].
    + unfold removeSSEClient.
      fold (clientsOf (addSSEClient sseClients listID ch) listID).
      rewrite Hadd, String.eqb_refl, (removeClient_snoc _ _ Hfresh).
      unfold clientsOf at 1. now rewrite lookup_insert_eq.
    + rewrite Hother by assumption. rewrite Hadd.
      now replace (String.eqb other listID) with false
        by (symmetry; now apply String.eqb_neq).
Qed.

(** ** The sample tree, once more *)

(** The project of the sample tree with two sessions. *)
Definition sampleRepo : Project.t :=
  Eval vm_compute in
    match @loadProject refLib sampleFS sampleIndexer "-src-github-com-o-repo" with
    | Ok project => project
    | Err _ => Project.mk "" "" "" "" "" [] 0 (Time.mk 0 0)
    end.

(** The sample tree with the log file of the session [s9], which is in no
    index, in the directory [-stale]. *)
Definition logFS : FileSystem :=
  tableFS sampleDirs sampleFiles ["/c/projects/-stale/s9.jsonl"] eq_refl eq_refl.

Definition logActiveLists : list ActiveTaskList.t :=
  Eval vm_compute in
    match @ListActiveTaskLists refLib logFS sampleIndexer with
    | Ok lists => lists
    | Err _ => []
    end.

Lemma loadProject_names_witness :
  Project.Name sampleRepo = "repo" /\ Project.Shortname sampleRepo = "repo".
Proof.
  apply (proj1 (proj2 (@loadProject_names refLib sampleFS sampleIndexer
                         "-src-github-com-o-repo" sampleRepo
                         ltac:(vm_compute; reflexivity))) "repo").
  - vm_compute. reflexivity.
  - discriminate.
Defined.

Lemma ListActiveTaskLists_context_witness :
  exists a before dir after,
    logActiveLists !! 1 = Some a /\
    ActiveTaskList.SessionID a = "s9" /\
    ActiveTaskList.TaskDir a = "/c/tasks/s9" /\
    lookupPath sampleDirs "/c/projects" = Some (before ++ dir :: after) /\
    DirEntry.Name dir = "-stale" /\
    contextOf a = projectInfo.mk "stale" "-stale" "" "".
Proof.
  destruct (logActiveLists !! 1) as [a|] eqn:Ha; [|discriminate].
  assert (Hin : In a logActiveLists)
    by (apply list_elem_of_In, list_elem_of_lookup; eauto).
  injection Ha as <-.
  destruct (os_ReadDir logFS (ProjectIndexer.projectsDir sampleIndexer))
    as [dirs|err] eqn:Hdirs; [|discriminate].
  destruct (@ListActiveTaskLists_context refLib logFS sampleIndexer logActiveLists
              _ ltac:(vm_compute; reflexivity) Hin) as [Hdir Hcontext].
  destruct (Hcontext dirs Hdirs) as [_ Hlog].
  vm_compute in Hdirs. injection Hdirs as <-.
  destruct Hlog as (before & dir & after & Hsplit & [HisDir Hstat] & Hbefore & Hinfo).
  - intros dir entry Hdir' (HisDir & idx & Hread & Hentry & Hid).
    simpl in Hdir'.
    destruct Hdir' as [<-|[<-|[<-|[<-|[<-|[<-|[]]]]]]]; vm_compute in Hread;
      try discriminate; injection Hread as <-; simpl in Hentry;
      repeat (destruct Hentry as [<-|Hentry]; [discriminate|]); destruct Hentry.
  - exists (DirEntry.mk "-stale" true). split; [simpl; tauto|].
    split; [reflexivity | vm_compute; reflexivity].
  - eexists. exists before, dir, after. split; [reflexivity|].
    split; [reflexivity|]. split; [exact Hdir|].
    split; [now rewrite <- Hsplit|].
    assert (Hname : DirEntry.Name dir = "-stale").
    { assert (Hdirs : In dir (before ++ dir :: after))
        by (apply in_or_app; right; now left).
      rewrite <- Hsplit in Hdirs. simpl in Hdirs.
      destruct Hdirs as [<-|[<-|[<-|[<-|[<-|[<-|[]]]]]]]; vm_compute in Hstat;
        try discriminate; try reflexivity. }
    split; [exact Hname|]. rewrite Hinfo, Hname. reflexivity.
Defined.

Lemma handleSessionsPartial_pages_witness :
  @handleSessionsPartial refLib sampleFS sampleIndexer 1000
    "-src-github-com-o-repo" 0 (-1) = panic /\
  @handleSessionsPartial refLib sampleFS sampleIndexer 1000
    "-src-github-com-o-repo" 1 MaxInt = panic /\
  @handleSessionsPartial refLib sampleFS sampleIndexer 1000
    "-src-github-com-o-repo" (-1) 1 = panic.
Proof.
  assert (Hload : @loadProject refLib sampleFS sampleIndexer "-src-github-com-o-repo"
                  = Ok sampleRepo) by (vm_compute; reflexivity).
  assert (Hcap : (len (Project.Sessions sampleRepo) <= 1000)%Z)
    by (vm_compute; discriminate).
  assert (Hmax : (1000 <= 2 ^ 48)%Z) by lia.
  split; [|split].
  - apply (proj1 (proj2 (@handleSessionsPartial_pages refLib sampleFS sampleIndexer
                           1000 "-src-github-com-o-repo" 0 (-1) sampleRepo Hload Hcap
                           Hmax ltac:(unfold MaxInt; lia) ltac:(unfold MaxInt; lia))));
      lia.
  - apply (proj1 (proj2 (proj2
             (@handleSessionsPartial_pages refLib sampleFS sampleIndexer
                1000 "-src-github-com-o-repo" 1 MaxInt sampleRepo Hload Hcap
                Hmax ltac:(unfold MaxInt; lia) ltac:(unfold MaxInt; lia)))));
      [lia | vm_compute; reflexivity].
  - apply (proj2 (proj2 (proj2
             (@handleSessionsPartial_pages refLib sampleFS sampleIndexer
                1000 "-src-github-com-o-repo" (-1) 1 sampleRepo Hload Hcap
                Hmax ltac:(unfold MaxInt; lia) ltac:(unfold MaxInt; lia)))));
      lia.
Defined.

Lemma handleSessionsPartial_next_page_witness :
  exists data data',
    @handleSessionsPartial refLib sampleFS sampleIndexer 1000
      "-src-github-com-o-repo" 0 1 = render "sessions_partial.html" data /\
    @handleSessionsPartial refLib sampleFS sampleIndexer 1000
      "-src-github-com-o-repo" 1 1 = render "sessions_partial.html" data' /\
    map (fun e => SessionEntry.SessionID (SessionViewEntry.SessionEntry e))
      (SessionsPartialData.Sessions data ++ SessionsPartialData.Sessions data')
    = ["s2"; "s1"] /\
    SessionsPartialData.HasMore data = true /\
    SessionsPartialData.HasMore data' = false.
Proof.
  destruct (@handleSessionsPartial_next_page refLib sampleFS sampleIndexer 1000
              "-src-github-com-o-repo" 0 1 1 sampleRepo
              ltac:(vm_compute; reflexivity) ltac:(vm_compute; discriminate)
              ltac:(lia) ltac:(lia) ltac:(lia) ltac:(unfold MaxInt; lia))
    as (data & data' & Hfirst & Hsecond & _ & Hnext & Hmore & Hboth).
  exists data, data'. split; [exact Hfirst|].
  assert (Hone : SessionsPartialData.NextOffset data = 1%Z)
    by (rewrite Hnext; vm_compute; reflexivity).
  rewrite Hone in Hsecond. split; [exact Hsecond|].
  split; [rewrite Hboth; vm_compute; reflexivity|].
  split; [apply Hmore; vm_compute; reflexivity|].
  vm_compute in Hsecond. now injection Hsecond as <-.
Defined.
